(** * Tridiagonalization.h: in-place Householder tridiagonalization

    A shallow embedding of [Eigen/src/Eigenvalues/Tridiagonalization.h]:
    the two-argument reduction [ei_tridiagonalization_inplace], the
    [Tridiagonalization] class with its accessors, the four-argument
    dispatcher and the three [ei_tridiagonalization_inplace_selector]
    bodies.

    The header is a template over the scalar type, so the embedding is
    generic over a [NumTraits] structure; [ei_assert] is a result that
    can be [AssertionFailed]; [Index] is a signed integer ([Z]). *)

From Stdlib Require Import ZArith Lia Bool List Ring Reals Lra.
From Stdlib Require Import FunctionalExtensionality RNsatz.
Import ListNotations.
Open Scope Z_scope.

Set Implicit Arguments.

(** ** Scalars: [NumTraits<Scalar>] and the [ei_*] math functions *)

Class NumTraits : Type := {
  Scalar : Type;
  RealScalar : Type;
  (* Scalar arithmetic *)
  s0 : Scalar;                       (* Scalar(0) *)
  s1 : Scalar;                       (* Scalar(1) *)
  sadd : Scalar -> Scalar -> Scalar;
  smul : Scalar -> Scalar -> Scalar;
  ssub : Scalar -> Scalar -> Scalar;
  sopp : Scalar -> Scalar;
  s_half : Scalar;                   (* 0.5 *)
  s_neg_half : Scalar;               (* Scalar(-0.5) *)
  ei_conj : Scalar -> Scalar;
  ei_real : Scalar -> RealScalar;
  ei_abs2 : Scalar -> RealScalar;
  of_real : RealScalar -> Scalar;    (* conversion RealScalar -> Scalar *)
  (* RealScalar arithmetic *)
  r1 : RealScalar;                   (* RealScalar(1) *)
  r2 : RealScalar;                   (* RealScalar(2) *)
  radd : RealScalar -> RealScalar -> RealScalar;
  rdiv : RealScalar -> RealScalar -> RealScalar;
  ei_sqrt : RealScalar -> RealScalar;
  ei_isMuchSmallerThan : RealScalar -> RealScalar -> bool
}.

Declare Scope scalar_scope.
Delimit Scope scalar_scope with S.
Notation "x + y" := (sadd x y) : scalar_scope.
Notation "x * y" := (smul x y) : scalar_scope.
Notation "x - y" := (ssub x y) : scalar_scope.
Notation "- x" := (sopp x) : scalar_scope.

(** The outcome of a call that goes through [ei_assert]. *)
Inductive outcome (A : Type) : Type :=
| Returned (a : A)
| AssertionFailed.
Arguments Returned {A} a.
Arguments AssertionFailed {A}.

Definition returns {A : Type} (o : outcome A) : bool :=
  match o with Returned _ => true | AssertionFailed => false end.

(** [RowsAtCompileTime] / [ColsAtCompileTime] of a matrix type. *)
Inductive CompileTimeSize : Type :=
| Dynamic
| Fixed (n : Z).

Section Dense.
Context {T : NumTraits}.

(** ** The dense containers

    A matrix is its run-time dimensions and its coefficients; a vector
    likewise.  Only coefficients inside the dimensions are meaningful. *)

Record Matrix : Type := mkMatrix {
  rows : Z;
  cols : Z;
  coeff : Z -> Z -> Scalar
}.

Record Vector : Type := mkVector {
  size : Z;
  vcoeff : Z -> Scalar
}.

Record RealVector : Type := mkRealVector {
  rsize : Z;
  rcoeff : Z -> RealScalar
}.

(** [m.coeffRef(a, b) = x] *)
Definition set_coeff (m : Matrix) (a b : Z) (x : Scalar) : Matrix :=
  mkMatrix (rows m) (cols m)
    (fun a' b' => if (a' =? a) && (b' =? b) then x else coeff m a' b').

(** [v.coeffRef(k) = x] *)
Definition set_vcoeff (v : Vector) (k : Z) (x : Scalar) : Vector :=
  mkVector (size v) (fun k' => if k' =? k then x else vcoeff v k').

(** [d[k] = x] on a real vector *)
Definition set_rcoeff (d : RealVector) (k : Z) (x : RealScalar) : RealVector :=
  mkRealVector (rsize d) (fun k' => if k' =? k then x else rcoeff d k').

(** [m.col(i).tail(r)], read as a value: entry [k] is row [rows - r + k]. *)
Definition col_tail (m : Matrix) (i r : Z) : Vector :=
  mkVector r (fun k => coeff m (rows m - r + k) i).

(** [m.col(i).tail(r) = x] *)
Definition set_col_tail (m : Matrix) (i r : Z) (x : Vector) : Matrix :=
  mkMatrix (rows m) (cols m)
    (fun a b =>
       if (b =? i) && (rows m - r <=? a) && (a <? rows m)
       then vcoeff x (a - (rows m - r))
       else coeff m a b).

(** [v.tail(r)], read as a value. *)
Definition tail (v : Vector) (r : Z) : Vector :=
  mkVector r (fun k => vcoeff v (size v - r + k)).

(** [v.tail(r) = x] *)
Definition set_tail (v : Vector) (r : Z) (x : Vector) : Vector :=
  mkVector (size v)
    (fun k =>
       if (size v - r <=? k) && (k <? size v)
       then vcoeff x (k - (size v - r))
       else vcoeff v k).

(** [c * x] and [x + y] on vectors *)
Definition vscale (c : Scalar) (x : Vector) : Vector :=
  mkVector (size x) (fun k => (c * vcoeff x k)%S).

Definition vadd (x y : Vector) : Vector :=
  mkVector (size x) (fun k => (vcoeff x k + vcoeff y k)%S).

(** Sum of [f 0 .. f (k-1)]. *)
Fixpoint sum_upto (k : nat) (f : Z -> Scalar) : Scalar :=
  match k with
  | O => s0
  | S k' => (sum_upto k' f + f (Z.of_nat k'))%S
  end.

(** Modelled from the spec: the dot product of the dense library is not
    in this header; section 4.1 step 5 writes [p.dot(v)] as "p^t . v". *)
Definition dot (x y : Vector) : Scalar :=
  sum_upto (Z.to_nat (size x)) (fun k => (vcoeff x k * vcoeff y k)%S).

(** Entry [(a, b)] of [m.bottomRightCorner(r, r)]. *)
Definition bottomRight (m : Matrix) (r : Z) (a b : Z) : Scalar :=
  coeff m (rows m - r + a) (cols m - r + b).

(** Modelled from the spec: [selfadjointView<Lower>()] is not in this
    header; section 4.1 step 4 calls it "the symmetric view of the
    trailing sub-block": only the lower triangle is read, the upper
    half being its conjugated mirror image. *)
Definition selfadjointLower (m : Matrix) (r : Z) (a b : Z) : Scalar :=
  if b <=? a then bottomRight m r a b else ei_conj (bottomRight m r b a).

(** Modelled from the spec: the selfadjoint matrix-vector product
    [S * w] ("one symmetric matrix-vector product") over the view above. *)
Definition selfadjoint_times (m : Matrix) (r : Z) (w : Vector) : Vector :=
  mkVector r
    (fun a => sum_upto (Z.to_nat r)
                (fun b => (selfadjointLower m r a b * vcoeff w b)%S)).

(** Modelled from the spec: [selfadjointView<Lower>().rankUpdate(u, w, alpha)]
    is not in this header; the spec gives it as
    "M += alpha (u w^t + w u^t), touching only one triangle and its
    diagonal".  It acts on [m.bottomRightCorner(r, r)]. *)
Definition rankUpdate_lower (m : Matrix) (r : Z) (u w : Vector) (alpha : Scalar)
  : Matrix :=
  mkMatrix (rows m) (cols m)
    (fun a b =>
       let a' := a - (rows m - r) in
       let b' := b - (cols m - r) in
       if (0 <=? b') && (b' <=? a') && (a' <? r)
       then (coeff m a b
             + alpha * (vcoeff u a' * vcoeff w b' + vcoeff w a' * vcoeff u b'))%S
       else coeff m a b).

(** ** The external kernels

    [makeHouseholderInPlace] (Householder module) and the evaluation of
    a [HouseholderSequence] into a matrix are collaborators of this
    header; they are taken as parameters.  [makeHouseholderInPlace x]
    gives the new contents of the vector it is called on, the
    coefficient [h] and the real [beta]. *)

Record HouseholderSequence : Type := mkHouseholderSequence {
  hs_vectors : Matrix;
  hs_coeffs : Vector;
  hs_trans : bool;
  hs_actualVectors : Z;
  hs_shift : Z
}.

Class Kernels : Type := {
  makeHouseholderInPlace : Vector -> Vector * Scalar * RealScalar;
  evalHouseholderSequence : HouseholderSequence -> Matrix
}.

Context {K : Kernels}.

(** ** [ei_tridiagonalization_inplace(matA, hCoeffs)]: the loop body

    The body is cut into the phases the algorithm description names;
    [n] is [matA.rows()], [r] is [remainingSize]. *)

(** Lines 364-371: the reflector of the sub-column, then the explicit
    leading 1 at [(i+1, i)]. *)
Definition phase_reflector (n i : Z) (matA : Matrix)
  : Matrix * Scalar * RealScalar :=
  let remainingSize := n - i - 1 in
  let '(x, h, beta) := makeHouseholderInPlace (col_tail matA i remainingSize) in
  let matA := set_col_tail matA i remainingSize x in
  let matA := set_coeff matA (i + 1) i s1 in
  (matA, h, beta).

(** The buffer as [phase_reflector] leaves it when the kernel gave [x]. *)
Definition with_reflector (matA : Matrix) (n i : Z) (x : Vector) : Matrix :=
  set_coeff (set_col_tail matA i (n - i - 1) x) (i + 1) i s1.

(** Lines 373-374:
    [hCoeffs.tail(n-i-1) = S.selfadjointView<Lower>() * (conj(h) * v)]. *)
Definition phase_aux (n i : Z) (matA : Matrix) (hCoeffs : Vector) (h : Scalar)
  : Vector :=
  let remainingSize := n - i - 1 in
  set_tail hCoeffs (n - i - 1)
    (selfadjoint_times matA remainingSize
       (vscale (ei_conj h) (col_tail matA i remainingSize))).

(** Line 376:
    [hCoeffs.tail(n-i-1) += (conj(h) * Scalar(-0.5) * p.dot(v)) * v]. *)
Definition phase_correct (n i : Z) (matA : Matrix) (hCoeffs : Vector) (h : Scalar)
  : Vector :=
  let remainingSize := n - i - 1 in
  let c := (ei_conj h * s_neg_half
            * dot (tail hCoeffs remainingSize) (col_tail matA i remainingSize))%S in
  set_tail hCoeffs (n - i - 1)
    (vadd (tail hCoeffs (n - i - 1)) (vscale c (col_tail matA i (n - i - 1)))).

(** Lines 378-379: [S.selfadjointView<Lower>().rankUpdate(v, p, -1)]. *)
Definition phase_update (n i : Z) (matA : Matrix) (hCoeffs : Vector) : Matrix :=
  let remainingSize := n - i - 1 in
  rankUpdate_lower matA remainingSize
    (col_tail matA i remainingSize) (tail hCoeffs remainingSize) (- s1)%S.

(** Lines 381-382: [beta] at [(i+1, i)], [h] at coefficient [i]. *)
Definition phase_store (i : Z) (matA : Matrix) (hCoeffs : Vector)
           (h : Scalar) (beta : RealScalar) : Matrix * Vector :=
  (set_coeff matA (i + 1) i (of_real beta), set_vcoeff hCoeffs i h).

(** Lines 363-383: one iteration. *)
Definition tridiag_step (n i : Z) (st : Matrix * Vector) : Matrix * Vector :=
  let '(matA, hCoeffs) := st in
  let '(matA, h, beta) := phase_reflector n i matA in
  let hCoeffs := phase_aux n i matA hCoeffs h in
  let hCoeffs := phase_correct n i matA hCoeffs h in
  let matA := phase_update n i matA hCoeffs in
  phase_store i matA hCoeffs h beta.

(** [for (Index i = 0; i < n-1; ++i)]: [count] iterations from [i]. *)
Fixpoint tridiag_loop (n : Z) (count : nat) (i : Z) (st : Matrix * Vector)
  : Matrix * Vector :=
  match count with
  | O => st
  | S count' => tridiag_loop n count' (i + 1) (tridiag_step n i st)
  end.

(** Lines 353-384. *)
Definition ei_tridiagonalization_inplace (matA : Matrix) (hCoeffs : Vector)
  : outcome (Matrix * Vector) :=
  if negb (rows matA =? cols matA) then AssertionFailed
  else if negb (rows matA =? size hCoeffs + 1) then AssertionFailed
  else
    let n := rows matA in
    Returned (tridiag_loop n (Z.to_nat (n - 1)) 0 (matA, hCoeffs)).

(** ** The [Tridiagonalization] class *)

(** Line 74: [SizeMinusOne = Size == Dynamic ? Dynamic : (Size > 1 ? Size - 1 : 1)]. *)
Definition SizeMinusOne (Size : CompileTimeSize) : CompileTimeSize :=
  match Size with
  | Dynamic => Dynamic
  | Fixed s => if s >? 1 then Fixed (s - 1) else Fixed 1
  end.

(** The length a container really has when [dim] entries are asked of
    it: a type with a compile-time length keeps that length.  The
    entries of a fresh container are unspecified (zero here), and so are
    those of a resized one (the old ones here). *)
Definition actual_size (ct : CompileTimeSize) (dim : Z) : Z :=
  match ct with
  | Dynamic => dim
  | Fixed k => k
  end.

(** [CoeffVectorType v(dim)] and [v.resize(dim, 1)]; line 80 gives the
    type [SizeMinusOne] rows at compile time. *)
Definition new_CoeffVector (Size : CompileTimeSize) (dim : Z) : Vector :=
  mkVector (actual_size (SizeMinusOne Size) dim) (fun _ => s0).

Definition resize_CoeffVector (Size : CompileTimeSize) (v : Vector) (dim : Z)
  : Vector :=
  mkVector (actual_size (SizeMinusOne Size) dim) (vcoeff v).

(** [MatrixType m(r, c)] *)
Definition new_Matrix (Size : CompileTimeSize) (r c : Z) : Matrix :=
  mkMatrix (actual_size Size r) (actual_size Size c) (fun _ _ => s0).

Record Tridiagonalization : Type := mkTridiagonalization {
  m_matrix : Matrix;
  m_hCoeffs : Vector;
  m_isInitialized : bool
}.

(** Lines 111-115: [Tridiagonalization(Index size = Size==Dynamic ? 2 : Size)]. *)
Definition default_size (Size : CompileTimeSize) : Z :=
  match Size with
  | Dynamic => 2
  | Fixed s => s
  end.

Definition Tridiagonalization_sized (Size : CompileTimeSize) (size : Z)
  : Tridiagonalization :=
  mkTridiagonalization
    (new_Matrix Size size size)
    (new_CoeffVector Size (if size >? 1 then size - 1 else 1))
    false.

(** Lines 127-134: [Tridiagonalization(const MatrixType& matrix)]. *)
Definition Tridiagonalization_of (Size : CompileTimeSize) (matrix : Matrix)
  : outcome Tridiagonalization :=
  let m_matrix := matrix in
  let m_hCoeffs :=
    new_CoeffVector Size (if cols matrix >? 1 then cols matrix - 1 else 1) in
  match ei_tridiagonalization_inplace m_matrix m_hCoeffs with
  | AssertionFailed => AssertionFailed
  | Returned (m_matrix, m_hCoeffs) =>
      Returned (mkTridiagonalization m_matrix m_hCoeffs true)
  end.

(** Lines 153-160: [compute(const MatrixType& matrix)]. *)
Definition compute (Size : CompileTimeSize) (this : Tridiagonalization)
           (matrix : Matrix) : outcome Tridiagonalization :=
  let m_matrix := matrix in
  let m_hCoeffs := resize_CoeffVector Size (m_hCoeffs this) (rows matrix - 1) in
  match ei_tridiagonalization_inplace m_matrix m_hCoeffs with
  | AssertionFailed => AssertionFailed
  | Returned (m_matrix, m_hCoeffs) =>
      Returned (mkTridiagonalization m_matrix m_hCoeffs true)
  end.

(** Lines 178-182. *)
Definition householderCoefficients (this : Tridiagonalization) : outcome Vector :=
  if m_isInitialized this then Returned (m_hCoeffs this) else AssertionFailed.

(** Lines 215-219. *)
Definition packedMatrix (this : Tridiagonalization) : outcome Matrix :=
  if m_isInitialized this then Returned (m_matrix this) else AssertionFailed.

(** [v.conjugate()] *)
Definition vconjugate (v : Vector) : Vector :=
  mkVector (size v) (fun k => ei_conj (vcoeff v k)).

(** Lines 236-240. *)
Definition matrixQ (this : Tridiagonalization) : outcome HouseholderSequence :=
  if m_isInitialized this
  then Returned (mkHouseholderSequence (m_matrix this)
                   (vconjugate (m_hCoeffs this)) false
                   (rows (m_matrix this) - 1) 1)
  else AssertionFailed.

(** [m.diagonal()] with the real part taken ([RealReturnType]; the
    real part of a real scalar is itself). *)
Definition diagonal_real (m : Matrix) : RealVector :=
  mkRealVector (Z.min (rows m) (cols m)) (fun k => ei_real (coeff m k k)).

(** [Block(m, 1, 0, p, p).diagonal()] with the real part taken. *)
Definition block10_diagonal_real (m : Matrix) (p : Z) : RealVector :=
  mkRealVector p (fun k => ei_real (coeff m (1 + k) (0 + k))).

(** Lines 295-301. *)
Definition diagonal (this : Tridiagonalization) : outcome RealVector :=
  if m_isInitialized this
  then Returned (diagonal_real (m_matrix this))
  else AssertionFailed.

(** Lines 303-310. *)
Definition subDiagonal (this : Tridiagonalization) : outcome RealVector :=
  if m_isInitialized this
  then let n := rows (m_matrix this) in
       Returned (block10_diagonal_real (m_matrix this) (n - 1))
  else AssertionFailed.

(** [d.cast<Scalar>().conjugate()] *)
Definition cast_conjugate (d : RealVector) : Vector :=
  mkVector (rsize d) (fun k => ei_conj (of_real (rcoeff d k))).

(** [m.topRightCorner(p, p).diagonal() = x] *)
Definition set_topRight_diagonal (m : Matrix) (p : Z) (x : Vector) : Matrix :=
  mkMatrix (rows m) (cols m)
    (fun a b =>
       if (0 <=? a) && (a <? p) && (b =? cols m - p + a)
       then vcoeff x a
       else coeff m a b).

(** [m.topRightCorner(p, p).triangularView<Upper>().setZero()] *)
Definition topRight_upper_setZero (m : Matrix) (p : Z) : Matrix :=
  mkMatrix (rows m) (cols m)
    (fun a b =>
       let b' := b - (cols m - p) in
       if (0 <=? a) && (a <=? b') && (b' <? p) then s0 else coeff m a b).

(** [m.bottomLeftCorner(p, p).triangularView<Lower>().setZero()] *)
Definition bottomLeft_lower_setZero (m : Matrix) (p : Z) : Matrix :=
  mkMatrix (rows m) (cols m)
    (fun a b =>
       let a' := a - (rows m - p) in
       if (0 <=? b) && (b <=? a') && (a' <? p) then s0 else coeff m a b).

(** Lines 312-328. *)
Definition matrixT (this : Tridiagonalization) : outcome Matrix :=
  if m_isInitialized this then
    let n := rows (m_matrix this) in
    let matT := m_matrix this in
    match subDiagonal this with
    | AssertionFailed => AssertionFailed
    | Returned sub =>
        let matT := set_topRight_diagonal matT (n - 1) (cast_conjugate sub) in
        let matT :=
          if n >? 2
          then bottomLeft_lower_setZero
                 (topRight_upper_setZero matT (n - 2)) (n - 2)
          else matT in
        Returned matT
    end
  else AssertionFailed.

(** The value lines 319-327 build from a packed buffer [m]. *)
Definition tridiagonal_of (m : Matrix) : Matrix :=
  if rows m >? 2
  then bottomLeft_lower_setZero
         (topRight_upper_setZero
            (set_topRight_diagonal m (rows m - 1)
               (cast_conjugate (block10_diagonal_real m (rows m - 1))))
            (rows m - 2))
         (rows m - 2)
  else set_topRight_diagonal m (rows m - 1)
         (cast_conjugate (block10_diagonal_real m (rows m - 1))).

(** ** The selectors and the four-argument dispatcher *)

(** [m.diagonal<-1>()] with the real part taken. *)
Definition subdiagonal_real (m : Matrix) : RealVector :=
  mkRealVector (Z.min (cols m) (rows m - 1))
    (fun k => ei_real (coeff m (k + 1) k)).

(** Lines 442-458: the general selector. *)
Definition selector_general_run (Size : CompileTimeSize) (mat : Matrix)
           (diag subdiag : RealVector) (extractQ : bool)
  : outcome (Matrix * RealVector * RealVector) :=
  let hCoeffs := new_CoeffVector Size (cols mat - 1) in
  match ei_tridiagonalization_inplace mat hCoeffs with
  | AssertionFailed => AssertionFailed
  | Returned (mat, hCoeffs) =>
      let diag := diagonal_real mat in
      let subdiag := subdiagonal_real mat in
      let mat :=
        if extractQ
        then evalHouseholderSequence
               (mkHouseholderSequence mat (vconjugate hCoeffs) false
                  (rows mat - 1) 1)
        else mat in
      Returned (mat, diag, subdiag)
  end.

(** [m.setIdentity()] *)
Definition setIdentity (m : Matrix) : Matrix :=
  mkMatrix (rows m) (cols m) (fun a b => if a =? b then s1 else s0).

(** [m << e00, e01, e02, e10, ..., e22] on a 3x3 matrix. *)
Definition comma_init3 (m : Matrix)
           (e00 e01 e02 e10 e11 e12 e20 e21 e22 : Scalar) : Matrix :=
  mkMatrix (rows m) (cols m)
    (fun a b =>
       if (a =? 0) && (b =? 0) then e00 else
       if (a =? 0) && (b =? 1) then e01 else
       if (a =? 0) && (b =? 2) then e02 else
       if (a =? 1) && (b =? 0) then e10 else
       if (a =? 1) && (b =? 1) then e11 else
       if (a =? 1) && (b =? 2) then e12 else
       if (a =? 2) && (b =? 0) then e20 else
       if (a =? 2) && (b =? 1) then e21 else
       if (a =? 2) && (b =? 2) then e22 else
       coeff m a b).

(** Lines 464-503: the 3x3 selector. *)
Definition selector3_run (mat : Matrix) (diag subdiag : RealVector)
           (extractQ : bool) : Matrix * RealVector * RealVector :=
  let diag := set_rcoeff diag 0 (ei_real (coeff mat 0 0)) in
  let v1norm2 := ei_abs2 (coeff mat 2 0) in
  if ei_isMuchSmallerThan v1norm2 r1 then
    let diag := set_rcoeff diag 1 (ei_real (coeff mat 1 1)) in
    let diag := set_rcoeff diag 2 (ei_real (coeff mat 2 2)) in
    let subdiag := set_rcoeff subdiag 0 (ei_real (coeff mat 1 0)) in
    let subdiag := set_rcoeff subdiag 1 (ei_real (coeff mat 2 1)) in
    let mat := if extractQ then setIdentity mat else mat in
    (mat, diag, subdiag)
  else
    let beta := ei_sqrt (radd (ei_abs2 (coeff mat 1 0)) v1norm2) in
    let invBeta := rdiv r1 beta in
    let m01 := (ei_conj (coeff mat 1 0) * of_real invBeta)%S in
    let m02 := (ei_conj (coeff mat 2 0) * of_real invBeta)%S in
    let q := (of_real r2 * m01 * ei_conj (coeff mat 2 1)
              + m02 * (coeff mat 2 2 - coeff mat 1 1))%S in
    let diag := set_rcoeff diag 1 (ei_real (coeff mat 1 1 + m02 * q)%S) in
    let diag := set_rcoeff diag 2 (ei_real (coeff mat 2 2 - m02 * q)%S) in
    let subdiag := set_rcoeff subdiag 0 beta in
    let subdiag :=
      set_rcoeff subdiag 1 (ei_real (ei_conj (coeff mat 2 1) - m01 * q)%S) in
    let mat :=
      if extractQ
      then comma_init3 mat s1 s0 s0
                           s0 m01 m02
                           s0 m02 (- m01)%S
      else mat in
    (mat, diag, subdiag).

(** Lines 508-520: the 1x1 selector. *)
Definition selector1_run (mat : Matrix) (diag subdiag : RealVector)
           (extractQ : bool) : Matrix * RealVector * RealVector :=
  let diag := set_rcoeff diag 0 (ei_real (coeff mat 0 0)) in
  let mat := if extractQ then set_coeff mat 0 0 s1 else mat in
  (mat, diag, subdiag).

(** [ei_tridiagonalization_inplace_selector<MatrixType>::run]: the
    specialization is chosen by [Size = MatrixType::ColsAtCompileTime]. *)
Definition selector_run (Size : CompileTimeSize) (mat : Matrix)
           (diag subdiag : RealVector) (extractQ : bool)
  : outcome (Matrix * RealVector * RealVector) :=
  match Size with
  | Fixed 3 => Returned (selector3_run mat diag subdiag extractQ)
  | Fixed 1 => Returned (selector1_run mat diag subdiag extractQ)
  | _ => selector_general_run Size mat diag subdiag extractQ
  end.

(** Lines 430-437: the four-argument [ei_tridiagonalization_inplace]. *)
Definition ei_tridiagonalization_inplace4 (Size : CompileTimeSize)
           (mat : Matrix) (diag subdiag : RealVector) (extractQ : bool)
  : outcome (Matrix * RealVector * RealVector) :=
  let n := rows mat in
  if negb ((cols mat =? n) && (rsize diag =? n) && (rsize subdiag =? n - 1))
  then AssertionFailed
  else selector_run Size mat diag subdiag extractQ.

(** A matrix whose type has [Size] rows and columns at compile time. *)
Definition has_size (Size : CompileTimeSize) (m : Matrix) : Prop :=
  match Size with
  | Dynamic => True
  | Fixed s => rows m = s /\ cols m = s
  end.

(** An object the class can hand out with its flag set: built by the
    computing constructor or by [compute]. *)
Inductive Computed (Size : CompileTimeSize) : Tridiagonalization -> Prop :=
| Computed_by_constructor (matrix : Matrix) (this : Tridiagonalization) :
    Tridiagonalization_of Size matrix = Returned this -> Computed Size this
| Computed_by_compute (old : Tridiagonalization) (matrix : Matrix)
                      (this : Tridiagonalization) :
    compute Size old matrix = Returned this -> Computed Size this.

(** A scalar with no imaginary part. *)
Definition real_valued (z : Scalar) : Prop := of_real (ei_real z) = z.

(** ** The algorithm of section 4.1, in the words of the description

    These follow the description of steps 3 to 6, not the code; the
    theorems compare them with the phases above.  [r] is the remaining
    size, indices are local to the trailing block. *)

(** Step 3: the reflector vector, with its leading 1 made explicit. *)
Definition spec_v (x : Vector) (k : Z) : Scalar :=
  if k =? 0 then s1 else vcoeff x k.

(** "S is the symmetric view of the trailing (r x r) sub-block". *)
Definition spec_S (matA : Matrix) (i : Z) (a b : Z) : Scalar :=
  if b <=? a
  then coeff matA (i + 1 + a) (i + 1 + b)
  else ei_conj (coeff matA (i + 1 + b) (i + 1 + a)).

(** Step 4: "p = conj(h) (S v)". *)
Definition spec_p (r : Z) (S : Z -> Z -> Scalar) (v : Z -> Scalar) (h : Scalar)
           (a : Z) : Scalar :=
  (ei_conj h * sum_upto (Z.to_nat r) (fun b => S a b * v b))%S.

(** Step 5: "p -= conj(h) 0.5 (p^t v) v". *)
Definition spec_p_corrected (r : Z) (p v : Z -> Scalar) (h : Scalar) (a : Z)
  : Scalar :=
  (p a - ei_conj h * s_half * sum_upto (Z.to_nat r) (fun k => p k * v k) * v a)%S.

(** Step 6: "S += -1 (v p^t + p v^t)". *)
Definition spec_S_updated (S : Z -> Z -> Scalar) (v p : Z -> Scalar) (a b : Z)
  : Scalar :=
  (S a b + (- s1) * (v a * p b + p a * v b))%S.

(** Modelled from the spec: what the description asks of the reflector
    primitive, "given a vector, produce a scalar coefficient and the
    transformed leading entry such that applying I - h v v^t zeroes all
    but the first entry"; [x'] holds the tail of [v]. *)
Definition reflects (x x' : Vector) (h : Scalar) (beta : RealScalar) : Prop :=
  forall k, 0 <= k < size x ->
    (vcoeff x k
     - h * sum_upto (Z.to_nat (size x)) (fun j => spec_v x' j * vcoeff x j)
       * spec_v x' k)%S
    = if k =? 0 then of_real beta else s0.

(** Modelled from the spec: the explicit Q of a reflector sequence
    ("apply sequence of reflectors" utility) is not in this header;
    the reflectors are [H_j = I - h_j v_j v_j^t] with
    [v_j = (0, .., 0, 1, M(j+2,j), .., M(n-1,j))] and Q their product. *)
Definition reflector_entry (hs : HouseholderSequence) (j k : Z) : Scalar :=
  if k <? j + hs_shift hs then s0
  else if k =? j + hs_shift hs then s1
  else coeff (hs_vectors hs) k j.

Definition apply_reflector (hs : HouseholderSequence) (j : Z) (m : Matrix)
  : Matrix :=
  mkMatrix (rows m) (cols m)
    (fun a b =>
       (coeff m a b
        - vcoeff (hs_coeffs hs) j * reflector_entry hs j a
          * sum_upto (Z.to_nat (rows m))
              (fun k => reflector_entry hs j k * coeff m k b))%S).

Fixpoint apply_reflectors (hs : HouseholderSequence) (count : nat) (m : Matrix)
  : Matrix :=
  match count with
  | O => m
  | S count' => apply_reflectors hs count' (apply_reflector hs (Z.of_nat count') m)
  end.

Definition dense_of_sequence (hs : HouseholderSequence) : Matrix :=
  apply_reflectors hs (Z.to_nat (hs_actualVectors hs))
    (setIdentity (hs_vectors hs)).

(** A matrix given by its rows, and vectors given by their entries. *)
Definition matrix_of_rows (l : list (list Scalar)) : Matrix :=
  mkMatrix (Z.of_nat (length l)) (Z.of_nat (length (hd [] l)))
    (fun a b => nth (Z.to_nat b) (nth (Z.to_nat a) l []) s0).

Definition vector_of_list (l : list Scalar) : Vector :=
  mkVector (Z.of_nat (length l)) (fun k => nth (Z.to_nat k) l s0).

End Dense.

Arguments Matrix T : clear implicits.
Arguments Vector T : clear implicits.
Arguments RealVector T : clear implicits.
Arguments Tridiagonalization T : clear implicits.
Arguments Kernels T : clear implicits.

(** ** Two scalar types

    [double] and [std::complex<double>], with exact real arithmetic in
    place of the floating-point one. *)

(** Modelled from the spec: [ei_isMuchSmallerThan] is not in this
    header; "numerically negligible compared to 1 (below a relative
    threshold)" is [|a| <= |b| * precision]. *)
Definition dummy_precision : R := (/ 1000000000000)%R.

Definition much_smaller (a b : R) : bool :=
  if Rle_dec (Rabs a) (Rabs b * dummy_precision) then true else false.

Definition RealTraits : NumTraits := {|
  Scalar := R;
  RealScalar := R;
  s0 := 0%R;
  s1 := 1%R;
  sadd := Rplus;
  smul := Rmult;
  ssub := Rminus;
  sopp := Ropp;
  s_half := (/ 2)%R;
  s_neg_half := (- / 2)%R;
  ei_conj := fun x => x;
  ei_real := fun x => x;
  ei_abs2 := fun x => (x * x)%R;
  of_real := fun x => x;
  r1 := 1%R;
  r2 := 2%R;
  radd := Rplus;
  rdiv := Rdiv;
  ei_sqrt := sqrt;
  ei_isMuchSmallerThan := much_smaller
|}.

Definition Cadd (x y : R * R) : R * R := (fst x + fst y, snd x + snd y)%R.
Definition Cmul (x y : R * R) : R * R :=
  (fst x * fst y - snd x * snd y, fst x * snd y + snd x * fst y)%R.
Definition Csub (x y : R * R) : R * R := (fst x - fst y, snd x - snd y)%R.
Definition Copp (x : R * R) : R * R := (- fst x, - snd x)%R.
Definition Cconj (x : R * R) : R * R := (fst x, - snd x)%R.

Definition ComplexTraits : NumTraits := {|
  Scalar := (R * R)%type;
  RealScalar := R;
  s0 := (0, 0)%R;
  s1 := (1, 0)%R;
  sadd := Cadd;
  smul := Cmul;
  ssub := Csub;
  sopp := Copp;
  s_half := (/ 2, 0)%R;
  s_neg_half := (- / 2, 0)%R;
  ei_conj := Cconj;
  ei_real := fst;
  ei_abs2 := fun x => (fst x * fst x + snd x * snd x)%R;
  of_real := fun x => (x, 0%R);
  r1 := 1%R;
  r2 := 2%R;
  radd := Rplus;
  rdiv := Rdiv;
  ei_sqrt := sqrt;
  ei_isMuchSmallerThan := much_smaller
|}.

(** Sums of real scalars. *)
Definition Rsum (m : nat) (f : Z -> R) : R := sum_upto (T := RealTraits) m f.

(** The squared norm of [x] without its first entry. *)
Definition tail_squaredNorm (x : Vector RealTraits) : R :=
  Rsum (Z.to_nat (size x - 1))
    (fun k => (vcoeff x (k + 1) * vcoeff x (k + 1))%R).

(** Modelled from the spec: [makeHouseholderInPlace] is not in this
    header.  The description asks of it a unitary reflector
    [I - h v v^t] that sends [x] to [beta e1], and leaves the sign of
    [beta] open; here [beta = sign * |x|] with [sign] either [1] or
    [-1], the tail of [v] is [x_k / (x_0 - beta)] and
    [h = (beta - x_0) / beta]; a vector whose tail is zero is left alone
    ([h = 0], [beta = x_0]). *)
Definition makeHouseholder_signed (sign : R) (x : Vector RealTraits)
  : Vector RealTraits * R * R :=
  let c0 := vcoeff x 0 in
  let t := tail_squaredNorm x in
  if Req_dec_T t 0 then
    (mkVector (T := RealTraits) (size x) (fun k => if k =? 0 then c0 else 0%R),
     0%R, c0)
  else
    let beta := (sign * sqrt (c0 * c0 + t))%R in
    (mkVector (T := RealTraits) (size x)
       (fun k => if k =? 0 then c0 else (vcoeff x k / (c0 - beta))%R),
     ((beta - c0) / beta)%R, beta).

Definition RealKernels (sign : R) : Kernels RealTraits := {|
  makeHouseholderInPlace := makeHouseholder_signed sign;
  evalHouseholderSequence := dense_of_sequence (T := RealTraits)
|}.

(** A kernel for complex scalars, for inputs of order 1, on which the
    loop body never runs, and for columns of one real entry, which need
    no reflection: it leaves the vector alone ([h = 0],
    [beta = Re x_0]). *)
Definition ComplexKernels : Kernels ComplexTraits := {|
  makeHouseholderInPlace :=
    fun x => (x, (0%R, 0%R), fst (vcoeff (T := ComplexTraits) x 0));
  evalHouseholderSequence := dense_of_sequence (T := ComplexTraits)
|}.

(** Modelled from the spec: the contract of the reflector primitive on
    real scalars.  The description gives it as "produce a scalar
    coefficient and the transformed leading entry such that applying
    I - h v v^t zeroes all but the first entry", a Householder reflector
    being "a unitary transformation of the form I - h v v^t": so
    [(I - h v v^t) x = beta e1], and [h = 0] or [h (v^t v) = 2]. *)
Definition reflector_contract (K : Kernels RealTraits) : Prop :=
  forall x : Vector RealTraits, 1 <= size x ->
    let res := makeHouseholderInPlace (Kernels := K) x in
    reflects (T := RealTraits) x (fst (fst res)) (snd (fst res)) (snd res)
    /\ (snd (fst res) = 0%R
        \/ (snd (fst res)
            * Rsum (Z.to_nat (size x))
                (fun j => spec_v (T := RealTraits) (fst (fst res)) j
                          * spec_v (T := RealTraits) (fst (fst res)) j)
            = 2)%R).

(** ** Concrete inputs *)

(** The 3x3 matrix of the description's scenario. *)
Definition A3 : Matrix RealTraits :=
  matrix_of_rows (T := RealTraits)
    [[4; 1; -2]; [1; 2; 0]; [-2; 0; 3]]%R.

(** A 3x3 symmetric matrix that is already tridiagonal. *)
Definition A3_tridiagonal : Matrix RealTraits :=
  matrix_of_rows (T := RealTraits)
    [[4; 1; 0]; [1; 2; 5]; [0; 5; 3]]%R.

Definition A1_seven : Matrix RealTraits :=
  matrix_of_rows (T := RealTraits) [[7]]%R.

(** The 1x1 complex matrix whose entry is the imaginary unit. *)
Definition A1_imaginary : Matrix ComplexTraits :=
  matrix_of_rows (T := ComplexTraits) [[(0, 1)]]%R.

Definition zeros (n : Z) : RealVector RealTraits :=
  mkRealVector (T := RealTraits) n (fun _ => 0%R).

(** A 2x3 matrix, to see the assertions fail. *)
Definition A23 : Matrix RealTraits :=
  matrix_of_rows (T := RealTraits) [[1; 2; 3]; [4; 5; 6]]%R.

(** [Tridiagonalization<MatrixXcd> tri; tri.compute(A1_imaginary)]:
    the object [compute] leaves behind (no iteration runs). *)
Definition decomposition_imaginary : Tridiagonalization ComplexTraits :=
  mkTridiagonalization A1_imaginary
    (resize_CoeffVector Dynamic
       (m_hCoeffs (Tridiagonalization_sized (T := ComplexTraits) Dynamic
                     (default_size Dynamic))) 0)
    true.



(** [Tridiagonalization<MatrixXd> tri; tri.compute(A3)]: the object
    [compute] leaves behind. *)
Definition decomposition_A3 : Tridiagonalization RealTraits :=
  let res :=
    tridiag_loop (K := RealKernels (-1)) 3 2 0
      (A3, resize_CoeffVector Dynamic
             (m_hCoeffs (Tridiagonalization_sized (T := RealTraits) Dynamic
                           (default_size Dynamic))) 2) in
  mkTridiagonalization (fst res) (snd res) true.

(** ** Vocabulary of the further properties *)

Section Vocabulary.
Context {T : NumTraits} {K : Kernels T}.

(** Two objects that no accessor tells apart: the same flag, the same
    packed matrix, and the same Householder coefficients. *)
Definition same_decomposition (t1 t2 : Tridiagonalization T) : Prop :=
  m_isInitialized t1 = m_isInitialized t2
  /\ m_matrix t1 = m_matrix t2
  /\ size (m_hCoeffs t1) = size (m_hCoeffs t2)
  /\ forall k, 0 <= k < size (m_hCoeffs t1) ->
       vcoeff (m_hCoeffs t1) k = vcoeff (m_hCoeffs t2) k.

(** Two calls that both fail their assertion, or both return, with
    results related by [R]. *)
Definition same_outcome {A : Type} (R : A -> A -> Prop) (o1 o2 : outcome A)
  : Prop :=
  match o1, o2 with
  | Returned a1, Returned a2 => R a1 a2
  | AssertionFailed, AssertionFailed => True
  | _, _ => False
  end.

(** A reflector primitive that reads and writes only the entries of the
    vector it is called on. *)
Definition kernel_local : Prop :=
  forall x y : Vector T, 1 <= size x -> size x = size y ->
    (forall k, 0 <= k < size x -> vcoeff x k = vcoeff y k) ->
    snd (fst (makeHouseholderInPlace x)) = snd (fst (makeHouseholderInPlace y))
    /\ snd (makeHouseholderInPlace x) = snd (makeHouseholderInPlace y)
    /\ forall k, 0 <= k < size x ->
         vcoeff (fst (fst (makeHouseholderInPlace x))) k
         = vcoeff (fst (fst (makeHouseholderInPlace y))) k.

(** Entry [(a, b)] of the reflector [H = I - h v v^t] of the comment at
    lines 369-370. *)
Definition reflector_matrix (h : Scalar) (v : Z -> Scalar) (a b : Z) : Scalar :=
  ((if a =? b then s1 else s0) - h * v a * v b)%S.

(** Entry [(a, b)] of [H S H^t], for matrices of order [r]. *)
Definition similarity (r : Z) (H S : Z -> Z -> Scalar) (a b : Z) : Scalar :=
  sum_upto (Z.to_nat r)
    (fun j => sum_upto (Z.to_nat r) (fun k => (H a j * S j k * H b k)%S)).

(** The reflector vector [v_j] of the packed format (lines 345-347):
    zero up to row [j], 1 at row [j+1], column [j] of the buffer below. *)
Definition packed_reflector (m : Matrix T) (j k : Z) : Scalar :=
  if k <=? j then s0 else if k =? j + 1 then s1 else coeff m k j.

(** The symmetric matrix that the lower triangle of [m] stands for. *)
Definition symmetric_view (m : Matrix T) (a b : Z) : Scalar :=
  coeff m (Z.max a b) (Z.min a b).

(** The symmetric tridiagonal matrix with the diagonal and the
    sub-diagonal of [m]. *)
Definition tridiagonal_view (m : Matrix T) (a b : Z) : Scalar :=
  if Z.min a b + 1 <? Z.max a b then s0 else coeff m (Z.max a b) (Z.min a b).

(** The symmetric matrix a state of the loop stands for when its first
    [i] columns are reduced: tridiagonal in these columns (the buffer
    holds reflectors there), the lower triangle elsewhere. *)
Definition logical (i : Z) (m : Matrix T) (a b : Z) : Scalar :=
  if (Z.min a b <? i) && (Z.min a b + 1 <? Z.max a b) then s0
  else coeff m (Z.max a b) (Z.min a b).

(** [H_(c-1) (.. (H_0 A H_0^t) ..) H_(c-1)^t], the reflectors
    [H_j = I - h_j v_j v_j^t] being read from the packed result. *)
Fixpoint reflector_chain (m : Matrix T) (hc : Vector T) (n : Z) (count : nat)
         (A : Z -> Z -> Scalar) : Z -> Z -> Scalar :=
  match count with
  | O => A
  | S c =>
      similarity n
        (reflector_matrix (vcoeff hc (Z.of_nat c))
           (packed_reflector m (Z.of_nat c)))
        (reflector_chain m hc n c A)
  end.

(** A reflector primitive whose result reflects the vector it is called
    on: [(I - h v v^t) x = beta e1]. *)
Definition kernel_reflects : Prop :=
  forall x : Vector T, 1 <= size x ->
    reflects x (fst (fst (makeHouseholderInPlace x)))
      (snd (fst (makeHouseholderInPlace x))) (snd (makeHouseholderInPlace x)).

End Vocabulary.

(** The symmetric tridiagonal matrix with diagonal [d] and sub-diagonal
    [s]. *)
Definition tridiagonal_entry (d s : RealVector RealTraits) (a b : Z) : R :=
  if a =? b then rcoeff d a
  else if a =? b + 1 then rcoeff s b
  else if b =? a + 1 then rcoeff s a
  else 0%R.

(** Entry [(a, b)] of [Q T Q^t] and of [Q Q^t], for matrices of order
    [n]. *)
Definition Q_T_Qt (n : nat) (Q T : Z -> Z -> R) (a b : Z) : R :=
  Rsum n (fun j => Rsum n (fun k => Q a j * T j k * Q b k)%R).

Definition Q_Qt (n : nat) (Q : Z -> Z -> R) (a b : Z) : R :=
  Rsum n (fun j => Q a j * Q b j)%R.

(** [A3] with another strict upper triangle. *)
Definition A3_upper : Matrix RealTraits :=
  matrix_of_rows (T := RealTraits)
    [[4; 9; 8]; [1; 2; 7]; [-2; 0; 3]]%R.

(** A coefficient vector of two entries that are not zero. *)
Definition ones2 : Vector RealTraits :=
  vector_of_list (T := RealTraits) [1; 1]%R.

(** A complex Hermitian 3x3 matrix with real entries, and one whose
    entries [(1,0) = 1] and [(2,0) = i] differ in phase. *)
Definition A3_complex : Matrix ComplexTraits :=
  matrix_of_rows (T := ComplexTraits)
    [[(4, 0); (1, 0); (-2, 0)];
     [(1, 0); (2, 0); (0, 0)];
     [(-2, 0); (0, 0); (3, 0)]]%R.

Definition A3_hermitian : Matrix ComplexTraits :=
  matrix_of_rows (T := ComplexTraits)
    [[(4, 0); (1, 0); (0, -1)];
     [(1, 0); (2, 0); (0, 0)];
     [(0, 1); (0, 0); (3, 0)]]%R.

Definition czeros (n : Z) : RealVector ComplexTraits :=
  mkRealVector (T := ComplexTraits) n (fun _ => 0%R).

(** Entry [(a, b)] of [Q Q^*], for complex matrices of order [n]. *)
Definition Q_Qstar (n : nat) (Q : Z -> Z -> R * R) (a b : Z) : R * R :=
  sum_upto (T := ComplexTraits) n (fun j => Cmul (Q a j) (Cconj (Q b j))).

(** * Properties *)

(** Boolean tests on indices, as propositions. *)
Ltac index_props :=
  repeat match goal with
         | H : (_ && _)%bool = true |- _ => apply andb_true_iff in H; destruct H
         | H : (_ && _)%bool = false |- _ => apply andb_false_iff in H
         | H : negb _ = true |- _ => apply negb_true_iff in H
         | H : negb _ = false |- _ => apply negb_false_iff in H
         | H : (_ =? _) = true |- _ => apply Z.eqb_eq in H
         | H : (_ =? _) = false |- _ => apply Z.eqb_neq in H
         | H : (_ <=? _) = true |- _ => apply Z.leb_le in H
         | H : (_ <=? _) = false |- _ => apply Z.leb_gt in H
         | H : (_ <? _) = true |- _ => apply Z.ltb_lt in H
         | H : (_ <? _) = false |- _ => apply Z.ltb_ge in H
         | H : (_ >? _) = true |- _ => rewrite Z.gtb_ltb in H
         | H : (_ >? _) = false |- _ => rewrite Z.gtb_ltb in H
         end.

(** Case analysis on every index test of the goal. *)
Ltac index_cases :=
  repeat match goal with
         | |- context [if ?c then _ else _] =>
             let E := fresh "E" in destruct c eqn:E
         end;
  index_props.

Ltac index_solve := index_cases; try reflexivity; try (exfalso; intuition lia).

Section Reduction.
Context {T : NumTraits} {K : Kernels T}.

(** ** What one iteration writes *)

Lemma tridiag_step_rows n i st :
  rows (fst (tridiag_step n i st)) = rows (fst st).
Proof.
  destruct st as [matA hCoeffs]. unfold tridiag_step, phase_reflector.
  destruct (makeHouseholderInPlace _) as [[x h] beta]. reflexivity.
Qed.

Lemma tridiag_step_cols n i st :
  cols (fst (tridiag_step n i st)) = cols (fst st).
Proof.
  destruct st as [matA hCoeffs]. unfold tridiag_step, phase_reflector.
  destruct (makeHouseholderInPlace _) as [[x h] beta]. reflexivity.
Qed.

Lemma tridiag_step_size n i st :
  size (snd (tridiag_step n i st)) = size (snd st).
Proof.
  destruct st as [matA hCoeffs]. unfold tridiag_step, phase_reflector.
  destruct (makeHouseholderInPlace _) as [[x h] beta]. reflexivity.
Qed.

(** Iteration [i] writes the matrix only inside rows [i+1 ..] of the
    lower triangle of columns [i ..]. *)
Lemma tridiag_step_coeff_frame n i st a b :
  rows (fst st) = n -> cols (fst st) = n ->
  ~ (i <= b <= a /\ i + 1 <= a) ->
  coeff (fst (tridiag_step n i st)) a b = coeff (fst st) a b.
Proof.
  destruct st as [matA hCoeffs]. cbn [fst]. intros Hr Hc Hout.
  unfold tridiag_step, phase_reflector.
  destruct (makeHouseholderInPlace _) as [[x h] beta].
  unfold phase_store, phase_update, rankUpdate_lower, set_coeff, set_col_tail.
  cbn [fst rows cols coeff]. rewrite Hr, Hc.
  index_solve.
Qed.

(** Iteration [i] writes the coefficients only from index [i] on. *)
Lemma tridiag_step_vcoeff_frame n i st k :
  size (snd st) = n - 1 ->
  k < i ->
  vcoeff (snd (tridiag_step n i st)) k = vcoeff (snd st) k.
Proof.
  destruct st as [matA hCoeffs]. cbn [snd]. intros Hs Hk.
  unfold tridiag_step, phase_reflector.
  destruct (makeHouseholderInPlace _) as [[x h] beta].
  unfold phase_store, phase_correct, phase_aux, set_vcoeff, set_tail.
  cbn [snd size vcoeff]. rewrite Hs.
  index_solve.
Qed.

(** ** The loop *)

Lemma tridiag_loop_rows n count : forall i st,
  rows (fst (tridiag_loop n count i st)) = rows (fst st).
Proof.
  induction count as [|count IH]; intros i st; cbn [tridiag_loop].
  - reflexivity.
  - rewrite IH. apply tridiag_step_rows.
Qed.

Lemma tridiag_loop_cols n count : forall i st,
  cols (fst (tridiag_loop n count i st)) = cols (fst st).
Proof.
  induction count as [|count IH]; intros i st; cbn [tridiag_loop].
  - reflexivity.
  - rewrite IH. apply tridiag_step_cols.
Qed.

Lemma tridiag_loop_size n count : forall i st,
  size (snd (tridiag_loop n count i st)) = size (snd st).
Proof.
  induction count as [|count IH]; intros i st; cbn [tridiag_loop].
  - reflexivity.
  - rewrite IH. apply tridiag_step_size.
Qed.

(** Running [c1 + c2] iterations is running [c1], then [c2] more. *)
Lemma tridiag_loop_split n c1 c2 : forall i st,
  tridiag_loop n (c1 + c2) i st
  = tridiag_loop n c2 (i + Z.of_nat c1) (tridiag_loop n c1 i st).
Proof.
  induction c1 as [|c1 IH]; intros i st.
  - cbn [Nat.add tridiag_loop]. f_equal. lia.
  - cbn [Nat.add tridiag_loop]. rewrite IH. f_equal. lia.
Qed.

(** The iterations from [i] on leave alone whatever lies outside rows
    [i+1 ..] of the lower triangle of columns [i ..]. *)
Lemma tridiag_loop_coeff_frame n count : forall i st a b,
  rows (fst st) = n -> cols (fst st) = n ->
  ~ (i <= b <= a /\ i + 1 <= a) ->
  coeff (fst (tridiag_loop n count i st)) a b = coeff (fst st) a b.
Proof.
  induction count as [|count IH]; intros i st a b Hr Hc Hout;
    cbn [tridiag_loop].
  - reflexivity.
  - rewrite IH.
    + apply tridiag_step_coeff_frame; assumption.
    + rewrite tridiag_step_rows; assumption.
    + rewrite tridiag_step_cols; assumption.
    + lia.
Qed.

Lemma tridiag_loop_vcoeff_frame n count : forall i st k,
  size (snd st) = n - 1 ->
  k < i ->
  vcoeff (snd (tridiag_loop n count i st)) k = vcoeff (snd st) k.
Proof.
  induction count as [|count IH]; intros i st k Hs Hk; cbn [tridiag_loop].
  - reflexivity.
  - rewrite IH.
    + apply tridiag_step_vcoeff_frame; assumption.
    + rewrite tridiag_step_size; assumption.
    + lia.
Qed.

(** The reduction returns exactly when its two assertions hold, and then
    its result is the loop run [n - 1] times. *)
Lemma inplace_returns (matA : Matrix T) (hCoeffs : Vector T) :
  rows matA = cols matA -> rows matA = size hCoeffs + 1 ->
  ei_tridiagonalization_inplace matA hCoeffs
  = Returned (tridiag_loop (rows matA) (Z.to_nat (rows matA - 1)) 0
                (matA, hCoeffs)).
Proof.
  intros Hsq Hsz. unfold ei_tridiagonalization_inplace.
  rewrite <- Hsq, Z.eqb_refl. cbn [negb].
  rewrite <- Hsz, Z.eqb_refl. reflexivity.
Qed.

Lemma inplace_returned_inv (matA : Matrix T) (hCoeffs : Vector T) res :
  ei_tridiagonalization_inplace matA hCoeffs = Returned res ->
  rows matA = cols matA /\ rows matA = size hCoeffs + 1 /\
  res = tridiag_loop (rows matA) (Z.to_nat (rows matA - 1)) 0 (matA, hCoeffs).
Proof.
  unfold ei_tridiagonalization_inplace. intros H.
  destruct (rows matA =? cols matA) eqn:E1; cbn [negb] in H; [|discriminate].
  destruct (rows matA =? size hCoeffs + 1) eqn:E2; cbn [negb] in H;
    [|discriminate].
  index_props. inversion H. auto.
Qed.

(** C2. For every square buffer [matA] of order [n] and coefficient
    vector of [n - 1] entries, [ei_tridiagonalization_inplace] returns,
    the buffer keeps its dimensions, and every entry [(r, c)] with
    [r < c] of the result is the entry of the input. *)
Theorem inplace_strict_upper_unchanged (matA : Matrix T) (hCoeffs : Vector T) :
  rows matA = cols matA -> rows matA = size hCoeffs + 1 ->
  exists matA' hCoeffs',
    ei_tridiagonalization_inplace matA hCoeffs = Returned (matA', hCoeffs')
    /\ rows matA' = rows matA /\ cols matA' = cols matA
    /\ forall r c, r < c -> coeff matA' r c = coeff matA r c.
Proof.
  intros Hsq Hsz.
  pose (res := tridiag_loop (rows matA) (Z.to_nat (rows matA - 1)) 0
                 (matA, hCoeffs)).
  exists (fst res), (snd res). rewrite <- surjective_pairing.
  split; [apply inplace_returns; assumption|].
  subst res. rewrite tridiag_loop_rows, tridiag_loop_cols. cbn [fst].
  repeat split. intros r c Hrc.
  rewrite tridiag_loop_coeff_frame; cbn [fst]; auto. lia.
Qed.

(** C3. With [after_i] the state when iteration [i] has completed and
    [final] the packed result: every entry of [after_i] in rows [0..i]
    or columns [0..i] (so the leading block, the sub-diagonal entry and
    the reflector tail of column [i]) and every coefficient [0..i]
    is already the one of [final]; and an iteration [j > i], run on any
    state, writes none of these entries. *)
Theorem leading_block_final (matA : Matrix T) (hCoeffs : Vector T) (n i : Z) :
  rows matA = n -> cols matA = n -> size hCoeffs = n - 1 ->
  0 <= i <= n - 2 ->
  let after_i := tridiag_loop n (Z.to_nat (i + 1)) 0 (matA, hCoeffs) in
  let final := tridiag_loop n (Z.to_nat (n - 1)) 0 (matA, hCoeffs) in
  ei_tridiagonalization_inplace matA hCoeffs = Returned final
  /\ (forall r c, r <= i \/ c <= i ->
        coeff (fst after_i) r c = coeff (fst final) r c)
  /\ (forall k, k <= i -> vcoeff (snd after_i) k = vcoeff (snd final) k)
  /\ (forall j st, i < j ->
        rows (fst st) = n -> cols (fst st) = n -> size (snd st) = n - 1 ->
        (forall r c, r <= i \/ c <= i ->
           coeff (fst (tridiag_step n j st)) r c = coeff (fst st) r c)
        /\ (forall k, k <= i ->
              vcoeff (snd (tridiag_step n j st)) k = vcoeff (snd st) k)).
Proof.
  intros Hr Hc Hs Hi after_i final.
  assert (Hfinal : final
                   = tridiag_loop n (Z.to_nat (n - 2 - i)) (i + 1) after_i).
  { subst final after_i.
    replace (Z.to_nat (n - 1)) with (Z.to_nat (i + 1) + Z.to_nat (n - 2 - i))%nat
      by lia.
    rewrite tridiag_loop_split. f_equal. lia. }
  split; [|split; [|split]].
  - subst final. rewrite <- Hr. apply inplace_returns; cbn; lia.
  - intros r c Hrc. rewrite Hfinal. symmetry.
    apply tridiag_loop_coeff_frame.
    + subst after_i. rewrite tridiag_loop_rows. assumption.
    + subst after_i. rewrite tridiag_loop_cols. assumption.
    + lia.
  - intros k Hk. rewrite Hfinal. symmetry.
    apply tridiag_loop_vcoeff_frame.
    + subst after_i. rewrite tridiag_loop_size. assumption.
    + lia.
  - intros j st Hj Hr' Hc' Hs'. split.
    + intros r c Hrc. apply tridiag_step_coeff_frame; auto. lia.
    + intros k Hk. apply tridiag_step_vcoeff_frame; auto. lia.
Qed.

End Reduction.

(** ** The loop body against the description of section 4.1

    The description is algebra over the scalars, so this part assumes
    that they form a commutative ring in which [Scalar(-0.5)] is the
    opposite of [0.5]. *)

Section Algebra.
Context {T : NumTraits} {K : Kernels T}.
Hypothesis scalar_ring : ring_theory s0 s1 sadd smul ssub sopp (@eq Scalar).
Hypothesis neg_half_opp : s_neg_half = (- s_half)%S.

Add Ring scalar_ring_tac : scalar_ring.

Lemma sum_upto_ext (k : nat) (f g : Z -> Scalar) :
  (forall j, 0 <= j < Z.of_nat k -> f j = g j) ->
  sum_upto k f = sum_upto k g.
Proof.
  induction k as [|k IH]; intros Hfg; cbn [sum_upto].
  - reflexivity.
  - rewrite IH, (Hfg (Z.of_nat k)) by (try intros j Hj; try apply Hfg; lia).
    reflexivity.
Qed.

Lemma sum_upto_scale (k : nat) (c : Scalar) (f g : Z -> Scalar) :
  sum_upto k (fun j => f j * (c * g j))%S
  = (c * sum_upto k (fun j => f j * g j))%S.
Proof.
  induction k as [|k IH]; cbn [sum_upto].
  - ring.
  - rewrite IH. ring.
Qed.

(** Reading back the tail that was just assigned. *)
Lemma tail_set_tail (v x : Vector T) (r k : Z) :
  0 <= k < r ->
  vcoeff (tail (set_tail v r x) r) k = vcoeff x k.
Proof.
  intros Hk. unfold tail, set_tail. cbn [size vcoeff].
  index_solve. f_equal. lia.
Qed.

(** After the reflector phase, column [i] below the diagonal reads as
    the reflector vector with its leading 1. *)
Lemma col_tail_reflector (matA : Matrix T) (x : Vector T) (n i k : Z) :
  rows matA = n -> 0 <= k < n - i - 1 ->
  vcoeff (col_tail (with_reflector matA n i x) i (n - i - 1)) k = spec_v x k.
Proof.
  intros Hr Hk.
  unfold with_reflector, col_tail, set_coeff, set_col_tail, spec_v.
  cbn [rows cols coeff vcoeff]. rewrite Hr.
  index_solve. f_equal. lia.
Qed.

(** The reflector phase does not touch the trailing block. *)
Lemma selfadjointLower_reflector (matA : Matrix T) (x : Vector T) (n i a b : Z) :
  rows matA = n -> cols matA = n -> 0 <= a -> 0 <= b ->
  selfadjointLower (with_reflector matA n i x) (n - i - 1) a b
  = spec_S matA i a b.
Proof.
  intros Hr Hc Ha Hb.
  unfold with_reflector, selfadjointLower, bottomRight, set_coeff,
    set_col_tail, spec_S.
  cbn [rows cols coeff]. rewrite Hr, Hc.
  replace (n - (n - i - 1) + a) with (i + 1 + a) by lia.
  replace (n - (n - i - 1) + b) with (i + 1 + b) by lia.
  index_solve.
Qed.

(** Lines 373-374 leave [p = conj(h) (S v)] in the tail of [hCoeffs]. *)
Lemma phase_aux_tail (matA : Matrix T) (hCoeffs : Vector T) (n i : Z)
      (x : Vector T) (h : Scalar) (k : Z) :
  rows matA = n -> cols matA = n -> 0 <= i <= n - 2 ->
  0 <= k < n - i - 1 ->
  vcoeff (tail (phase_aux n i (with_reflector matA n i x) hCoeffs h)
            (n - i - 1)) k
  = spec_p (n - i - 1) (spec_S matA i) (spec_v x) h k.
Proof.
  intros Hr Hc Hi Hk. unfold phase_aux.
  rewrite tail_set_tail by assumption.
  unfold selfadjoint_times, vscale, spec_p. cbn [vcoeff size].
  rewrite (@sum_upto_ext _ _
             (fun b => (spec_S matA i k b * (ei_conj h * spec_v x b))%S)).
  - apply sum_upto_scale.
  - intros b Hb.
    rewrite selfadjointLower_reflector by lia.
    rewrite col_tail_reflector by lia. reflexivity.
Qed.

(** Line 376 turns it into [p - conj(h) 0.5 (p^t v) v]. *)
Lemma phase_correct_tail (matA : Matrix T) (hCoeffs : Vector T) (n i : Z)
      (x : Vector T) (h : Scalar) (k : Z) :
  rows matA = n -> cols matA = n -> 0 <= i <= n - 2 ->
  0 <= k < n - i - 1 ->
  vcoeff (tail (phase_correct n i (with_reflector matA n i x)
                  (phase_aux n i (with_reflector matA n i x) hCoeffs h) h)
            (n - i - 1)) k
  = spec_p_corrected (n - i - 1)
      (spec_p (n - i - 1) (spec_S matA i) (spec_v x) h) (spec_v x) h k.
Proof.
  intros Hr Hc Hi Hk. unfold phase_correct.
  rewrite tail_set_tail by assumption.
  unfold vadd, vscale. cbn [vcoeff].
  rewrite phase_aux_tail by assumption.
  rewrite col_tail_reflector by lia.
  unfold dot. cbn [size tail].
  rewrite (@sum_upto_ext _ _
             (fun j => (spec_p (n - i - 1) (spec_S matA i) (spec_v x) h j
                        * spec_v x j)%S)).
  - unfold spec_p_corrected. rewrite neg_half_opp. ring.
  - intros j Hj.
    change (vcoeff (phase_aux n i (with_reflector matA n i x) hCoeffs h)
              (size (phase_aux n i (with_reflector matA n i x) hCoeffs h)
               - (n - i - 1) + j))
      with (vcoeff (tail (phase_aux n i (with_reflector matA n i x) hCoeffs h)
                      (n - i - 1)) j).
    rewrite phase_aux_tail by (assumption || lia).
    rewrite col_tail_reflector by lia. reflexivity.
Qed.

(** Lines 378-379 put [S + -1 (v p^t + p v^t)] in the lower triangle of
    the trailing block. *)
Lemma phase_update_block (matA : Matrix T) (hCoeffs : Vector T) (n i : Z)
      (x : Vector T) (h : Scalar) (a b : Z) :
  rows matA = n -> cols matA = n -> 0 <= i <= n - 2 ->
  0 <= b <= a -> a < n - i - 1 ->
  coeff (phase_update n i (with_reflector matA n i x)
           (phase_correct n i (with_reflector matA n i x)
              (phase_aux n i (with_reflector matA n i x) hCoeffs h) h))
    (i + 1 + a) (i + 1 + b)
  = spec_S_updated (spec_S matA i) (spec_v x)
      (spec_p_corrected (n - i - 1)
         (spec_p (n - i - 1) (spec_S matA i) (spec_v x) h) (spec_v x) h)
      a b.
Proof.
  intros Hr Hc Hi Hab Ha. unfold phase_update, rankUpdate_lower.
  cbn [coeff].
  replace (rows (with_reflector matA n i x)) with n by (cbn; lia).
  replace (cols (with_reflector matA n i x)) with n by (cbn; lia).
  replace (i + 1 + a - (n - (n - i - 1))) with a by lia.
  replace (i + 1 + b - (n - (n - i - 1))) with b by lia.
  destruct ((0 <=? b) && (b <=? a) && (a <? n - i - 1))%bool eqn:E;
    [|index_props; exfalso; intuition lia].
  rewrite !phase_correct_tail by (assumption || lia).
  rewrite !col_tail_reflector by lia.
  unfold spec_S_updated. f_equal.
  unfold with_reflector, spec_S, set_coeff, set_col_tail.
  cbn [coeff rows cols].
  index_solve.
Qed.

(** One iteration, entry by entry of the trailing block. *)
Lemma tridiag_step_block (matA : Matrix T) (hCoeffs : Vector T) (n i : Z)
      (x : Vector T) (h : Scalar) (beta : RealScalar) (a b : Z) :
  rows matA = n -> cols matA = n -> size hCoeffs = n - 1 ->
  0 <= i <= n - 2 ->
  makeHouseholderInPlace (col_tail matA i (n - i - 1)) = (x, h, beta) ->
  0 <= b <= a -> a < n - i - 1 ->
  coeff (fst (tridiag_step n i (matA, hCoeffs))) (i + 1 + a) (i + 1 + b)
  = spec_S_updated (spec_S matA i) (spec_v x)
      (spec_p_corrected (n - i - 1)
         (spec_p (n - i - 1) (spec_S matA i) (spec_v x) h) (spec_v x) h)
      a b.
Proof.
  intros Hr Hc Hs Hi Hx Hab Ha.
  unfold tridiag_step, phase_reflector. rewrite Hx.
  unfold phase_store. cbn [fst]. unfold set_coeff at 1. cbn [coeff].
  destruct ((i + 1 + a =? i + 1) && (i + 1 + b =? i))%bool eqn:E;
    [index_props; lia|].
  apply phase_update_block; assumption.
Qed.

(** One iteration: the entry below the diagonal and the coefficient. *)
Lemma tridiag_step_stores (matA : Matrix T) (hCoeffs : Vector T) (n i : Z)
      (x : Vector T) (h : Scalar) (beta : RealScalar) :
  makeHouseholderInPlace (col_tail matA i (n - i - 1)) = (x, h, beta) ->
  coeff (fst (tridiag_step n i (matA, hCoeffs))) (i + 1) i = of_real beta
  /\ vcoeff (snd (tridiag_step n i (matA, hCoeffs))) i = h.
Proof.
  intros Hx. unfold tridiag_step, phase_reflector. rewrite Hx.
  unfold phase_store, set_coeff, set_vcoeff. cbn [fst snd coeff vcoeff].
  rewrite !Z.eqb_refl. split; reflexivity.
Qed.

(** C1. In iteration [i] of the reduction of a square buffer of order
    [n >= 2], with [(x, h, beta)] the reflector of the sub-column, [v]
    the reflector vector with its leading 1 and [S] the symmetric view
    of the trailing block: the auxiliary vector the body computes is
    [p = conj(h) (S v)]; it is then corrected to
    [p - conj(h) 0.5 (p^t v) v]; the trailing block then receives the
    rank-2 update [S + -1 (v p^t + p v^t)] on its lower triangle; and
    the body ends with [beta] at [(i+1, i)] and [h] at coefficient [i]. *)
Theorem loop_body_follows_description
        (matA : Matrix T) (hCoeffs : Vector T) (n i : Z)
        (x : Vector T) (h : Scalar) (beta : RealScalar) :
  rows matA = n -> cols matA = n -> size hCoeffs = n - 1 ->
  2 <= n -> 0 <= i <= n - 2 ->
  makeHouseholderInPlace (col_tail matA i (n - i - 1)) = (x, h, beta) ->
  let r := n - i - 1 in
  let v := spec_v x in
  let S := spec_S matA i in
  let p := spec_p r S v h in
  let p' := spec_p_corrected r p v h in
  exists matA1 hCoeffs1 hCoeffs2 matA2 matA3 hCoeffs3,
    phase_reflector n i matA = (matA1, h, beta)
    /\ hCoeffs1 = phase_aux n i matA1 hCoeffs h
    /\ hCoeffs2 = phase_correct n i matA1 hCoeffs1 h
    /\ matA2 = phase_update n i matA1 hCoeffs2
    /\ (matA3, hCoeffs3) = phase_store i matA2 hCoeffs2 h beta
    /\ tridiag_step n i (matA, hCoeffs) = (matA3, hCoeffs3)
    /\ (forall k, 0 <= k < r -> vcoeff (tail hCoeffs1 r) k = p k)
    /\ (forall k, 0 <= k < r -> vcoeff (tail hCoeffs2 r) k = p' k)
    /\ (forall a b, 0 <= b <= a -> a < r ->
          coeff matA2 (i + 1 + a) (i + 1 + b) = spec_S_updated S v p' a b)
    /\ (forall a b, 0 <= b <= a -> a < r ->
          coeff matA3 (i + 1 + a) (i + 1 + b) = spec_S_updated S v p' a b)
    /\ coeff matA3 (i + 1) i = of_real beta
    /\ vcoeff hCoeffs3 i = h.
Proof.
  intros Hr Hc Hs Hn Hi Hx r v S p p'.
  assert (Hphase : phase_reflector n i matA
                   = (with_reflector matA n i x, h, beta)).
  { unfold phase_reflector. rewrite Hx. reflexivity. }
  assert (Hstep : tridiag_step n i (matA, hCoeffs)
                  = phase_store i
                      (phase_update n i (with_reflector matA n i x)
                         (phase_correct n i (with_reflector matA n i x)
                            (phase_aux n i (with_reflector matA n i x) hCoeffs h)
                            h))
                      (phase_correct n i (with_reflector matA n i x)
                         (phase_aux n i (with_reflector matA n i x) hCoeffs h) h)
                      h beta).
  { unfold tridiag_step. rewrite Hphase. reflexivity. }
  do 6 eexists.
  split; [exact Hphase|]. do 3 (split; [reflexivity|]).
  split; [reflexivity|]. split; [exact Hstep|].
  split; [intros k Hk; apply phase_aux_tail; assumption|].
  split; [intros k Hk; apply phase_correct_tail; assumption|].
  split; [intros a b Hab Ha; apply phase_update_block; assumption|].
  split; [|split].
  - intros a b Hab Ha.
    pose proof (@tridiag_step_block matA hCoeffs n i x h beta a b
                  Hr Hc Hs Hi Hx Hab Ha) as Hblock.
    rewrite Hstep in Hblock. exact Hblock.
  - pose proof (proj1 (@tridiag_step_stores matA hCoeffs n i x h beta Hx)) as Hb.
    rewrite Hstep in Hb. exact Hb.
  - pose proof (proj2 (@tridiag_step_stores matA hCoeffs n i x h beta Hx)) as Hh.
    rewrite Hstep in Hh. exact Hh.
Qed.

End Algebra.

(** ** The class and its accessors *)

Section Facade.
Context {T : NumTraits} {K : Kernels T}.

(** Each iteration ends by storing a real [beta] below the diagonal. *)
Lemma tridiag_step_subdiagonal n i st :
  exists beta : RealScalar,
    coeff (fst (tridiag_step n i st)) (i + 1) i = of_real beta.
Proof.
  destruct st as [matA hCoeffs]. unfold tridiag_step, phase_reflector.
  destruct (makeHouseholderInPlace _) as [[x h] beta]. exists beta.
  unfold phase_store, set_coeff. cbn [fst coeff].
  rewrite !Z.eqb_refl. reflexivity.
Qed.

(** In the packed result every sub-diagonal entry is such a [beta]. *)
Lemma tridiag_loop_subdiagonal (matA : Matrix T) (hCoeffs : Vector T) n i :
  rows matA = n -> cols matA = n -> 0 <= i <= n - 2 ->
  exists beta : RealScalar,
    coeff (fst (tridiag_loop n (Z.to_nat (n - 1)) 0 (matA, hCoeffs))) (i + 1) i
    = of_real beta.
Proof.
  intros Hr Hc Hi.
  replace (Z.to_nat (n - 1))
    with (Z.to_nat i + (1 + Z.to_nat (n - 2 - i)))%nat by lia.
  rewrite tridiag_loop_split, tridiag_loop_split.
  cbn [tridiag_loop].
  replace (0 + Z.of_nat (Z.to_nat i)) with i by lia.
  set (st := tridiag_loop n (Z.to_nat i) 0 (matA, hCoeffs)).
  destruct (tridiag_step_subdiagonal n i st) as [beta Hbeta].
  exists beta. rewrite <- Hbeta.
  apply tridiag_loop_coeff_frame.
  - rewrite tridiag_step_rows. subst st. rewrite tridiag_loop_rows. assumption.
  - rewrite tridiag_step_cols. subst st. rewrite tridiag_loop_cols. assumption.
  - lia.
Qed.

(** What is known of an object whose flag was set right after the
    reduction returned. *)
Lemma set_up_inv (matA : Matrix T) (hCoeffs : Vector T)
      (this : Tridiagonalization T) :
  match ei_tridiagonalization_inplace matA hCoeffs with
  | AssertionFailed => AssertionFailed
  | Returned (m, h) => Returned (mkTridiagonalization m h true)
  end = Returned this ->
  m_isInitialized this = true
  /\ rows (m_matrix this) = cols (m_matrix this)
  /\ size (m_hCoeffs this) = rows (m_matrix this) - 1
  /\ rows matA = rows (m_matrix this)
  /\ cols matA = rows (m_matrix this)
  /\ (m_matrix this, m_hCoeffs this)
     = tridiag_loop (rows matA) (Z.to_nat (rows matA - 1)) 0 (matA, hCoeffs).
Proof.
  intros H.
  destruct (ei_tridiagonalization_inplace matA hCoeffs) as [[m h]|] eqn:E;
    [|discriminate].
  apply inplace_returned_inv in E. destruct E as (Hsq & Hsz & Hres).
  inversion H; subst this; clear H. cbn [m_matrix m_hCoeffs m_isInitialized].
  assert (Hm : m = fst (tridiag_loop (rows matA) (Z.to_nat (rows matA - 1)) 0
                          (matA, hCoeffs))) by (rewrite <- Hres; reflexivity).
  assert (Hh : h = snd (tridiag_loop (rows matA) (Z.to_nat (rows matA - 1)) 0
                          (matA, hCoeffs))) by (rewrite <- Hres; reflexivity).
  assert (Hrows : rows m = rows matA)
    by (rewrite Hm, tridiag_loop_rows; reflexivity).
  assert (Hcols : cols m = cols matA)
    by (rewrite Hm, tridiag_loop_cols; reflexivity).
  assert (Hsize : size h = size hCoeffs)
    by (rewrite Hh, tridiag_loop_size; reflexivity).
  repeat split; try lia. assumption.
Qed.

Lemma Computed_inv Size (this : Tridiagonalization T) :
  Computed Size this ->
  m_isInitialized this = true
  /\ rows (m_matrix this) = cols (m_matrix this)
  /\ size (m_hCoeffs this) = rows (m_matrix this) - 1
  /\ exists matA hCoeffs,
      rows matA = rows (m_matrix this)
      /\ cols matA = rows (m_matrix this)
      /\ (m_matrix this, m_hCoeffs this)
         = tridiag_loop (rows matA) (Z.to_nat (rows matA - 1)) 0 (matA, hCoeffs).
Proof.
  intros Hc.
  destruct Hc as [matrix this H | old matrix this H];
    apply set_up_inv in H;
    destruct H as (H1 & H2 & H3 & H4 & H5 & H6);
    (split; [|split; [|split]]); try assumption;
    exists matrix; eexists; (split; [|split]); eassumption.
Qed.

(** C5. On an object whose flag is false (as the sizing constructor
    leaves it) each of the six accessors fails its assertion; on an
    object set up by the computing constructor or by [compute] each of
    them returns. *)
Theorem accessors_gated Size (this : Tridiagonalization T) :
  (m_isInitialized this = false ->
     householderCoefficients this = AssertionFailed
     /\ packedMatrix this = AssertionFailed
     /\ matrixQ this = AssertionFailed
     /\ matrixT this = AssertionFailed
     /\ diagonal this = AssertionFailed
     /\ subDiagonal this = AssertionFailed)
  /\ (Computed Size this ->
        returns (householderCoefficients this) = true
        /\ returns (packedMatrix this) = true
        /\ returns (matrixQ this) = true
        /\ returns (matrixT this) = true
        /\ returns (diagonal this) = true
        /\ returns (subDiagonal this) = true)
  /\ (forall size, m_isInitialized (Tridiagonalization_sized Size size) = false).
Proof.
  split; [|split].
  - intros Hinit.
    unfold householderCoefficients, packedMatrix, matrixQ, matrixT, diagonal,
      subDiagonal.
    rewrite Hinit. repeat split.
  - intros Hc. apply Computed_inv in Hc. destruct Hc as (Hinit & _).
    unfold householderCoefficients, packedMatrix, matrixQ, matrixT, diagonal,
      subDiagonal.
    rewrite Hinit. repeat split.
  - reflexivity.
Qed.

(** [matrixT] on an object whose flag is set. *)
Lemma matrixT_initialized (this : Tridiagonalization T) :
  m_isInitialized this = true ->
  matrixT this = Returned (tridiagonal_of (m_matrix this)).
Proof.
  intros Hinit. unfold matrixT, subDiagonal, tridiagonal_of.
  rewrite Hinit. reflexivity.
Qed.

Lemma tridiagonal_of_rows (m : Matrix T) : rows (tridiagonal_of m) = rows m.
Proof. unfold tridiagonal_of. case (rows m >? 2); reflexivity. Qed.

Lemma tridiagonal_of_cols (m : Matrix T) : cols (tridiagonal_of m) = cols m.
Proof. unfold tridiagonal_of. case (rows m >? 2); reflexivity. Qed.

(** Entry by entry: zero off the three bands, the mirrored real part
    above the diagonal, the buffer itself on and below it. *)
Lemma tridiagonal_of_coeff (m : Matrix T) (a b : Z) :
  rows m = cols m -> 0 <= a < rows m -> 0 <= b < rows m ->
  coeff (tridiagonal_of m) a b
  = if (a + 1 <? b) || (b + 1 <? a) then s0
    else if b =? a + 1
         then ei_conj (of_real (ei_real (coeff m (a + 1) a)))
         else coeff m a b.
Proof.
  intros Hsq Ha Hb. unfold tridiagonal_of.
  destruct (rows m >? 2) eqn:En;
    unfold bottomLeft_lower_setZero, topRight_upper_setZero,
      set_topRight_diagonal, cast_conjugate, block10_diagonal_real;
    cbn [rows cols coeff vcoeff rsize rcoeff size]; rewrite <- Hsq;
    repeat match goal with
           | |- context [(?x || ?y)%bool] =>
               let E := fresh "E" in destruct x eqn:E; cbn [orb]
           end;
    index_solve;
    try (replace (1 + a) with (a + 1) by lia;
         replace (0 + a) with a by lia; subst b; reflexivity).
Qed.


(** No iteration writes the first diagonal entry: the packed buffer has
    the input's there.  For an input of order 1 the packed diagonal is
    the input's diagonal, real-valued for a selfadjoint input. *)
Lemma packed_first_diagonal_entry Size (old : Tridiagonalization T)
      (matrix : Matrix T) (this : Tridiagonalization T) :
  Tridiagonalization_of Size matrix = Returned this
  \/ compute Size old matrix = Returned this ->
  coeff (m_matrix this) 0 0 = coeff matrix 0 0.
Proof.
  intros [H|H]; apply set_up_inv in H;
    destruct H as (_ & _ & _ & Hr & Hc & Hloop);
    replace (m_matrix this) with (fst (m_matrix this, m_hCoeffs this))
      by reflexivity;
    rewrite Hloop;
    (rewrite tridiag_loop_coeff_frame;
     [reflexivity|cbn [fst]; reflexivity|cbn [fst]; congruence|lia]).
Qed.

End Facade.

(** ** The dispatcher and the selectors *)

Section Dispatch.
Context {T : NumTraits} {K : Kernels T}.

Lemma selector3_run_sizes (mat : Matrix T) (diag subdiag : RealVector T) extractQ :
  rsize (snd (fst (selector3_run mat diag subdiag extractQ))) = rsize diag
  /\ rsize (snd (selector3_run mat diag subdiag extractQ)) = rsize subdiag.
Proof.
  unfold selector3_run.
  destruct (ei_isMuchSmallerThan (ei_abs2 (coeff mat 2 0)) r1); split; reflexivity.
Qed.

Lemma selector_general_run_sizes Size (mat : Matrix T) (diag subdiag : RealVector T)
      extractQ mat' diag' subdiag' :
  selector_general_run Size mat diag subdiag extractQ
  = Returned (mat', diag', subdiag') ->
  rsize diag' = Z.min (rows mat) (cols mat)
  /\ rsize subdiag' = Z.min (cols mat) (rows mat - 1).
Proof.
  unfold selector_general_run. intros H.
  destruct (ei_tridiagonalization_inplace mat _) as [[m h]|] eqn:E;
    [|discriminate].
  apply inplace_returned_inv in E. destruct E as (_ & _ & Hres).
  assert (Hm : m = fst (tridiag_loop (rows mat) (Z.to_nat (rows mat - 1)) 0
                          (mat, new_CoeffVector Size (cols mat - 1))))
    by (rewrite <- Hres; reflexivity).
  inversion H; subst diag' subdiag'. cbn [rsize diagonal_real subdiagonal_real].
  rewrite Hm, tridiag_loop_rows, tridiag_loop_cols. cbn [fst]. split; reflexivity.
Qed.

(** C6. The two-argument reduction fails its assertion unless [matA]
    is square and [hCoeffs] has [matA.rows() - 1] entries, and when it
    returns the buffer and the coefficient vector have the sizes they
    came with.  The four-argument dispatcher fails its assertion unless
    [mat] is square of order [n], [diag] has [n] entries and [subdiag]
    has [n - 1]; when it returns, [diag] and [subdiag] have the sizes
    they came with. *)
Theorem inplace_assertions Size (matA : Matrix T) (hCoeffs : Vector T)
        (mat : Matrix T) (diag subdiag : RealVector T) (extractQ : bool) :
  (~ (rows matA = cols matA /\ size hCoeffs = rows matA - 1) ->
     ei_tridiagonalization_inplace matA hCoeffs = AssertionFailed)
  /\ (forall matA' hCoeffs',
        ei_tridiagonalization_inplace matA hCoeffs = Returned (matA', hCoeffs') ->
        rows matA' = rows matA /\ cols matA' = cols matA
        /\ size hCoeffs' = size hCoeffs)
  /\ (~ (cols mat = rows mat /\ rsize diag = rows mat
         /\ rsize subdiag = rows mat - 1) ->
        ei_tridiagonalization_inplace4 Size mat diag subdiag extractQ
        = AssertionFailed)
  /\ (forall mat' diag' subdiag',
        ei_tridiagonalization_inplace4 Size mat diag subdiag extractQ
        = Returned (mat', diag', subdiag') ->
        rsize diag' = rsize diag /\ rsize subdiag' = rsize subdiag).
Proof.
  split; [|split; [|split]].
  - intros Hnot. unfold ei_tridiagonalization_inplace.
    destruct (rows matA =? cols matA) eqn:E1; cbn [negb]; [|reflexivity].
    destruct (rows matA =? size hCoeffs + 1) eqn:E2; cbn [negb]; [|reflexivity].
    index_props. exfalso. apply Hnot. lia.
  - intros matA' hCoeffs' H. apply inplace_returned_inv in H.
    destruct H as (_ & _ & Hres).
    assert (HA : matA' = fst (matA', hCoeffs'))
      by reflexivity.
    rewrite Hres in HA.
    assert (Hh : hCoeffs' = snd (matA', hCoeffs')) by reflexivity.
    rewrite Hres in Hh.
    rewrite HA, Hh, tridiag_loop_rows, tridiag_loop_cols, tridiag_loop_size.
    repeat split.
  - intros Hnot. unfold ei_tridiagonalization_inplace4.
    destruct ((cols mat =? rows mat) && (rsize diag =? rows mat)
              && (rsize subdiag =? rows mat - 1))%bool eqn:E; cbn [negb];
      [|reflexivity].
    index_props. exfalso. apply Hnot. lia.
  - intros mat' diag' subdiag' H. unfold ei_tridiagonalization_inplace4 in H.
    destruct ((cols mat =? rows mat) && (rsize diag =? rows mat)
              && (rsize subdiag =? rows mat - 1))%bool eqn:E; cbn [negb] in H;
      [|discriminate].
    index_props.
    assert (Hgen : selector_general_run Size mat diag subdiag extractQ
                   = Returned (mat', diag', subdiag') ->
                   rsize diag' = rsize diag /\ rsize subdiag' = rsize subdiag).
    { intros Hg. apply selector_general_run_sizes in Hg. lia. }
    assert (Hsel3 : Returned (selector3_run mat diag subdiag extractQ)
                    = Returned (mat', diag', subdiag') ->
                    rsize diag' = rsize diag /\ rsize subdiag' = rsize subdiag).
    { intros Hrun. inversion Hrun as [Hrun'].
      pose proof (selector3_run_sizes mat diag subdiag extractQ) as Hs.
      rewrite Hrun' in Hs. exact Hs. }
    assert (Hsel1 : Returned (selector1_run mat diag subdiag extractQ)
                    = Returned (mat', diag', subdiag') ->
                    rsize diag' = rsize diag /\ rsize subdiag' = rsize subdiag).
    { intros Hrun. inversion Hrun. split; reflexivity. }
    unfold selector_run in H.
    destruct Size as [|s]; [exact (Hgen H)|].
    destruct s as [|[q|q|]|q]; try exact (Hgen H); try exact (Hsel1 H);
      destruct q as [q|q|]; try exact (Hgen H); try exact (Hsel3 H).
Qed.

(** C8. For a 3x3 input with [A(2,0) = 0], the squared norm [|0|^2]
    being negligible against 1: the 3x3 path returns, taking the
    already-tridiagonal branch; [diag] holds the real parts of
    [A(0,0)], [A(1,1)], [A(2,2)], [subdiag] those of [A(1,0)], [A(2,1)],
    and the buffer is the identity when Q is asked for (and is left as
    it was otherwise). *)
Theorem selector3_already_tridiagonal
        (mat : Matrix T) (diag subdiag : RealVector T) (extractQ : bool) :
  rows mat = 3 -> cols mat = 3 -> rsize diag = 3 -> rsize subdiag = 2 ->
  coeff mat 2 0 = s0 ->
  ei_isMuchSmallerThan (ei_abs2 s0) r1 = true ->
  exists mat' diag' subdiag',
    ei_tridiagonalization_inplace4 (Fixed 3) mat diag subdiag extractQ
    = Returned (mat', diag', subdiag')
    /\ selector3_run mat diag subdiag extractQ = (mat', diag', subdiag')
    /\ rsize diag' = 3 /\ rsize subdiag' = 2
    /\ rcoeff diag' 0 = ei_real (coeff mat 0 0)
    /\ rcoeff diag' 1 = ei_real (coeff mat 1 1)
    /\ rcoeff diag' 2 = ei_real (coeff mat 2 2)
    /\ rcoeff subdiag' 0 = ei_real (coeff mat 1 0)
    /\ rcoeff subdiag' 1 = ei_real (coeff mat 2 1)
    /\ (if extractQ
        then rows mat' = 3 /\ cols mat' = 3
             /\ forall a b, coeff mat' a b = if a =? b then s1 else s0
        else mat' = mat).
Proof.
  intros Hr Hc Hd Hs H20 Hsmall.
  unfold ei_tridiagonalization_inplace4, selector_run, selector3_run.
  rewrite Hr, Hc, Hd, Hs, H20, Hsmall. cbn [Z.eqb Pos.eqb andb negb Z.sub].
  do 3 eexists. split; [reflexivity|]. split; [reflexivity|].
  cbn [rsize rcoeff set_rcoeff Z.eqb Pos.eqb].
  repeat (split; [solve [reflexivity | assumption]|]).
  destruct extractQ; [|reflexivity].
  cbn [setIdentity rows cols coeff]. repeat split; assumption.
Qed.

(** Order 1 through the class, for a matrix type with compile-time size
    [Size]: the computing constructor gives the coefficient vector one
    entry and the reduction's assertion fails; [compute], when the type
    is dynamic, resizes the vector to no entry, returns and leaves the
    matrix as the packed buffer; when the type is the fixed 1x1 one, the
    vector has the one entry of its type and the assertion of the
    reduction, [1 == 1 + 1], cannot hold. *)
Theorem order1_constructor_and_compute
        (Size : CompileTimeSize) (matrix : Matrix T)
        (this : Tridiagonalization T) :
  rows matrix = 1 -> cols matrix = 1 -> has_size Size matrix ->
  size (new_CoeffVector (T := T) Size
          (if cols matrix >? 1 then cols matrix - 1 else 1)) = 1
  /\ Tridiagonalization_of Size matrix = AssertionFailed
  /\ match Size with
     | Dynamic =>
         size (resize_CoeffVector Size (m_hCoeffs this) (rows matrix - 1)) = 0
         /\ compute Size this matrix
            = Returned (mkTridiagonalization matrix
                          (resize_CoeffVector Size (m_hCoeffs this) 0) true)
     | Fixed _ =>
         size (resize_CoeffVector Size (m_hCoeffs this) (rows matrix - 1)) = 1
         /\ compute Size this matrix = AssertionFailed
     end.
Proof.
  intros Hr Hc Hty.
  unfold Tridiagonalization_of, compute, ei_tridiagonalization_inplace.
  rewrite Hr, Hc. cbn [Z.gtb Z.compare Pos.compare Pos.compare_cont].
  destruct Size as [|s].
  - cbn [new_CoeffVector resize_CoeffVector SizeMinusOne actual_size size
         Z.eqb Pos.eqb Z.add Z.sub Pos.add negb Z.to_nat tridiag_loop
         Z.pos_sub Z.opp].
    repeat split.
  - cbn [has_size] in Hty. destruct Hty as [Hs _]. rewrite Hr in Hs. subst s.
    cbn. repeat split.
Qed.

End Dispatch.

(** C9. For every scalar type and every input, the order-1 path sets
    [diag(0)] to the real part of [A(0,0)], leaves the sizes alone and,
    when Q is asked for, sets the entry [(0,0)] of the buffer to 1 (the
    buffer is left as it was otherwise); on the real matrix [[7]] it
    gives [diag = [7]] and the 1x1 matrix [[1]], also when reached
    through the dispatcher. *)
Theorem selector1_trivial :
  (forall (T : NumTraits) (mat : Matrix T) (diag subdiag : RealVector T)
          (extractQ : bool),
      let '(mat', diag', subdiag') := selector1_run mat diag subdiag extractQ in
      rcoeff diag' 0 = ei_real (coeff mat 0 0)
      /\ rsize diag' = rsize diag /\ subdiag' = subdiag
      /\ rows mat' = rows mat /\ cols mat' = cols mat
      /\ (if extractQ then coeff mat' 0 0 = s1 else mat' = mat))
  /\ (let '(mat', diag', subdiag') :=
          selector1_run (T := RealTraits) A1_seven (zeros 1) (zeros 0) true in
      ei_tridiagonalization_inplace4 (K := RealKernels (-1)) (Fixed 1)
        A1_seven (zeros 1) (zeros 0) true
      = Returned (mat', diag', subdiag')
      /\ rsize diag' = 1 /\ rcoeff diag' 0 = 7%R
      /\ rows mat' = 1 /\ cols mat' = 1 /\ coeff mat' 0 0 = 1%R).
Proof.
  split.
  - intros T mat diag subdiag extractQ. unfold selector1_run.
    cbn [rcoeff rsize set_rcoeff Z.eqb].
    destruct extractQ; cbn [rows cols coeff set_coeff Z.eqb andb];
      repeat split.
  - unfold selector1_run. cbn [rcoeff rsize set_rcoeff Z.eqb].
    repeat split.
Qed.

(** * The two scalar types, and runs on concrete inputs *)

Lemma triple_eta (A B C : Type) (t : A * B * C) :
  t = (fst (fst t), snd (fst t), snd t).
Proof. destruct t as [[a b] c]. reflexivity. Qed.

(** Zero is negligible against one. *)
Lemma much_smaller_zero : much_smaller (0 * 0) 1 = true.
Proof.
  unfold much_smaller.
  destruct (Rle_dec (Rabs (0 * 0)) (Rabs 1 * dummy_precision)) as [_|Hn];
    [reflexivity|].
  exfalso. apply Hn. rewrite Rmult_0_l, Rabs_R0, Rabs_R1.
  unfold dummy_precision. lra.
Qed.

(** Four is not. *)
Lemma much_smaller_four : much_smaller (-2 * -2) 1 = false.
Proof.
  unfold much_smaller.
  destruct (Rle_dec (Rabs (-2 * -2)) (Rabs 1 * dummy_precision)) as [Hle|_];
    [|reflexivity].
  exfalso. rewrite Rabs_R1 in Hle.
  replace (-2 * -2)%R with 4%R in Hle by lra.
  rewrite Rabs_pos_eq in Hle by lra.
  unfold dummy_precision in Hle. lra.
Qed.




Lemma compute_A3 :
  compute (K := RealKernels (-1)) Dynamic
    (Tridiagonalization_sized Dynamic (default_size Dynamic)) A3
  = Returned decomposition_A3.
Proof.
  unfold compute. rewrite inplace_returns by reflexivity.
  unfold decomposition_A3. cbv zeta.
  change (rows A3) with 3. change (Z.to_nat (3 - 1)) with 2%nat.
  change (3 - 1) with 2.
  destruct (tridiag_loop _ _ _ _). reflexivity.
Qed.

Lemma decomposition_A3_rows : rows (m_matrix decomposition_A3) = 3.
Proof.
  unfold decomposition_A3. cbv zeta. cbn [m_matrix].
  rewrite tridiag_loop_rows. reflexivity.
Qed.

Lemma loop_body_follows_description_witness :
  exists matA3 hCoeffs3,
    tridiag_step (K := RealKernels (-1)) 3 0
      (A3, vector_of_list (T := RealTraits) [0; 0]%R)
    = (matA3, hCoeffs3)
    /\ coeff matA3 1 0
       = snd (makeHouseholder_signed (-1) (col_tail A3 0 2))
    /\ vcoeff hCoeffs3 0
       = snd (fst (makeHouseholder_signed (-1) (col_tail A3 0 2))).
Proof.
  destruct (@loop_body_follows_description RealTraits (RealKernels (-1))
              RTheory eq_refl A3 (vector_of_list (T := RealTraits) [0; 0]%R)
              3 0 _ _ _ eq_refl eq_refl eq_refl
              ltac:(lia) ltac:(lia)
              (triple_eta (makeHouseholder_signed (-1) (col_tail A3 0 2))))
    as (matA1 & hCoeffs1 & hCoeffs2 & matA2 & matA3 & hCoeffs3
        & _ & _ & _ & _ & _ & Hstep & _ & _ & _ & _ & Hbeta & Hh).
  exists matA3, hCoeffs3. split; [exact Hstep|]. split; [exact Hbeta|exact Hh].
Defined.

Lemma inplace_strict_upper_unchanged_witness :
  exists matA' hCoeffs',
    ei_tridiagonalization_inplace (K := RealKernels (-1)) A3
      (vector_of_list (T := RealTraits) [0; 0]%R)
    = Returned (matA', hCoeffs')
    /\ coeff matA' 0 1 = 1%R /\ coeff matA' 0 2 = (-2)%R
    /\ coeff matA' 1 2 = 0%R.
Proof.
  destruct (@inplace_strict_upper_unchanged RealTraits (RealKernels (-1)) A3
              (vector_of_list (T := RealTraits) [0; 0]%R) eq_refl eq_refl)
    as (matA' & hCoeffs' & Hrun & _ & _ & Hupper).
  exists matA', hCoeffs'. split; [exact Hrun|].
  rewrite !Hupper by lia. repeat split.
Defined.

Lemma leading_block_final_witness :
  let after_0 :=
    tridiag_loop (K := RealKernels (-1)) 3 1 0
      (A3, vector_of_list (T := RealTraits) [0; 0]%R) in
  let final :=
    tridiag_loop (K := RealKernels (-1)) 3 2 0
      (A3, vector_of_list (T := RealTraits) [0; 0]%R) in
  coeff (fst after_0) 0 0 = coeff (fst final) 0 0
  /\ coeff (fst after_0) 1 0 = coeff (fst final) 1 0
  /\ coeff (fst after_0) 2 0 = coeff (fst final) 2 0
  /\ vcoeff (snd after_0) 0 = vcoeff (snd final) 0.
Proof.
  destruct (@leading_block_final RealTraits (RealKernels (-1)) A3
              (vector_of_list (T := RealTraits) [0; 0]%R) 3 0
              eq_refl eq_refl eq_refl ltac:(lia))
    as (_ & Hblock & Hcoeffs & _).
  cbv zeta. repeat split.
  - apply (Hblock 0 0). lia.
  - apply (Hblock 1 0). lia.
  - apply (Hblock 2 0). lia.
  - apply (Hcoeffs 0). lia.
Defined.

Lemma compute_imaginary :
  compute (K := ComplexKernels) Dynamic
    (Tridiagonalization_sized Dynamic (default_size Dynamic)) A1_imaginary
  = Returned decomposition_imaginary.
Proof. reflexivity. Qed.





(** The hypothesis on the packed diagonal is needed: [compute] does not
    check that its input is selfadjoint, and on the 1x1 complex matrix
    whose entry is the imaginary unit, which is not selfadjoint, it
    returns and [matrixT()] then has that entry on its diagonal. *)
Lemma matrixT_diagonal_not_real :
  compute (K := ComplexKernels) Dynamic
    (Tridiagonalization_sized Dynamic (default_size Dynamic)) A1_imaginary
  = Returned decomposition_imaginary
  /\ exists matT,
      matrixT decomposition_imaginary = Returned matT
      /\ coeff matT 0 0 = (0%R, 1%R)
      /\ ~ real_valued (T := ComplexTraits) (coeff matT 0 0).
Proof.
  split; [reflexivity|].
  eexists. split; [reflexivity|]. split; [reflexivity|].
  unfold real_valued. cbn. intros H. inversion H. lra.
Qed.

Lemma accessors_gated_witness :
  matrixT (Tridiagonalization_sized (T := RealTraits) Dynamic 2)
  = AssertionFailed
  /\ diagonal (Tridiagonalization_sized (T := RealTraits) Dynamic 2)
     = AssertionFailed
  /\ returns (matrixT decomposition_A3) = true
  /\ returns (diagonal decomposition_A3) = true.
Proof.
  destruct (@accessors_gated RealTraits (RealKernels (-1)) Dynamic
              (Tridiagonalization_sized Dynamic 2))
    as (Hfail & _ & _).
  destruct (Hfail eq_refl) as (_ & _ & _ & HT & HD & _).
  destruct (@accessors_gated RealTraits (RealKernels (-1)) Dynamic
              decomposition_A3)
    as (_ & Hok & _).
  destruct (Hok (@Computed_by_compute _ _ _ _ _ _ compute_A3))
    as (_ & _ & _ & HT' & HD' & _).
  repeat split; assumption.
Defined.

Lemma inplace_assertions_witness :
  ei_tridiagonalization_inplace (K := RealKernels (-1)) A23
    (vector_of_list (T := RealTraits) [0]%R)
  = AssertionFailed
  /\ ei_tridiagonalization_inplace4 (K := RealKernels (-1)) Dynamic
       A3 (zeros 3) (zeros 3) false
     = AssertionFailed
  /\ exists mat' diag' subdiag',
      ei_tridiagonalization_inplace4 (K := RealKernels (-1)) Dynamic
        A3 (zeros 3) (zeros 2) false
      = Returned (mat', diag', subdiag')
      /\ rsize diag' = 3 /\ rsize subdiag' = 2.
Proof.
  split; [|split].
  - apply (proj1 (@inplace_assertions RealTraits (RealKernels (-1)) Dynamic
                    A23 (vector_of_list (T := RealTraits) [0]%R)
                    A3 (zeros 3) (zeros 3) false)).
    cbn. lia.
  - apply (proj1 (proj2 (proj2
             (@inplace_assertions RealTraits (RealKernels (-1)) Dynamic
                A23 (vector_of_list (T := RealTraits) [0]%R)
                A3 (zeros 3) (zeros 3) false)))).
    cbn. lia.
  - destruct (ei_tridiagonalization_inplace4 (K := RealKernels (-1))
                Dynamic A3 (zeros 3) (zeros 2) false)
      as [[[mat' diag'] subdiag']|] eqn:Hrun.
    + exists mat', diag', subdiag'. split; [reflexivity|].
      exact (proj2 (proj2 (proj2
               (@inplace_assertions RealTraits (RealKernels (-1)) Dynamic
                  A23 (vector_of_list (T := RealTraits) [0]%R)
                  A3 (zeros 3) (zeros 2) false))) _ _ _ Hrun).
    + exfalso.
      unfold ei_tridiagonalization_inplace4, selector_run,
        selector_general_run in Hrun.
      change (negb ((cols A3 =? rows A3) && (rsize (zeros 3) =? rows A3)
                    && (rsize (zeros 2) =? rows A3 - 1))) with false in Hrun.
      rewrite inplace_returns in Hrun by reflexivity.
      destruct (tridiag_loop _ _ _ _) in Hrun. discriminate Hrun.
Defined.

Lemma selector3_already_tridiagonal_witness :
  exists mat' diag' subdiag',
    ei_tridiagonalization_inplace4 (K := RealKernels (-1)) (Fixed 3)
      A3_tridiagonal (zeros 3) (zeros 2) true
    = Returned (mat', diag', subdiag')
    /\ rcoeff diag' 0 = 4%R /\ rcoeff diag' 1 = 2%R /\ rcoeff diag' 2 = 3%R
    /\ rcoeff subdiag' 0 = 1%R /\ rcoeff subdiag' 1 = 5%R
    /\ coeff mat' 1 1 = 1%R /\ coeff mat' 1 2 = 0%R.
Proof.
  destruct (@selector3_already_tridiagonal RealTraits (RealKernels (-1))
              A3_tridiagonal (zeros 3) (zeros 2) true
              eq_refl eq_refl eq_refl eq_refl eq_refl much_smaller_zero)
    as (mat' & diag' & subdiag' & Hrun & _ & _ & _
        & Hd0 & Hd1 & Hd2 & Hs0 & Hs1 & _ & _ & HQ).
  exists mat', diag', subdiag'. split; [exact Hrun|].
  rewrite Hd0, Hd1, Hd2, Hs0, Hs1, !HQ. repeat split.
Defined.

Lemma order1_constructor_and_compute_witness :
  Tridiagonalization_of (K := RealKernels (-1)) Dynamic A1_seven
  = AssertionFailed
  /\ compute (K := RealKernels (-1)) Dynamic
       (Tridiagonalization_sized Dynamic (default_size Dynamic)) A1_seven
     = Returned
         (mkTridiagonalization A1_seven
            (resize_CoeffVector Dynamic
               (m_hCoeffs (Tridiagonalization_sized Dynamic
                             (default_size Dynamic))) 0) true).
Proof.
  destruct (@order1_constructor_and_compute RealTraits (RealKernels (-1))
              Dynamic A1_seven
              (Tridiagonalization_sized Dynamic (default_size Dynamic))
              eq_refl eq_refl I)
    as (_ & Hctor & _ & Hcompute).
  split; [exact Hctor|exact Hcompute].
Defined.

(** C10. The code departs from the claim on the fixed-size 1x1 matrix
    type [Matrix<double,1,1>]: the coefficient vector of that type has
    [SizeMinusOne = 1] entry (line 74), so the assertion
    [matA.rows() == hCoeffs.size() + 1] of the reduction (line 357)
    cannot hold and [compute] on [[7]] fails, although the class guards
    its sizes for order 1 (lines 74, 113 and 129) and [compute] on the
    same matrix held in the dynamic-size type returns. *)
Lemma compute_fixed_order1_fails :
  has_size (Fixed 1) A1_seven
  /\ size (resize_CoeffVector (Fixed 1)
             (m_hCoeffs (Tridiagonalization_sized (T := RealTraits) (Fixed 1)
                           (default_size (Fixed 1))))
             (rows A1_seven - 1)) = 1
  /\ compute (K := RealKernels (-1)) (Fixed 1)
       (Tridiagonalization_sized (Fixed 1) (default_size (Fixed 1))) A1_seven
     = AssertionFailed
  /\ returns
       (compute (K := RealKernels (-1)) Dynamic
          (Tridiagonalization_sized Dynamic (default_size Dynamic)) A1_seven)
     = true.
Proof.
  repeat split.
Qed.

(** ** The real reflector kernel meets the description's contract *)

Lemma Rsum_S m f : Rsum (S m) f = (Rsum m f + f (Z.of_nat m))%R.
Proof. reflexivity. Qed.

Lemma Rsum_first m f :
  Rsum (S m) f = (f 0%Z + Rsum m (fun j => f (j + 1)%Z))%R.
Proof.
  induction m as [|m IH].
  - unfold Rsum. cbn [sum_upto]. change (@s0 RealTraits) with 0%R.
    change (@sadd RealTraits) with Rplus. cbn. lra.
  - rewrite Rsum_S, IH, Rsum_S.
    replace (Z.of_nat (S m)) with (Z.of_nat m + 1) by lia. lra.
Qed.

Lemma Rsum_scale m c f :
  Rsum m (fun j => c * f j)%R = (c * Rsum m f)%R.
Proof.
  induction m as [|m IH].
  - unfold Rsum. cbn [sum_upto]. change (@s0 RealTraits) with 0%R. lra.
  - rewrite !Rsum_S, IH. lra.
Qed.

Lemma Rsum_ext m f g :
  (forall j, 0 <= j < Z.of_nat m -> f j = g j) -> Rsum m f = Rsum m g.
Proof.
  induction m as [|m IH]; intros H.
  - reflexivity.
  - rewrite !Rsum_S, IH, (H (Z.of_nat m)) by (try intros j Hj; try apply H; lia).
    reflexivity.
Qed.

Lemma Rsum_squares_nonneg m g : (0 <= Rsum m (fun j => g j * g j))%R.
Proof.
  induction m as [|m IH].
  - unfold Rsum. cbn [sum_upto]. change (@s0 RealTraits) with 0%R. lra.
  - rewrite Rsum_S. pose proof (Rle_0_sqr (g (Z.of_nat m))) as Hsq.
    unfold Rsqr in Hsq. lra.
Qed.

Lemma Rsum_squares_zero m g :
  Rsum m (fun j => g j * g j)%R = 0%R ->
  forall j, 0 <= j < Z.of_nat m -> g j = 0%R.
Proof.
  induction m as [|m IH]; intros Hz j Hj.
  - lia.
  - rewrite Rsum_S in Hz.
    pose proof (Rsum_squares_nonneg m g) as Hn.
    pose proof (Rle_0_sqr (g (Z.of_nat m))) as Hsq. unfold Rsqr in Hsq.
    destruct (Z.eq_dec j (Z.of_nat m)) as [->|Hne].
    + nra.
    + apply IH; [lra|lia].
Qed.

(** With either orientation the kernel gives a reflector of [x]:
    [(I - h v v^t) x = beta e1] with [h = 0] or [h (v^t v) = 2], and
    [beta^2] is the squared norm of [x]. *)
Lemma makeHouseholder_signed_reflects (s : R) (x : Vector RealTraits) :
  s = 1%R \/ s = (-1)%R -> 1 <= size x ->
  let res := makeHouseholder_signed s x in
  reflects (T := RealTraits) x (fst (fst res)) (snd (fst res)) (snd res)
  /\ (snd (fst res) = 0%R
      \/ (snd (fst res)
          * Rsum (Z.to_nat (size x))
              (fun j => spec_v (T := RealTraits) (fst (fst res)) j
                        * spec_v (T := RealTraits) (fst (fst res)) j)
          = 2)%R)
  /\ (snd res * snd res
      = Rsum (Z.to_nat (size x)) (fun j => vcoeff x j * vcoeff x j))%R.
Proof.
  intros Hs Hsize. cbv zeta.
  change (reflects (T := RealTraits) x
            (fst (fst (makeHouseholder_signed s x)))
            (snd (fst (makeHouseholder_signed s x)))
            (snd (makeHouseholder_signed s x)))
    with (forall k, 0 <= k < size x ->
            (vcoeff x k
             - snd (fst (makeHouseholder_signed s x))
               * Rsum (Z.to_nat (size x))
                   (fun j => spec_v (fst (fst (makeHouseholder_signed s x))) j
                             * vcoeff x j)
               * spec_v (fst (fst (makeHouseholder_signed s x))) k)%R
            = if k =? 0 then snd (makeHouseholder_signed s x) else 0%R).
  unfold makeHouseholder_signed.
  set (c0 := vcoeff x 0). set (t := tail_squaredNorm x).
  assert (Ht : t = Rsum (Z.to_nat (size x - 1))
                     (fun j => vcoeff x (j + 1) * vcoeff x (j + 1))%R)
    by reflexivity.
  assert (Hnorm : Rsum (Z.to_nat (size x)) (fun j => vcoeff x j * vcoeff x j)%R
                  = (c0 * c0 + t)%R).
  { replace (Z.to_nat (size x)) with (S (Z.to_nat (size x - 1))) by lia.
    rewrite Rsum_first, Ht. reflexivity. }
  destruct (Req_dec_T t 0) as [Hz|Hnz]; cbv zeta; cbn [fst snd].
  - split; [|split].
    + intros k Hk. cbn [size vcoeff].
      destruct (k =? 0) eqn:E; index_props.
      * subst k. fold c0. lra.
      * rewrite Ht in Hz.
        pose proof (@Rsum_squares_zero _ (fun j => vcoeff x (j + 1)) Hz (k - 1)
                      ltac:(lia)) as Hk0.
        cbv beta in Hk0. replace (k - 1 + 1) with k in Hk0 by lia. lra.
    + left. reflexivity.
    + rewrite Hnorm, Hz. lra.
  - assert (Htpos : (0 < t)%R).
    { pose proof (Rsum_squares_nonneg (Z.to_nat (size x - 1))
                    (fun j => vcoeff x (j + 1))) as Hn.
      cbv beta in Hn. rewrite <- Ht in Hn. lra. }
    set (nrm := sqrt (c0 * c0 + t)).
    assert (Hnrm : (nrm * nrm = c0 * c0 + t)%R) by (apply sqrt_sqrt; nra).
    assert (Hnpos : (0 <= nrm)%R) by apply sqrt_pos.
    set (beta := (s * nrm)%R).
    assert (Hb2 : (beta * beta = c0 * c0 + t)%R)
      by (subst beta; destruct Hs; subst s; nra).
    assert (Hb0 : beta <> 0%R) by nra.
    assert (Hb1 : (c0 - beta <> 0)%R) by nra.
    split; [|split; [right|rewrite Hnorm; exact Hb2]].
    + intros k Hk. cbn [size vcoeff].
      assert (Hdot : Rsum (Z.to_nat (size x))
                       (fun j => spec_v
                                   (mkVector (T := RealTraits) (size x)
                                      (fun k0 => if k0 =? 0 then c0
                                                 else (vcoeff x k0 / (c0 - beta))%R))
                                   j * vcoeff x j)%R
                     = (- beta)%R).
      { replace (Z.to_nat (size x)) with (S (Z.to_nat (size x - 1))) by lia.
        rewrite Rsum_first.
        rewrite (@Rsum_ext _ _
                   (fun j => / (c0 - beta)
                             * (vcoeff x (j + 1) * vcoeff x (j + 1)))%R).
        - rewrite Rsum_scale, <- Ht.
          change (spec_v _ 0) with 1%R. fold c0.
          field_simplify_eq; [nra|assumption].
        - intros j Hj. unfold spec_v. cbn [vcoeff].
          destruct (j + 1 =? 0) eqn:E; index_props; [lia|].
          field. assumption. }
      rewrite Hdot. unfold spec_v. cbn [vcoeff].
      destruct (k =? 0) eqn:E; index_props.
      * subst k. fold c0. change (@s1 RealTraits) with 1%R. field. assumption.
      * field. split; assumption.
    + replace (Z.to_nat (size x)) with (S (Z.to_nat (size x - 1))) by lia.
      rewrite Rsum_first.
      rewrite (@Rsum_ext _ _
                 (fun j => / (c0 - beta) * / (c0 - beta)
                           * (vcoeff x (j + 1) * vcoeff x (j + 1)))%R).
      * rewrite Rsum_scale, <- Ht.
        change (spec_v _ 0) with 1%R.
        field_simplify_eq; [nra|split; assumption].
      * intros j Hj. unfold spec_v. cbn [vcoeff].
        destruct (j + 1 =? 0) eqn:E; index_props; [lia|].
        field. assumption.
Qed.

Lemma RealKernels_contract (s : R) :
  s = 1%R \/ s = (-1)%R -> reflector_contract (RealKernels s).
Proof.
  intros Hs x Hsize.
  destruct (@makeHouseholder_signed_reflects s x Hs Hsize) as (Hr & Hu & _).
  split; [exact Hr|exact Hu].
Qed.

(** * The 3x3 scenario of the description, on real scalars

    [A3] through the fixed 3x3 path and through the general path.  The
    general path takes its sub-diagonal entries from the reflector
    kernel, so it is run with the kernel of either orientation. *)

Lemma sqrt5_sq : (sqrt 5 * sqrt 5 = 5)%R.
Proof. apply sqrt_sqrt. lra. Qed.

Lemma sqrt5_gt2 : (2 < sqrt 5)%R.
Proof. pose proof sqrt5_sq. pose proof (sqrt_pos 5). nra. Qed.

(** Closes an equation between rational expressions of [beta] when
    [beta * beta = 5]. *)
Ltac solve_with_square beta Hsq :=
  field_simplify_eq; [|repeat split; assumption];
  let H2 := fresh in
  let H3 := fresh in
  let H4 := fresh in
  let H5 := fresh in
  let H6 := fresh in
  assert (H2 : (beta ^ 2 = 5)%R) by (simpl; nra);
  assert (H3 : (beta ^ 3 = 5 * beta)%R) by (simpl; nra);
  assert (H4 : (beta ^ 4 = 25)%R) by (simpl; nra);
  assert (H5 : (beta ^ 5 = 25 * beta)%R) by (simpl; nra);
  assert (H6 : (beta ^ 6 = 125)%R) by (simpl; nra);
  rewrite ?H6, ?H5, ?H4, ?H3, ?H2; lra.

(** The fixed 3x3 path on [A3]. *)
Lemma selector3_on_A3 :
  let '(mat', diag', subdiag') :=
    selector3_run (T := RealTraits) A3 (zeros 3) (zeros 2) false in
  rcoeff subdiag' 0 = sqrt 5
  /\ rcoeff subdiag' 1 = (2 / 5)%R
  /\ rcoeff diag' 0 = 4%R
  /\ rcoeff diag' 1 = (14 / 5)%R
  /\ rcoeff diag' 2 = (11 / 5)%R.
Proof.
  unfold selector3_run.
  change (ei_isMuchSmallerThan (ei_abs2 (coeff A3 2 0)) r1)
    with (much_smaller (-2 * -2) 1).
  rewrite much_smaller_four.
  cbn [rcoeff set_rcoeff Z.eqb Pos.eqb].
  change (coeff A3 0 0) with 4%R.
  change (coeff A3 1 0) with 1%R.
  change (coeff A3 2 0) with (-2)%R.
  change (coeff A3 1 1) with 2%R.
  change (coeff A3 2 1) with 0%R.
  change (coeff A3 2 2) with 3%R.
  cbn [RealTraits ei_sqrt radd ei_abs2 ei_real ei_conj of_real smul sadd ssub
       rdiv r1 r2].
  replace (1 * 1 + -2 * -2)%R with 5%R by lra.
  pose proof sqrt5_sq as Hsq. pose proof sqrt5_gt2 as Hgt.
  set (b := sqrt 5) in *.
  assert (Hinv : (1 / b * (1 / b) = 1 / 5)%R) by (rewrite <- Hsq; field; lra).
  set (c := (1 / b)%R) in *.
  repeat split; nra.
Qed.

(** The reflector of the first sub-column [(1, -2)] of [A3]. *)
Lemma kernel_on_A3 (s : R) :
  let res := makeHouseholder_signed s (col_tail A3 0 2) in
  snd res = (s * sqrt 5)%R
  /\ snd (fst res) = ((s * sqrt 5 - 1) / (s * sqrt 5))%R
  /\ vcoeff (fst (fst res)) 1 = (-2 / (1 - s * sqrt 5))%R.
Proof.
  unfold makeHouseholder_signed.
  change (tail_squaredNorm (col_tail A3 0 2)) with (0 + -2 * -2)%R.
  destruct (Req_dec_T (0 + -2 * -2) 0) as [Hz|_]; [exfalso; lra|].
  cbv zeta. cbn [fst snd vcoeff Z.eqb].
  change (vcoeff (col_tail A3 0 2) 0) with 1%R.
  change (vcoeff (col_tail A3 0 2) 1) with (-2)%R.
  replace (1 * 1 + (0 + -2 * -2))%R with 5%R by lra.
  repeat split.
Qed.

(** The reflector of a vector of one entry: nothing to annihilate. *)
Lemma kernel_on_one_entry (s : R) (x : Vector RealTraits) :
  size x = 1 ->
  snd (fst (makeHouseholder_signed s x)) = 0%R
  /\ snd (makeHouseholder_signed s x) = vcoeff x 0.
Proof.
  intros Hsize. unfold makeHouseholder_signed, tail_squaredNorm, Rsum.
  rewrite Hsize. change (Z.to_nat (1 - 1)) with 0%nat. cbn [sum_upto].
  change (@s0 RealTraits) with 0%R.
  destruct (Req_dec_T 0 0) as [_|Hne]; [|contradiction].
  split; reflexivity.
Qed.

(** What the contract leaves of the reflector of [(1, -2)]. *)
Lemma first_reflector_algebra (w h beta : R) :
  (h = 0 \/ h * (0 + 1 * 1 + w * w) = 2)%R ->
  (1 - h * (0 + 1 * 1 + w * -2) * 1 = beta)%R ->
  (-2 - h * (0 + 1 * 1 + w * -2) * w = 0)%R ->
  (beta * beta = 5 /\ h = (beta - 1) / beta /\ w = -2 / (1 - beta))%R.
Proof.
  intros Hunit E0 E1.
  assert (Hh : h <> 0%R) by (intros ->; lra).
  destruct Hunit as [Hz|Hu]; [contradiction|].
  assert (Hw : (w * w = w + 1)%R).
  { assert (H : (h * (1 + w - w * w) = 0)%R) by nra.
    apply Rmult_integral in H. destruct H; [contradiction|lra]. }
  assert (Hh2 : (h * (2 + w) = 2)%R) by nra.
  assert (Hb : (beta * (2 + w) = 5 * w)%R) by nra.
  assert (Hw1 : (w + 1 <> 0)%R) by nra.
  assert (Hw2 : (2 + w <> 0)%R) by nra.
  assert (Hb1 : ((1 - beta) * w = -2)%R) by nra.
  assert (Hbne1 : (1 - beta <> 0)%R) by (intros H; rewrite H in Hb1; lra).
  assert (Hbsq : (beta * beta = 5)%R).
  { assert (H : ((beta * beta - 5) * (w + 1) = 0)%R) by nra.
    apply Rmult_integral in H. destruct H; [lra|contradiction]. }
  assert (Hbne0 : beta <> 0%R) by nra.
  split; [exact Hbsq|]. split.
  - apply (Rmult_eq_reg_r beta); [|assumption].
    unfold Rdiv. rewrite Rmult_assoc, Rinv_l by assumption.
    assert (H : ((h * beta - (beta - 1)) * ((w + 1) * (2 + w)) = 0)%R) by nra.
    apply Rmult_integral in H. destruct H as [H|H]; [lra|].
    apply Rmult_integral in H. destruct H; contradiction.
  - apply (Rmult_eq_reg_r (1 - beta)); [|assumption].
    unfold Rdiv. rewrite Rmult_assoc, Rinv_l by assumption. lra.
Qed.

(** What it leaves of the reflector of a vector of one entry. *)
Lemma second_reflector_algebra (c h beta : R) :
  (h = 0 \/ h * (0 + 1 * 1) = 2)%R ->
  (c - h * (0 + 1 * c) * 1 = beta)%R ->
  (beta = c \/ beta = (- c)%R) /\ (h * (1 - h * / 2) = 0)%R.
Proof.
  intros [->|Hu] E; [split; [left|]; lra|].
  assert (h = 2%R) by lra. subst h. split; [right|]; lra.
Qed.

Lemma contract_first_column (K : Kernels RealTraits) :
  reflector_contract K ->
  let res := makeHouseholderInPlace (Kernels := K) (col_tail A3 0 2) in
  (snd res * snd res = 5)%R
  /\ snd (fst res) = ((snd res - 1) / snd res)%R
  /\ vcoeff (fst (fst res)) 1 = (-2 / (1 - snd res))%R.
Proof.
  intros HK res.
  destruct (HK (col_tail A3 0 2) ltac:(cbn; lia)) as [Hrefl Hunit].
  fold res in Hrefl, Hunit.
  pose proof (Hrefl 0 ltac:(cbn; lia)) as E0.
  pose proof (Hrefl 1 ltac:(cbn; lia)) as E1.
  clear Hrefl.
  unfold Rsum in Hunit.
  change (Z.to_nat (size (col_tail A3 0 2))) with 2%nat in E0, E1, Hunit.
  cbn [sum_upto Z.of_nat Pos.of_succ_nat Pos.succ] in E0, E1, Hunit.
  change (spec_v (fst (fst res)) 0) with 1%R in E0, E1, Hunit.
  change (spec_v (fst (fst res)) 1) with (vcoeff (fst (fst res)) 1)
    in E0, E1, Hunit.
  change (vcoeff (col_tail A3 0 2) 0) with 1%R in E0, E1.
  change (vcoeff (col_tail A3 0 2) 1) with (-2)%R in E0, E1.
  cbn [Z.eqb] in E0, E1.
  exact (first_reflector_algebra Hunit E0 E1).
Qed.

(** The buffer after the first iteration on [A3], for a reflector with
    [beta^2 = 5]. *)
Lemma first_iteration_on_A3 (K : Kernels RealTraits) :
  let res := makeHouseholderInPlace (Kernels := K) (col_tail A3 0 2) in
  (snd res * snd res = 5)%R ->
  snd (fst res) = ((snd res - 1) / snd res)%R ->
  vcoeff (fst (fst res)) 1 = (-2 / (1 - snd res))%R ->
  let m1 :=
    fst (tridiag_step (K := K) 3 0
           (A3, new_CoeffVector (T := RealTraits) Dynamic 2)) in
  coeff m1 0 0 = 4%R
  /\ coeff m1 1 0 = snd res
  /\ coeff m1 1 1 = (14 / 5)%R
  /\ coeff m1 2 1 = (2 / 5)%R
  /\ coeff m1 2 2 = (11 / 5)%R.
Proof.
  intros res Hb2 Hh Hv m1.
  pose proof (triple_eta res) as Hx.
  assert (Hblock : forall a b, 0 <= b <= a -> a < 2 ->
            coeff m1 (0 + 1 + a) (0 + 1 + b)
            = spec_S_updated (spec_S A3 0) (spec_v (fst (fst res)))
                (spec_p_corrected 2
                   (spec_p 2 (spec_S A3 0) (spec_v (fst (fst res)))
                      (snd (fst res)))
                   (spec_v (fst (fst res))) (snd (fst res))) a b).
  { intros a b Hab Ha. subst m1.
    apply (@tridiag_step_block RealTraits K RTheory eq_refl
             A3 (new_CoeffVector Dynamic 2) 3 0 _ _ (snd res) a b
             eq_refl eq_refl eq_refl);
      [lia|exact Hx|assumption|lia]. }
  split.
  { subst m1. rewrite tridiag_step_coeff_frame by (reflexivity || lia).
    reflexivity. }
  split.
  { subst m1.
    exact (proj1 (@tridiag_step_stores RealTraits K
                    A3 (new_CoeffVector Dynamic 2) 3 0 _ _ _ Hx)). }
  set (beta := snd res) in *.
  assert (Hb0 : beta <> 0%R) by (intros H; rewrite H in Hb2; lra).
  assert (Hb1 : (1 - beta <> 0)%R)
    by (intros H; assert (beta = 1%R) as H' by lra; rewrite H' in Hb2; lra).
  set (S := spec_S A3 0) in *.
  set (v := spec_v (fst (fst res))) in *.
  set (h := snd (fst res)) in *.
  assert (HS00 : S 0 0 = 2%R) by reflexivity.
  assert (HS01 : S 0 1 = 0%R) by reflexivity.
  assert (HS10 : S 1 0 = 0%R) by reflexivity.
  assert (HS11 : S 1 1 = 3%R) by reflexivity.
  assert (Hv0 : v 0 = 1%R) by reflexivity.
  assert (Hv1 : v 1 = (-2 / (1 - beta))%R) by exact Hv.
  split; [|split].
  - change (coeff m1 1 1) with (coeff m1 (0 + 1 + 0) (0 + 1 + 0)).
    rewrite Hblock by lia.
    unfold spec_S_updated, spec_p_corrected, spec_p.
    change (Z.to_nat 2) with 2%nat.
    cbn [sum_upto Z.of_nat Pos.of_succ_nat Pos.succ].
    rewrite HS00, HS01, HS10, HS11, Hv0, Hv1, Hh.
    cbn [RealTraits s0 s1 sadd smul ssub sopp s_half ei_conj Scalar].
    solve_with_square beta Hb2.
  - change (coeff m1 2 1) with (coeff m1 (0 + 1 + 1) (0 + 1 + 0)).
    rewrite Hblock by lia.
    unfold spec_S_updated, spec_p_corrected, spec_p.
    change (Z.to_nat 2) with 2%nat.
    cbn [sum_upto Z.of_nat Pos.of_succ_nat Pos.succ].
    rewrite HS00, HS01, HS10, HS11, Hv0, Hv1, Hh.
    cbn [RealTraits s0 s1 sadd smul ssub sopp s_half ei_conj Scalar].
    solve_with_square beta Hb2.
  - change (coeff m1 2 2) with (coeff m1 (0 + 1 + 1) (0 + 1 + 1)).
    rewrite Hblock by lia.
    unfold spec_S_updated, spec_p_corrected, spec_p.
    change (Z.to_nat 2) with 2%nat.
    cbn [sum_upto Z.of_nat Pos.of_succ_nat Pos.succ].
    rewrite HS00, HS01, HS10, HS11, Hv0, Hv1, Hh.
    cbn [RealTraits s0 s1 sadd smul ssub sopp s_half ei_conj Scalar].
    solve_with_square beta Hb2.
Qed.

(** The second, last iteration on a buffer of order 3: the entry
    [(2, 1)] keeps its absolute value, the rest of the two bands stays. *)
Lemma last_iteration_order3 (K : Kernels RealTraits)
      (m1 : Matrix RealTraits) (h1 : Vector RealTraits) :
  reflector_contract K -> rows m1 = 3 -> cols m1 = 3 -> size h1 = 2 ->
  let m2 := fst (tridiag_step (K := K) 3 1 (m1, h1)) in
  (forall a b, ~ (1 <= b <= a /\ 2 <= a) -> coeff m2 a b = coeff m1 a b)
  /\ coeff m2 2 1
     = snd (makeHouseholderInPlace (Kernels := K) (col_tail m1 1 1))
  /\ (coeff m2 2 1 = coeff m1 2 1 \/ coeff m2 2 1 = (- coeff m1 2 1)%R)
  /\ coeff m2 2 2 = coeff m1 2 2.
Proof.
  intros HK Hrows Hcols Hsize m2.
  pose proof (triple_eta (makeHouseholderInPlace (Kernels := K)
                            (col_tail m1 1 (3 - 1 - 1)))) as Hx.
  destruct (HK (col_tail m1 1 (3 - 1 - 1)) ltac:(cbn; lia)) as [Hrefl Hunit].
  pose proof (Hrefl 0 ltac:(cbn; lia)) as E0. clear Hrefl.
  set (res := makeHouseholderInPlace (col_tail m1 1 (3 - 1 - 1))) in *.
  unfold Rsum in Hunit.
  change (Z.to_nat (size (col_tail m1 1 (3 - 1 - 1)))) with 1%nat in E0, Hunit.
  cbn [sum_upto Z.of_nat] in E0, Hunit.
  change (spec_v (fst (fst res)) 0) with 1%R in E0, Hunit.
  cbn [Z.eqb] in E0.
  assert (Hc : vcoeff (col_tail m1 1 (3 - 1 - 1)) 0 = coeff m1 2 1).
  { unfold col_tail. cbn [vcoeff]. rewrite Hrows. reflexivity. }
  rewrite Hc in E0.
  destruct (second_reflector_algebra Hunit E0) as [Hsign Hzero].
  pose proof (proj1 (@tridiag_step_stores RealTraits K m1 h1 3 1 _ _ _ Hx))
    as Hstore.
  pose proof (@tridiag_step_block RealTraits K RTheory eq_refl
                m1 h1 3 1 _ _ _ 0 0 Hrows Hcols Hsize
                ltac:(lia) Hx ltac:(lia) ltac:(lia)) as Hblock.
  split; [|split; [|split]].
  - intros a b Hab. subst m2. apply tridiag_step_coeff_frame; assumption.
  - exact Hstore.
  - subst m2.
    change (coeff (fst (tridiag_step 3 1 (m1, h1))) 2 1)
      with (coeff (fst (tridiag_step (K := K) 3 1 (m1, h1))) (1 + 1) 1).
    rewrite Hstore. exact Hsign.
  - subst m2.
    change (coeff (fst (tridiag_step 3 1 (m1, h1))) 2 2)
      with (coeff (fst (tridiag_step (K := K) 3 1 (m1, h1)))
              (1 + 1 + 0) (1 + 1 + 0)).
    rewrite Hblock.
    unfold spec_S_updated, spec_p_corrected, spec_p.
    change (Z.to_nat (3 - 1 - 1)) with 1%nat.
    cbn [sum_upto Z.of_nat].
    change (spec_S m1 1 0 0) with (coeff m1 2 2).
    change (spec_v (fst (fst res)) 0) with 1%R.
    cbn [RealTraits s0 s1 sadd smul ssub sopp s_half ei_conj ei_real Scalar].
    assert (Halg : forall h c : R,
               (h * (1 - h * / 2) = 0)%R ->
               (c + - (1) * (1 * (h * (0 + c * 1)
                                  - h * / 2 * (0 + h * (0 + c * 1) * 1) * 1)
                             + (h * (0 + c * 1)
                                - h * / 2 * (0 + h * (0 + c * 1) * 1) * 1) * 1)
                = c)%R).
    { intros h c Hz.
      replace (c + - (1) * (1 * (h * (0 + c * 1)
                                 - h * / 2 * (0 + h * (0 + c * 1) * 1) * 1)
                            + (h * (0 + c * 1)
                               - h * / 2 * (0 + h * (0 + c * 1) * 1) * 1) * 1))%R
        with (c - 2 * c * (h * (1 - h * / 2)))%R by ring.
      rewrite Hz. lra. }
    exact (Halg _ _ Hzero).
Qed.

(** The general path on [A3], for every reflector kernel that meets
    the contract: the diagonal is [(4, 14/5, 11/5)], the sub-diagonal is
    [(sqrt 5, 2/5)] up to the sign of each entry, and its first entry is
    the [beta] the kernel gives for the sub-column [(1, -2)]. *)
Lemma general_path_on_A3 (K : Kernels RealTraits) :
  reflector_contract K ->
  exists mat' diag' subdiag',
    ei_tridiagonalization_inplace4 (K := K) Dynamic
      A3 (zeros 3) (zeros 2) false
    = Returned (mat', diag', subdiag')
    /\ rsize diag' = 3 /\ rsize subdiag' = 2
    /\ rcoeff subdiag' 0
       = snd (makeHouseholderInPlace (Kernels := K) (col_tail A3 0 2))
    /\ rcoeff subdiag' 1
       = snd (makeHouseholderInPlace (Kernels := K)
                (col_tail
                   (fst (tridiag_step (K := K) 3 0
                           (A3, new_CoeffVector Dynamic 2))) 1 1))
    /\ (rcoeff subdiag' 0 = sqrt 5 \/ rcoeff subdiag' 0 = (- sqrt 5)%R)
    /\ (rcoeff subdiag' 1 = (2 / 5)%R \/ rcoeff subdiag' 1 = (- (2 / 5))%R)
    /\ rcoeff diag' 0 = 4%R
    /\ rcoeff diag' 1 = (14 / 5)%R
    /\ rcoeff diag' 2 = (11 / 5)%R.
Proof.
  intros HK.
  destruct (contract_first_column HK) as (Hb2 & Hh & Hv).
  pose proof (first_iteration_on_A3 K Hb2 Hh Hv) as Hfirst.
  cbv zeta in Hfirst.
  set (beta := snd (makeHouseholderInPlace (Kernels := K) (col_tail A3 0 2))) in *.
  pose proof (tridiag_step_rows (K := K) 3 0
                (A3, new_CoeffVector Dynamic 2)) as Hrows1.
  pose proof (tridiag_step_cols (K := K) 3 0
                (A3, new_CoeffVector Dynamic 2)) as Hcols1.
  pose proof (tridiag_step_size (K := K) 3 0
                (A3, new_CoeffVector Dynamic 2)) as Hsize1.
  destruct (tridiag_step (K := K) 3 0 (A3, new_CoeffVector Dynamic 2))
    as [m1 h1] eqn:E1.
  cbn [fst snd] in Hfirst, Hrows1, Hcols1, Hsize1.
  destruct Hfirst as (H00 & H10 & H11 & H21 & H22).
  change (rows A3) with 3 in Hrows1. change (cols A3) with 3 in Hcols1.
  change (size (new_CoeffVector (T := RealTraits) Dynamic 2)) with 2 in Hsize1.
  destruct (@last_iteration_order3 K m1 h1 HK Hrows1 Hcols1 Hsize1)
    as (Hframe & Hbeta1 & Hsign & Hlast).
  assert (Hrun : ei_tridiagonalization_inplace4 (K := K) Dynamic
                   A3 (zeros 3) (zeros 2) false
                 = Returned
                     (fst (tridiag_step (K := K) 3 1 (m1, h1)),
                      diagonal_real
                        (fst (tridiag_step (K := K) 3 1 (m1, h1))),
                      subdiagonal_real
                        (fst (tridiag_step (K := K) 3 1 (m1, h1))))).
  { unfold ei_tridiagonalization_inplace4, selector_run, selector_general_run.
    change (negb ((cols A3 =? rows A3) && (rsize (zeros 3) =? rows A3)
                  && (rsize (zeros 2) =? rows A3 - 1))) with false.
    cbv iota. rewrite inplace_returns by reflexivity.
    change (tridiag_loop (rows A3) (Z.to_nat (rows A3 - 1)) 0
              (A3, new_CoeffVector Dynamic (cols A3 - 1)))
      with (tridiag_step (K := K) 3 1
              (tridiag_step (K := K) 3 0 (A3, new_CoeffVector Dynamic 2))).
    rewrite E1.
    destruct (tridiag_step (K := K) 3 1 (m1, h1)). reflexivity. }
  do 3 eexists. split; [exact Hrun|].
  cbn [rsize rcoeff diagonal_real subdiagonal_real].
  rewrite tridiag_step_rows, tridiag_step_cols. cbn [fst].
  rewrite Hrows1, Hcols1.
  split; [reflexivity|]. split; [reflexivity|].
  change (0 + 1) with 1. change (1 + 1) with 2.
  rewrite (Hframe 1 0), (Hframe 0 0), (Hframe 1 1) by lia.
  rewrite Hlast, H00, H10, H11, H22.
  cbn [RealTraits ei_real].
  split; [reflexivity|].
  split; [exact Hbeta1|].
  split.
  { pose proof sqrt5_sq as Hsq.
    assert (H : ((beta - sqrt 5) * (beta + sqrt 5) = 0)%R) by nra.
    apply Rmult_integral in H. destruct H; [left|right]; lra. }
  split.
  { rewrite H21 in Hsign. exact Hsign. }
  repeat split.
Qed.

(** C7 (amended). On the 3x3 real symmetric input
    [[4,1,-2],[1,2,0],[-2,0,3]], for every reflector kernel that meets
    the contract of the description: both paths return; the fixed 3x3
    path gives [subdiag = (sqrt 5, 2/5)] and [diag = (4, 14/5, 11/5)];
    the general path gives the same diagonal, and a sub-diagonal whose
    entries are those of the 3x3 path or their opposites, the first
    being the [beta] the kernel returns for the sub-column [(1, -2)]. *)
Theorem paths_on_A3 (K : Kernels RealTraits) :
  reflector_contract K ->
  exists matG diagG subdiagG mat3 diag3 subdiag3,
    ei_tridiagonalization_inplace4 (K := K) Dynamic
      A3 (zeros 3) (zeros 2) false
    = Returned (matG, diagG, subdiagG)
    /\ ei_tridiagonalization_inplace4 (K := K) (Fixed 3)
         A3 (zeros 3) (zeros 2) false
       = Returned (mat3, diag3, subdiag3)
    /\ rcoeff subdiag3 0 = sqrt 5
    /\ rcoeff subdiag3 1 = (2 / 5)%R
    /\ rcoeff diag3 0 = 4%R
    /\ rcoeff diag3 1 = (14 / 5)%R
    /\ rcoeff diag3 2 = (11 / 5)%R
    /\ rcoeff subdiagG 0
       = snd (makeHouseholderInPlace (Kernels := K) (col_tail A3 0 2))
    /\ (rcoeff subdiagG 0 = rcoeff subdiag3 0
        \/ rcoeff subdiagG 0 = (- rcoeff subdiag3 0)%R)
    /\ (rcoeff subdiagG 1 = rcoeff subdiag3 1
        \/ rcoeff subdiagG 1 = (- rcoeff subdiag3 1)%R)
    /\ rcoeff diagG 0 = rcoeff diag3 0
    /\ rcoeff diagG 1 = rcoeff diag3 1
    /\ rcoeff diagG 2 = rcoeff diag3 2.
Proof.
  intros HK.
  destruct (general_path_on_A3 HK)
    as (matG & diagG & subdiagG & Hrun & _ & _ & Hbeta & _ & Hs0 & Hs1
        & Hd0 & Hd1 & Hd2).
  pose proof selector3_on_A3 as H3.
  destruct (selector3_run (T := RealTraits) A3 (zeros 3) (zeros 2) false)
    as [[mat3 diag3] subdiag3] eqn:E3.
  destruct H3 as (Ht0 & Ht1 & Hu0 & Hu1 & Hu2).
  exists matG, diagG, subdiagG, mat3, diag3, subdiag3.
  split; [exact Hrun|]. split.
  { unfold ei_tridiagonalization_inplace4, selector_run.
    change (negb ((cols A3 =? rows A3) && (rsize (zeros 3) =? rows A3)
                  && (rsize (zeros 2) =? rows A3 - 1))) with false.
    cbv iota. rewrite E3. reflexivity. }
  do 5 (split; [assumption|]).
  split; [exact Hbeta|].
  rewrite Hd0, Hd1, Hd2, Ht0, Ht1, Hu0, Hu1, Hu2.
  repeat split; assumption.
Qed.

(** With the kernel of orientation [s] the general path gives
    [diag = (4, 14/5, 11/5)] and [subdiag = (s sqrt 5, 2/5)]: for
    [s = 1] it is what the fixed 3x3 path gives, for [s = -1] the first
    sub-diagonal entry has the other sign. *)
Lemma general_path_orientation (s : R) :
  s = 1%R \/ s = (-1)%R ->
  exists mat' diag' subdiag',
    ei_tridiagonalization_inplace4 (K := RealKernels s) Dynamic
      A3 (zeros 3) (zeros 2) false
    = Returned (mat', diag', subdiag')
    /\ rcoeff subdiag' 0 = (s * sqrt 5)%R
    /\ rcoeff subdiag' 1 = (2 / 5)%R
    /\ rcoeff diag' 0 = 4%R
    /\ rcoeff diag' 1 = (14 / 5)%R
    /\ rcoeff diag' 2 = (11 / 5)%R.
Proof.
  intros Hs.
  pose proof (RealKernels_contract Hs) as HK.
  destruct (general_path_on_A3 HK)
    as (mat' & diag' & subdiag' & Hrun & _ & _ & Hbeta & Hbeta1 & _ & _
        & Hd0 & Hd1 & Hd2).
  exists mat', diag', subdiag'. split; [exact Hrun|].
  split; [rewrite Hbeta; exact (proj1 (kernel_on_A3 s))|].
  split; [|repeat split; assumption].
  rewrite Hbeta1.
  destruct (contract_first_column HK) as (Hb2 & Hh & Hv).
  destruct (first_iteration_on_A3 (RealKernels s) Hb2 Hh Hv)
    as (_ & _ & _ & H21 & _).
  pose proof (tridiag_step_rows (K := RealKernels s) 3 0
                (A3, new_CoeffVector Dynamic 2)) as Hrows1.
  set (m1 := fst (tridiag_step (K := RealKernels s) 3 0
                    (A3, new_CoeffVector Dynamic 2))) in *.
  destruct (@kernel_on_one_entry s (col_tail m1 1 1) eq_refl) as (_ & Hone).
  assert (Hc : vcoeff (col_tail m1 1 1) 0 = coeff m1 2 1).
  { unfold col_tail. cbn [vcoeff]. rewrite Hrows1. reflexivity. }
  exact (eq_trans Hone (eq_trans Hc H21)).
Qed.

(** C7, as stated, fails for a reflector kernel that meets the
    contract: with the kernel that sends [x] to [-|x| e1] the general
    path gives [subdiag(0) = - sqrt 5], not [sqrt 5]. *)
Lemma general_path_negative_orientation :
  reflector_contract (RealKernels (-1))
  /\ exists mat' diag' subdiag',
      ei_tridiagonalization_inplace4 (K := RealKernels (-1)) Dynamic
        A3 (zeros 3) (zeros 2) false
      = Returned (mat', diag', subdiag')
      /\ rcoeff subdiag' 0 = (- sqrt 5)%R
      /\ rcoeff subdiag' 0 <> sqrt 5.
Proof.
  split; [apply RealKernels_contract; right; reflexivity|].
  destruct (@general_path_orientation (-1) ltac:(right; reflexivity))
    as (mat' & diag' & subdiag' & Hrun & Hbeta & _).
  exists mat', diag', subdiag'. split; [exact Hrun|].
  pose proof sqrt5_gt2. rewrite Hbeta. split; lra.
Qed.

Lemma paths_on_A3_witness :
  exists subdiagG subdiag3 : RealVector RealTraits,
    rcoeff subdiag3 0 = sqrt 5
    /\ (rcoeff subdiagG 0 = rcoeff subdiag3 0
        \/ rcoeff subdiagG 0 = (- rcoeff subdiag3 0)%R).
Proof.
  destruct (@paths_on_A3 (RealKernels (-1))
              (@RealKernels_contract (-1) (or_intror eq_refl)))
    as (matG & diagG & subdiagG & mat3 & diag3 & subdiag3
        & _ & _ & H3 & _ & _ & _ & _ & _ & HG & _).
  exists subdiagG, subdiag3. split; [exact H3|exact HG].
Defined.

(** With the kernel that sends [x] to [+|x| e1] the general path and
    the fixed 3x3 path give the same diagonal and the same sub-diagonal
    on [A3], with [subdiag(0) = sqrt 5]. *)
Lemma paths_agree_positive_orientation :
  exists matG diagG subdiagG mat3 diag3 subdiag3,
    ei_tridiagonalization_inplace4 (K := RealKernels 1) Dynamic
      A3 (zeros 3) (zeros 2) false
    = Returned (matG, diagG, subdiagG)
    /\ ei_tridiagonalization_inplace4 (K := RealKernels 1) (Fixed 3)
         A3 (zeros 3) (zeros 2) false
       = Returned (mat3, diag3, subdiag3)
    /\ rcoeff subdiagG 0 = sqrt 5
    /\ (forall k, 0 <= k < 2 -> rcoeff subdiagG k = rcoeff subdiag3 k)
    /\ (forall k, 0 <= k < 3 -> rcoeff diagG k = rcoeff diag3 k).
Proof.
  destruct (@general_path_orientation 1 (or_introl eq_refl))
    as (matG & diagG & subdiagG & Hrun & Hs0 & Hs1 & Hd0 & Hd1 & Hd2).
  pose proof selector3_on_A3 as H3.
  destruct (selector3_run (T := RealTraits) A3 (zeros 3) (zeros 2) false)
    as [[mat3 diag3] subdiag3] eqn:E3.
  destruct H3 as (Ht0 & Ht1 & Hu0 & Hu1 & Hu2).
  exists matG, diagG, subdiagG, mat3, diag3, subdiag3.
  split; [exact Hrun|]. split.
  { unfold ei_tridiagonalization_inplace4, selector_run.
    change (negb ((cols A3 =? rows A3) && (rsize (zeros 3) =? rows A3)
                  && (rsize (zeros 2) =? rows A3 - 1))) with false.
    cbv iota. rewrite E3. reflexivity. }
  split; [rewrite Hs0; lra|]. split.
  - intros k Hk.
    assert (Hcases : k = 0 \/ k = 1) by lia.
    destruct Hcases; subst k.
    + rewrite Hs0, Ht0. lra.
    + rewrite Hs1, Ht1. reflexivity.
  - intros k Hk.
    assert (Hcases : k = 0 \/ k = 1 \/ k = 2) by lia.
    destruct Hcases as [->|[->| ->]].
    + rewrite Hd0, Hu0. reflexivity.
    + rewrite Hd1, Hu1. reflexivity.
    + rewrite Hd2, Hu2. reflexivity.
Qed.

(** * Further properties of the header

    What the reduction reads and writes, the packed format, the class
    as a whole, when the entry points return, and the selectors. *)

Section Footprint.
Context {T : NumTraits} {K : Kernels T}.

(** Two matrices with the same dimensions and entries are the same. *)
Lemma matrix_ext (m1 m2 : Matrix T) :
  rows m1 = rows m2 -> cols m1 = cols m2 ->
  (forall a b, coeff m1 a b = coeff m2 a b) -> m1 = m2.
Proof.
  destruct m1 as [r1 c1 f1], m2 as [r2 c2 f2]. cbn [rows cols coeff].
  intros Hr Hc Hf. subst r2 c2. f_equal.
  apply functional_extensionality; intros a.
  apply functional_extensionality; intros b. apply Hf.
Qed.

(** The buffer after the reflector phase, on the lower triangle from
    column [i] on: it depends on that part of the buffer and on the
    entries of the reflector only. *)
Lemma with_reflector_agree (m1 m2 : Matrix T) (x1 x2 : Vector T) (n i a b : Z) :
  rows m1 = n -> rows m2 = n ->
  (forall a b, i <= b <= a -> a < n -> coeff m1 a b = coeff m2 a b) ->
  (forall k, 0 <= k < n - i - 1 -> vcoeff x1 k = vcoeff x2 k) ->
  i <= b <= a -> a < n ->
  coeff (with_reflector m1 n i x1) a b = coeff (with_reflector m2 n i x2) a b.
Proof.
  intros Hr1 Hr2 Hm Hx Hab Ha.
  unfold with_reflector, set_coeff, set_col_tail. cbn [rows cols coeff].
  rewrite Hr1, Hr2.
  index_solve; auto.
  apply Hx. lia.
Qed.

Section Phases.
Variables (n i : Z) (M1 M2 : Matrix T) (h : Scalar).
Hypothesis Hi : 0 <= i <= n - 2.
Hypothesis Hr1 : rows M1 = n.
Hypothesis Hc1 : cols M1 = n.
Hypothesis Hr2 : rows M2 = n.
Hypothesis Hc2 : cols M2 = n.
Hypothesis HM : forall a b, i <= b <= a -> a < n -> coeff M1 a b = coeff M2 a b.

Lemma phase_aux_agree (hc1 hc2 : Vector T) (k : Z) :
  size hc1 = n - 1 -> size hc2 = n - 1 -> i <= k < n - 1 ->
  vcoeff (phase_aux n i M1 hc1 h) k = vcoeff (phase_aux n i M2 hc2 h) k.
Proof.
  intros Hs1 Hs2 Hk.
  unfold phase_aux, set_tail, selfadjoint_times, vscale, col_tail,
    selfadjointLower, bottomRight.
  cbn [size vcoeff]. rewrite Hs1, Hs2, Hr1, Hr2, Hc1, Hc2.
  destruct ((n - 1 - (n - i - 1) <=? k) && (k <? n - 1))%bool eqn:E;
    [|index_props; lia].
  apply sum_upto_ext. intros j Hj.
  rewrite (@HM (n - (n - i - 1) + j) i) by lia.
  destruct (j <=? k - (n - 1 - (n - i - 1))) eqn:E'; index_props.
  - rewrite HM by lia. reflexivity.
  - rewrite HM by lia. reflexivity.
Qed.

Lemma phase_correct_agree (p1 p2 : Vector T) (k : Z) :
  size p1 = n - 1 -> size p2 = n - 1 ->
  (forall j, i <= j < n - 1 -> vcoeff p1 j = vcoeff p2 j) ->
  i <= k < n - 1 ->
  vcoeff (phase_correct n i M1 p1 h) k = vcoeff (phase_correct n i M2 p2 h) k.
Proof.
  intros Hs1 Hs2 Hp Hk.
  unfold phase_correct, set_tail, vadd, vscale, dot, tail, col_tail.
  cbn [size vcoeff]. rewrite Hs1, Hs2, Hr1, Hr2.
  destruct ((n - 1 - (n - i - 1) <=? k) && (k <? n - 1))%bool eqn:E;
    [|index_props; lia].
  rewrite Hp by lia. rewrite (@HM (n - (n - i - 1) + (k - (n - 1 - (n - i - 1)))) i) by lia.
  f_equal. f_equal. f_equal.
  apply sum_upto_ext. intros j Hj.
  rewrite Hp by lia. rewrite HM by lia. reflexivity.
Qed.

Lemma phase_update_agree (q1 q2 : Vector T) (a b : Z) :
  size q1 = n - 1 -> size q2 = n - 1 ->
  (forall j, i <= j < n - 1 -> vcoeff q1 j = vcoeff q2 j) ->
  i <= b <= a -> a < n ->
  coeff (phase_update n i M1 q1) a b = coeff (phase_update n i M2 q2) a b.
Proof.
  intros Hs1 Hs2 Hq Hab Ha.
  unfold phase_update, rankUpdate_lower, tail, col_tail.
  cbn [size vcoeff rows cols coeff]. rewrite Hs1, Hs2, Hr1, Hr2, Hc1, Hc2.
  rewrite (@HM a b) by lia.
  destruct ((0 <=? b - (n - (n - i - 1))) && (b - (n - (n - i - 1)) <=? a - (n - (n - i - 1)))
            && (a - (n - (n - i - 1)) <? n - i - 1))%bool eqn:E; [|reflexivity].
  index_props.
  rewrite !Hq by lia. rewrite !(@HM _ i) by lia. reflexivity.
Qed.

End Phases.


(** One iteration on two states whose buffers agree on the lower
    triangle from column [i] on, the reflector primitive having given
    the same coefficient and [beta] and reflectors with the same
    entries: the results agree on what the iteration writes. *)
Lemma tridiag_step_agree (m1 m2 : Matrix T) (hc1 hc2 : Vector T) (n i : Z)
      (x1 x2 : Vector T) (h : Scalar) (beta : RealScalar) :
  rows m1 = n -> cols m1 = n -> rows m2 = n -> cols m2 = n ->
  size hc1 = n - 1 -> size hc2 = n - 1 -> 0 <= i <= n - 2 ->
  (forall a b, i <= b <= a -> a < n -> coeff m1 a b = coeff m2 a b) ->
  makeHouseholderInPlace (col_tail m1 i (n - i - 1)) = (x1, h, beta) ->
  makeHouseholderInPlace (col_tail m2 i (n - i - 1)) = (x2, h, beta) ->
  (forall k, 0 <= k < n - i - 1 -> vcoeff x1 k = vcoeff x2 k) ->
  (forall a b, i <= b <= a -> a < n ->
     coeff (fst (tridiag_step n i (m1, hc1))) a b
     = coeff (fst (tridiag_step n i (m2, hc2))) a b)
  /\ (forall k, i <= k < n - 1 ->
        vcoeff (snd (tridiag_step n i (m1, hc1))) k
        = vcoeff (snd (tridiag_step n i (m2, hc2))) k).
Proof.
  intros Hr1 Hc1 Hr2 Hc2 Hs1 Hs2 Hi Hm Hx1 Hx2 Hx.
  unfold tridiag_step, phase_reflector. rewrite Hx1, Hx2.
  change (set_coeff (set_col_tail m1 i (n - i - 1) x1) (i + 1) i s1)
    with (with_reflector m1 n i x1).
  change (set_coeff (set_col_tail m2 i (n - i - 1) x2) (i + 1) i s1)
    with (with_reflector m2 n i x2).
  set (M1 := with_reflector m1 n i x1). set (M2 := with_reflector m2 n i x2).
  assert (HM : forall a b, i <= b <= a -> a < n -> coeff M1 a b = coeff M2 a b).
  { intros a b Hab Ha. apply with_reflector_agree; assumption. }
  assert (Hp : forall k, i <= k < n - 1 ->
            vcoeff (phase_aux n i M1 hc1 h) k = vcoeff (phase_aux n i M2 hc2 h) k).
  { intros k Hk. apply phase_aux_agree; assumption. }
  assert (Hq : forall k, i <= k < n - 1 ->
            vcoeff (phase_correct n i M1 (phase_aux n i M1 hc1 h) h) k
            = vcoeff (phase_correct n i M2 (phase_aux n i M2 hc2 h) h) k).
  { intros k Hk. apply phase_correct_agree; assumption. }
  unfold phase_store, set_coeff, set_vcoeff. cbn [fst snd coeff vcoeff].
  split.
  - intros a b Hab Ha.
    destruct ((a =? i + 1) && (b =? i))%bool; [reflexivity|].
    apply phase_update_agree; assumption.
  - intros k Hk. destruct (k =? i); [reflexivity|]. apply Hq. assumption.
Qed.

(** The coefficient vector is written before it is read: one iteration
    gives the same buffer whatever the vector held, and the same
    coefficients from index [i] on. *)
Lemma tridiag_step_hCoeffs (m : Matrix T) (hc1 hc2 : Vector T) (n i : Z) :
  rows m = n -> cols m = n -> size hc1 = n - 1 -> size hc2 = n - 1 ->
  0 <= i <= n - 2 ->
  fst (tridiag_step n i (m, hc1)) = fst (tridiag_step n i (m, hc2))
  /\ (forall k, i <= k < n - 1 ->
        vcoeff (snd (tridiag_step n i (m, hc1))) k
        = vcoeff (snd (tridiag_step n i (m, hc2))) k).
Proof.
  intros Hr Hc Hs1 Hs2 Hi.
  destruct (makeHouseholderInPlace (col_tail m i (n - i - 1)))
    as [[x h] beta] eqn:Hx.
  destruct (@tridiag_step_agree m m hc1 hc2 n i x x h beta) as [Hm Hv];
    auto.
  split; [|exact Hv].
  apply matrix_ext.
  - rewrite !tridiag_step_rows. reflexivity.
  - rewrite !tridiag_step_cols. reflexivity.
  - intros a b.
    destruct (Z_lt_dec a n) as [Ha|Ha];
      [destruct (Z_le_dec i b) as [Hb|Hb];
       [destruct (Z_le_dec b a) as [Hab|Hab]|]|].
    + apply Hm; lia.
    + rewrite !tridiag_step_coeff_frame by (cbn [fst]; auto; lia). reflexivity.
    + rewrite !tridiag_step_coeff_frame by (cbn [fst]; auto; lia). reflexivity.
    + (* outside the buffer *)
      unfold tridiag_step, phase_reflector. rewrite Hx.
      unfold phase_store, phase_update, rankUpdate_lower, set_coeff, set_col_tail.
      cbn [fst rows cols coeff]. rewrite Hr, Hc.
      index_solve.
Qed.

Lemma tridiag_loop_hCoeffs (n : Z) (count : nat) :
  forall (i : Z) (m : Matrix T) (hc1 hc2 : Vector T),
  rows m = n -> cols m = n -> size hc1 = n - 1 -> size hc2 = n - 1 ->
  0 <= i -> i + Z.of_nat count <= n - 1 ->
  (forall k, 0 <= k < i -> vcoeff hc1 k = vcoeff hc2 k) ->
  fst (tridiag_loop n count i (m, hc1)) = fst (tridiag_loop n count i (m, hc2))
  /\ (forall k, 0 <= k < i + Z.of_nat count ->
        vcoeff (snd (tridiag_loop n count i (m, hc1))) k
        = vcoeff (snd (tridiag_loop n count i (m, hc2))) k).
Proof.
  induction count as [|count IH]; intros i m hc1 hc2 Hr Hc Hs1 Hs2 Hi Hn Hv;
    cbn [tridiag_loop].
  - split; [reflexivity|]. intros k Hk. apply Hv. cbn [fst snd]. lia.
  - destruct (@tridiag_step_hCoeffs m hc1 hc2 n i) as [Hm Hw]; auto; [lia|].
    rewrite (surjective_pairing (tridiag_step n i (m, hc1))).
    rewrite (surjective_pairing (tridiag_step n i (m, hc2))).
    rewrite Hm.
    destruct (IH (i + 1) (fst (tridiag_step n i (m, hc2)))
                (snd (tridiag_step n i (m, hc1)))
                (snd (tridiag_step n i (m, hc2)))) as [Hm' Hv'].
    + rewrite tridiag_step_rows. assumption.
    + rewrite tridiag_step_cols. assumption.
    + rewrite tridiag_step_size. assumption.
    + rewrite tridiag_step_size. assumption.
    + lia.
    + lia.
    + intros k Hk. destruct (Z_lt_dec k i) as [Hlt|Hge].
      * rewrite !tridiag_step_vcoeff_frame by (cbn [snd]; auto).
        apply Hv. lia.
      * apply Hw. lia.
    + split; [exact Hm'|]. intros k Hk. apply Hv'. lia.
Qed.


(** The reduction on one buffer and two coefficient vectors of the same
    length. *)
Lemma inplace_same_result (matA : Matrix T) (hCoeffs1 hCoeffs2 : Vector T) :
  size hCoeffs1 = size hCoeffs2 ->
  same_outcome
    (fun r1 r2 =>
       fst r1 = fst r2 /\ size (snd r1) = size (snd r2)
       /\ forall k, 0 <= k < size (snd r1) ->
            vcoeff (snd r1) k = vcoeff (snd r2) k)
    (ei_tridiagonalization_inplace matA hCoeffs1)
    (ei_tridiagonalization_inplace matA hCoeffs2).
Proof.
  intros Hs. unfold ei_tridiagonalization_inplace. rewrite <- Hs.
  unfold same_outcome.
  destruct (rows matA =? cols matA) eqn:E1; cbn [negb]; [|exact I].
  destruct (rows matA =? size hCoeffs1 + 1) eqn:E2; cbn [negb]; [|exact I].
  index_props.
  set (n := rows matA).
  destruct (tridiag_loop n (Z.to_nat (n - 1)) 0 (matA, hCoeffs1))
    as [matA1 h1] eqn:R1.
  destruct (tridiag_loop n (Z.to_nat (n - 1)) 0 (matA, hCoeffs2))
    as [matA2 h2] eqn:R2.
  assert (Hsz1 : size h1 = size hCoeffs1).
  { change h1 with (snd (matA1, h1)). rewrite <- R1.
    apply tridiag_loop_size. }
  assert (Hsz2 : size h2 = size hCoeffs2).
  { change h2 with (snd (matA2, h2)). rewrite <- R2.
    apply tridiag_loop_size. }
  cbn [fst snd].
  destruct (Z_le_dec 1 n) as [Hn|Hn].
  - destruct (@tridiag_loop_hCoeffs n (Z.to_nat (n - 1)) 0 matA
                hCoeffs1 hCoeffs2) as [Hm Hv]; try (subst n; lia).
    rewrite R1, R2 in Hm, Hv. cbn [fst snd] in Hm, Hv.
    split; [exact Hm|]. split; [lia|].
    intros k Hk. apply Hv. lia.
  - replace (Z.to_nat (n - 1)) with 0%nat in R1, R2 by lia.
    cbn [tridiag_loop] in R1, R2. inversion R1; inversion R2; subst.
    split; [reflexivity|]. split; [assumption|]. intros k Hk. lia.
Qed.


(** What the class does after the reduction, on two coefficient vectors
    of the same length. *)
Lemma set_up_same (matrix : Matrix T) (hc1 hc2 : Vector T) :
  size hc1 = size hc2 ->
  same_outcome same_decomposition
    match ei_tridiagonalization_inplace matrix hc1 with
    | AssertionFailed => AssertionFailed
    | Returned (m, h) => Returned (mkTridiagonalization m h true)
    end
    match ei_tridiagonalization_inplace matrix hc2 with
    | AssertionFailed => AssertionFailed
    | Returned (m, h) => Returned (mkTridiagonalization m h true)
    end.
Proof.
  intros Hs. pose proof (inplace_same_result matrix hc1 hc2 Hs) as H.
  unfold same_outcome in H.
  destruct (ei_tridiagonalization_inplace matrix hc1) as [[m1 h1]|];
    destruct (ei_tridiagonalization_inplace matrix hc2) as [[m2 h2]|];
    try contradiction; [|exact I].
  cbn [fst snd] in H. destruct H as (Hm & Hsz & Hv).
  unfold same_outcome, same_decomposition.
  cbn [m_isInitialized m_matrix m_hCoeffs]. auto.
Qed.

(** The accessors on two such objects. *)
Lemma same_decomposition_accessors (t1 t2 : Tridiagonalization T) :
  same_decomposition t1 t2 ->
  packedMatrix t1 = packedMatrix t2
  /\ matrixT t1 = matrixT t2
  /\ diagonal t1 = diagonal t2
  /\ subDiagonal t1 = subDiagonal t2
  /\ same_outcome
       (fun h1 h2 => size h1 = size h2
          /\ forall k, 0 <= k < size h1 -> vcoeff h1 k = vcoeff h2 k)
       (householderCoefficients t1) (householderCoefficients t2)
  /\ same_outcome
       (fun q1 q2 => hs_vectors q1 = hs_vectors q2
          /\ hs_trans q1 = hs_trans q2
          /\ hs_actualVectors q1 = hs_actualVectors q2
          /\ hs_shift q1 = hs_shift q2
          /\ size (hs_coeffs q1) = size (hs_coeffs q2)
          /\ forall k, 0 <= k < size (hs_coeffs q1) ->
               vcoeff (hs_coeffs q1) k = vcoeff (hs_coeffs q2) k)
       (matrixQ t1) (matrixQ t2).
Proof.
  intros (Hi & Hm & Hs & Hv).
  unfold packedMatrix, matrixT, diagonal, subDiagonal, householderCoefficients,
    matrixQ.
  rewrite Hi, Hm. destruct (m_isInitialized t2); cbn [same_outcome].
  - repeat split; try assumption.
    cbn [hs_coeffs vconjugate vcoeff size] in *. intros k Hk.
    rewrite Hv by assumption. reflexivity.
  - repeat split.
Qed.

(** The coefficient vector is an output only.  On one buffer and two
    coefficient vectors of the same length the reduction fails its
    assertions in both calls, or returns in both with the same buffer
    and the same coefficients: what [hCoeffs] held at the call is never
    read. *)
Theorem hCoeffs_is_output_only (matA : Matrix T) (hCoeffs1 hCoeffs2 : Vector T) :
  size hCoeffs1 = size hCoeffs2 ->
  match ei_tridiagonalization_inplace matA hCoeffs1,
        ei_tridiagonalization_inplace matA hCoeffs2 with
  | Returned (matA1, h1), Returned (matA2, h2) =>
      matA1 = matA2 /\ size h1 = size h2
      /\ forall k, 0 <= k < size h1 -> vcoeff h1 k = vcoeff h2 k
  | AssertionFailed, AssertionFailed => True
  | _, _ => False
  end.
Proof.
  intros Hs. pose proof (inplace_same_result matA hCoeffs1 hCoeffs2 Hs) as H.
  unfold same_outcome in H.
  destruct (ei_tridiagonalization_inplace matA hCoeffs1) as [[matA1 h1]|];
    destruct (ei_tridiagonalization_inplace matA hCoeffs2) as [[matA2 h2]|];
    exact H.
Qed.

(** [compute] leaves no trace of what the object held before (the size
    hint of the sizing constructor, an earlier decomposition).  On one
    matrix and two objects of one matrix type it fails in both calls or
    returns in both, and the results have the same packed matrix and
    Householder coefficients, so [packedMatrix], [matrixT], [diagonal]
    and [subDiagonal] return the same. *)
Theorem compute_forgets_previous_state
        (Size : CompileTimeSize) (this1 this2 : Tridiagonalization T)
        (matrix : Matrix T) :
  same_outcome
    (fun t1 t2 =>
       same_decomposition t1 t2
       /\ packedMatrix t1 = packedMatrix t2
       /\ matrixT t1 = matrixT t2
       /\ diagonal t1 = diagonal t2
       /\ subDiagonal t1 = subDiagonal t2)
    (compute Size this1 matrix) (compute Size this2 matrix).
Proof.
  unfold compute.
  pose proof (@set_up_same matrix
                (resize_CoeffVector Size (m_hCoeffs this1) (rows matrix - 1))
                (resize_CoeffVector Size (m_hCoeffs this2) (rows matrix - 1))
                eq_refl) as H.
  cbv zeta.
  destruct (ei_tridiagonalization_inplace matrix
              (resize_CoeffVector Size (m_hCoeffs this1) (rows matrix - 1)))
    as [[m1 h1]|];
    destruct (ei_tridiagonalization_inplace matrix
                (resize_CoeffVector Size (m_hCoeffs this2) (rows matrix - 1)))
      as [[m2 h2]|]; cbn [same_outcome] in *; try assumption.
  split; [assumption|].
  apply same_decomposition_accessors in H. tauto.
Qed.

(** For a matrix with at least two columns the computing constructor
    and [compute] (on any object) fail together or give the same
    decomposition.  (For one column they differ: the constructor gives
    the coefficient vector one entry, [compute] none.) *)
Theorem constructor_agrees_with_compute
        (Size : CompileTimeSize) (this : Tridiagonalization T)
        (matrix : Matrix T) :
  2 <= cols matrix ->
  same_outcome
    (fun t1 t2 =>
       same_decomposition t1 t2
       /\ packedMatrix t1 = packedMatrix t2
       /\ matrixT t1 = matrixT t2
       /\ diagonal t1 = diagonal t2
       /\ subDiagonal t1 = subDiagonal t2)
    (Tridiagonalization_of Size matrix) (compute Size this matrix).
Proof.
  intros Hn. unfold Tridiagonalization_of, compute. cbv zeta.
  destruct (Z.eq_dec (rows matrix) (cols matrix)) as [Hsq|Hsq].
  - pose proof (@set_up_same matrix
                  (new_CoeffVector Size
                     (if cols matrix >? 1 then cols matrix - 1 else 1))
                  (resize_CoeffVector Size (m_hCoeffs this) (rows matrix - 1)))
      as H.
    destruct (ei_tridiagonalization_inplace matrix (new_CoeffVector _ _))
      as [[m1 h1]|];
      destruct (ei_tridiagonalization_inplace matrix (resize_CoeffVector _ _ _))
        as [[m2 h2]|]; cbn [same_outcome] in *;
      try (apply H; cbn [new_CoeffVector resize_CoeffVector size];
           destruct (cols matrix >? 1) eqn:E; index_props;
           [rewrite Hsq; reflexivity | lia]).
    assert (Hsame : same_decomposition (mkTridiagonalization m1 h1 true)
                      (mkTridiagonalization m2 h2 true)).
    { apply H. cbn [new_CoeffVector resize_CoeffVector size].
      destruct (cols matrix >? 1) eqn:E; index_props;
        [rewrite Hsq; reflexivity | lia]. }
    split; [assumption|].
    apply same_decomposition_accessors in Hsame. tauto.
  - unfold ei_tridiagonalization_inplace.
    destruct (rows matrix =? cols matrix) eqn:E; index_props; [contradiction|].
    cbn [negb same_outcome]. exact I.
Qed.

End Footprint.

Section Packed.
Context {T : NumTraits} {K : Kernels T}.

(** What iteration [i] leaves in column [i] and in coefficient [i]. *)
Lemma tridiag_step_column (matA : Matrix T) (hCoeffs : Vector T) (n i : Z)
      (x : Vector T) (h : Scalar) (beta : RealScalar) (a : Z) :
  rows matA = n -> cols matA = n -> 0 <= i ->
  makeHouseholderInPlace (col_tail matA i (n - i - 1)) = (x, h, beta) ->
  i + 2 <= a < n ->
  coeff (fst (tridiag_step n i (matA, hCoeffs))) a i = vcoeff x (a - i - 1).
Proof.
  intros Hr Hc Hi Hx Ha. unfold tridiag_step, phase_reflector. rewrite Hx.
  unfold phase_store, phase_update, rankUpdate_lower, set_coeff, set_col_tail.
  cbn [fst rows cols coeff]. rewrite Hr, Hc.
  index_solve. f_equal. lia.
Qed.

(** The packed format.  With [(x, h, beta)] what the reflector
    primitive returns in iteration [i], called on column [i] below the
    diagonal as the first [i] iterations left it: the result holds
    [beta] at [(i+1, i)], the entries [x(1), x(2), ..] of the reflector
    below it in column [i], and [h] as coefficient [i]; entry [(0, 0)]
    is the one of the input. *)
Theorem packed_storage (matA : Matrix T) (hCoeffs : Vector T) (n i : Z)
        (x : Vector T) (h : Scalar) (beta : RealScalar) :
  rows matA = n -> cols matA = n -> size hCoeffs = n - 1 ->
  0 <= i <= n - 2 ->
  makeHouseholderInPlace
    (col_tail (fst (tridiag_loop n (Z.to_nat i) 0 (matA, hCoeffs))) i (n - i - 1))
  = (x, h, beta) ->
  exists matA' hCoeffs',
    ei_tridiagonalization_inplace matA hCoeffs = Returned (matA', hCoeffs')
    /\ coeff matA' (i + 1) i = of_real beta
    /\ (forall a, i + 2 <= a < n -> coeff matA' a i = vcoeff x (a - i - 1))
    /\ vcoeff hCoeffs' i = h
    /\ coeff matA' 0 0 = coeff matA 0 0.
Proof.
  intros Hr Hc Hs Hi Hx.
  set (before := tridiag_loop n (Z.to_nat i) 0 (matA, hCoeffs)) in *.
  set (after := tridiag_step n i before).
  set (final := tridiag_loop n (Z.to_nat (n - 1)) 0 (matA, hCoeffs)).
  assert (Hfinal : final = tridiag_loop n (Z.to_nat (n - 2 - i)) (i + 1) after).
  { subst final after before.
    replace (Z.to_nat (n - 1))
      with (Z.to_nat i + (1 + Z.to_nat (n - 2 - i)))%nat by lia.
    rewrite tridiag_loop_split, tridiag_loop_split. cbn [tridiag_loop].
    replace (0 + Z.of_nat (Z.to_nat i)) with i by lia.
    replace (i + Z.of_nat 1) with (i + 1) by lia. reflexivity. }
  assert (Hbr : rows (fst before) = n)
    by (subst before; rewrite tridiag_loop_rows; assumption).
  assert (Hbc : cols (fst before) = n)
    by (subst before; rewrite tridiag_loop_cols; assumption).
  assert (Har : rows (fst after) = n)
    by (subst after; rewrite tridiag_step_rows; assumption).
  assert (Hac : cols (fst after) = n)
    by (subst after; rewrite tridiag_step_cols; assumption).
  assert (Has : size (snd after) = n - 1).
  { subst after before.
    rewrite tridiag_step_size, tridiag_loop_size. assumption. }
  exists (fst final), (snd final). rewrite <- surjective_pairing.
  split; [subst final; rewrite <- Hr; apply inplace_returns; lia|].
  rewrite Hfinal.
  split; [|split; [|split]].
  - rewrite tridiag_loop_coeff_frame by (auto; lia).
    subst after. rewrite (surjective_pairing before).
    apply (proj1 (@tridiag_step_stores _ _ (fst before) (snd before) n i x h beta Hx)).
  - intros a Ha. rewrite tridiag_loop_coeff_frame by (auto; lia).
    subst after. rewrite (surjective_pairing before).
    apply tridiag_step_column with (h := h) (beta := beta); auto; lia.
  - rewrite tridiag_loop_vcoeff_frame by (auto; lia).
    subst after. rewrite (surjective_pairing before).
    apply (proj2 (@tridiag_step_stores _ _ (fst before) (snd before) n i x h beta Hx)).
  - rewrite <- Hfinal. subst final.
    rewrite tridiag_loop_coeff_frame by (auto; lia). reflexivity.
Qed.

End Packed.

Section FacadeMore.
Context {T : NumTraits} {K : Kernels T}.

(** The dimensions an initialized object hands out.  The packed matrix
    is square; with [n] its order, [householderCoefficients] has
    [n - 1] entries, [matrixQ] is the sequence of [n - 1] reflectors
    stored in the packed matrix, with shift 1 and not transposed,
    [matrixT] is [n x n], [diagonal] has [n] entries and [subDiagonal]
    [n - 1]. *)
Theorem computed_object_sizes (Size : CompileTimeSize)
        (this : Tridiagonalization T) :
  Computed Size this ->
  exists n hc packed q matT d sd,
    householderCoefficients this = Returned hc /\ size hc = n - 1
    /\ packedMatrix this = Returned packed /\ rows packed = n /\ cols packed = n
    /\ matrixQ this = Returned q
    /\ hs_vectors q = packed /\ size (hs_coeffs q) = n - 1
    /\ hs_trans q = false /\ hs_actualVectors q = n - 1 /\ hs_shift q = 1
    /\ matrixT this = Returned matT /\ rows matT = n /\ cols matT = n
    /\ diagonal this = Returned d /\ rsize d = n
    /\ subDiagonal this = Returned sd /\ rsize sd = n - 1.
Proof.
  intros Hc. apply Computed_inv in Hc.
  destruct Hc as (Hinit & Hsq & Hsz & _).
  exists (rows (m_matrix this)).
  unfold householderCoefficients, packedMatrix, matrixQ, diagonal, subDiagonal.
  rewrite (matrixT_initialized this Hinit), Hinit.
  do 6 eexists.
  repeat (split; [reflexivity|]).
  split; [exact Hsz|]. repeat (split; [reflexivity|]).
  split; [symmetry; exact Hsq|]. repeat (split; [reflexivity|]).
  split; [exact Hsz|]. repeat (split; [reflexivity|]).
  split; [apply tridiagonal_of_rows|].
  split; [rewrite tridiagonal_of_cols; symmetry; exact Hsq|].
  split; [reflexivity|].
  split; [cbn [diagonal_real rsize]; lia|].
  split; reflexivity.
Qed.

(** [matrixT], [diagonal] and [subDiagonal] describe one matrix.  On
    an initialized object, for scalars on which the real part of a real
    number is that number: the real part of [T(k, k)] is [diagonal(k)],
    [T(k+1, k)] is [subDiagonal(k)], [T(k, k+1)] is its conjugate, and
    so [T(k, k+1) = conj(T(k+1, k))]. *)
Theorem matrixT_agrees_with_accessors (Size : CompileTimeSize)
        (this : Tridiagonalization T) :
  (forall b : RealScalar, ei_real (of_real b) = b) ->
  Computed Size this ->
  exists matT d sd,
    matrixT this = Returned matT
    /\ diagonal this = Returned d
    /\ subDiagonal this = Returned sd
    /\ (forall k, 0 <= k < rsize d -> ei_real (coeff matT k k) = rcoeff d k)
    /\ (forall k, 0 <= k < rsize sd ->
          coeff matT (k + 1) k = of_real (rcoeff sd k)
          /\ coeff matT k (k + 1) = ei_conj (of_real (rcoeff sd k))
          /\ coeff matT k (k + 1) = ei_conj (coeff matT (k + 1) k)).
Proof.
  intros Hlaw Hc. apply Computed_inv in Hc.
  destruct Hc as (Hinit & Hsq & Hsz & matA & hCoeffs & Hr & Hcl & Hres).
  unfold diagonal, subDiagonal.
  rewrite (matrixT_initialized this Hinit), Hinit.
  do 3 eexists. do 3 (split; [reflexivity|]).
  cbn [diagonal_real block10_diagonal_real rsize rcoeff].
  set (n := rows (m_matrix this)) in *.
  split.
  - intros k Hk. rewrite tridiagonal_of_coeff by (fold n; lia).
    destruct ((k + 1 <? k) || (k + 1 <? k))%bool eqn:E.
    + apply orb_true_iff in E. destruct E; index_props; lia.
    + destruct (k =? k + 1) eqn:E'; [index_props; lia|reflexivity].
  - intros k Hk.
    assert (Hm : m_matrix this
                 = fst (tridiag_loop (rows matA) (Z.to_nat (rows matA - 1)) 0
                          (matA, hCoeffs))) by (rewrite <- Hres; reflexivity).
    destruct (@tridiag_loop_subdiagonal _ _ matA hCoeffs (rows matA) k)
      as [beta Hbeta]; try lia.
    rewrite <- Hm in Hbeta.
    assert (Hsub : coeff (tridiagonal_of (m_matrix this)) (k + 1) k
                   = of_real (ei_real (coeff (m_matrix this) (1 + k) (0 + k)))).
    { rewrite tridiagonal_of_coeff by (fold n; lia).
      destruct ((k + 1 + 1 <? k) || (k + 1 <? k + 1))%bool eqn:E.
      - apply orb_true_iff in E. destruct E; index_props; lia.
      - destruct (k =? k + 1 + 1) eqn:E'; [index_props; lia|].
        replace (1 + k) with (k + 1) by lia. replace (0 + k) with k by lia.
        rewrite Hbeta, Hlaw. reflexivity. }
    assert (Hsup : coeff (tridiagonal_of (m_matrix this)) k (k + 1)
                   = ei_conj (of_real (ei_real (coeff (m_matrix this) (1 + k) (0 + k))))).
    { rewrite tridiagonal_of_coeff by (fold n; lia).
      destruct ((k + 1 <? k + 1) || (k + 1 + 1 <? k))%bool eqn:E.
      - apply orb_true_iff in E. destruct E; index_props; lia.
      - rewrite Z.eqb_refl.
        replace (1 + k) with (k + 1) by lia. replace (0 + k) with k by lia.
        reflexivity. }
    split; [exact Hsub|]. split; [exact Hsup|].
    rewrite Hsup, Hsub. reflexivity.
Qed.

(** The general selector and the class run the same reduction.  For a
    matrix with at least two columns they fail together, or
    [diag] is what [diagonal()] returns on [Tridiagonalization(mat)],
    [subdiag] has the length and the entries of [subDiagonal()], and
    [mat] is [packedMatrix()], or [matrixQ()] evaluated when [extractQ]
    is set.  What [diag] and [subdiag] held at the call is not read. *)
Theorem general_selector_matches_class (Size : CompileTimeSize)
        (mat : Matrix T) (diag subdiag : RealVector T) (extractQ : bool) :
  2 <= cols mat ->
  match selector_general_run Size mat diag subdiag extractQ,
        Tridiagonalization_of Size mat with
  | Returned (mat', diag', subdiag'), Returned tri =>
      diagonal tri = Returned diag'
      /\ (exists sd, subDiagonal tri = Returned sd
                     /\ rsize sd = rsize subdiag'
                     /\ forall k, rcoeff sd k = rcoeff subdiag' k)
      /\ (if extractQ
          then exists q, matrixQ tri = Returned q
                         /\ mat' = evalHouseholderSequence q
          else packedMatrix tri = Returned mat')
  | AssertionFailed, AssertionFailed => True
  | _, _ => False
  end.
Proof.
  intros Hn. unfold selector_general_run, Tridiagonalization_of. cbv zeta.
  destruct (cols mat >? 1) eqn:E; [|index_props; lia].
  destruct (ei_tridiagonalization_inplace mat
              (new_CoeffVector Size (cols mat - 1))) as [[m h]|] eqn:R;
    [|exact I].
  apply inplace_returned_inv in R. destruct R as (Hsq & Hsz & Hres).
  assert (Hm : m = fst (tridiag_loop (rows mat) (Z.to_nat (rows mat - 1)) 0
                          (mat, new_CoeffVector Size (cols mat - 1))))
    by (rewrite <- Hres; reflexivity).
  assert (Hrows : rows m = rows mat) by (rewrite Hm; apply tridiag_loop_rows).
  assert (Hcols : cols m = cols mat) by (rewrite Hm; apply tridiag_loop_cols).
  unfold diagonal, subDiagonal, matrixQ, packedMatrix.
  cbn [m_isInitialized m_matrix m_hCoeffs].
  split; [reflexivity|]. split.
  - eexists. split; [reflexivity|].
    cbn [block10_diagonal_real subdiagonal_real rsize rcoeff].
    split; [lia|]. intros k.
    replace (1 + k) with (k + 1) by lia. replace (0 + k) with k by lia.
    reflexivity.
  - destruct extractQ; [|reflexivity].
    eexists. split; reflexivity.
Qed.

(** The reduction returns exactly when both its assertions hold. *)
Lemma inplace_returns_iff (matA : Matrix T) (hCoeffs : Vector T) :
  returns (ei_tridiagonalization_inplace matA hCoeffs)
  = (rows matA =? cols matA) && (rows matA =? size hCoeffs + 1).
Proof.
  unfold ei_tridiagonalization_inplace.
  destruct (rows matA =? cols matA); [|reflexivity].
  destruct (rows matA =? size hCoeffs + 1); reflexivity.
Qed.

Lemma set_up_returns (matA : Matrix T) (hCoeffs : Vector T) :
  returns match ei_tridiagonalization_inplace matA hCoeffs with
          | AssertionFailed => AssertionFailed
          | Returned (m, h) => Returned (mkTridiagonalization m h true)
          end
  = returns (ei_tridiagonalization_inplace matA hCoeffs).
Proof.
  destruct (ei_tridiagonalization_inplace matA hCoeffs) as [[m h]|];
    reflexivity.
Qed.

(** When the class returns.  For a matrix with at least one row, of
    the dimensions its type fixes: the computing constructor returns
    exactly when the matrix is square of order at least 2; [compute]
    returns exactly when the matrix is square if the type is dynamic,
    and exactly when the order is at least 2 if it is fixed. *)
Theorem decomposition_returns_iff (Size : CompileTimeSize)
        (this : Tridiagonalization T) (matrix : Matrix T) :
  has_size Size matrix -> 1 <= rows matrix ->
  returns (Tridiagonalization_of Size matrix)
  = (rows matrix =? cols matrix) && (2 <=? cols matrix)
  /\ returns (compute Size this matrix)
     = match Size with
       | Dynamic => rows matrix =? cols matrix
       | Fixed _ => 2 <=? cols matrix
       end.
Proof.
  intros Hty Hn.
  unfold Tridiagonalization_of, compute. cbv zeta.
  rewrite !set_up_returns, !inplace_returns_iff.
  destruct Size as [|s];
    cbn [new_CoeffVector resize_CoeffVector SizeMinusOne actual_size size].
  - split.
    + destruct (rows matrix =? cols matrix) eqn:E1; [|reflexivity].
      cbn [andb]. index_props.
      destruct (cols matrix >? 1) eqn:E2; index_props.
      * transitivity true; [apply Z.eqb_eq|symmetry; apply Z.leb_le]; lia.
      * transitivity false; [apply Z.eqb_neq|symmetry; apply Z.leb_gt]; lia.
    + replace (rows matrix =? rows matrix - 1 + 1) with true
        by (symmetry; apply Z.eqb_eq; lia).
      apply andb_true_r.
  - cbn [has_size] in Hty. destruct Hty as [Hr Hc]. rewrite Hr, Hc, Z.eqb_refl.
    cbn [andb].
    destruct (s >? 1) eqn:E; cbn [actual_size size]; index_props.
    + split; (transitivity true; [apply Z.eqb_eq|symmetry; apply Z.leb_le]; lia).
    + split; (transitivity false; [apply Z.eqb_neq|symmetry; apply Z.leb_gt]; lia).
Qed.

(** The four-argument function fails on its own assertion only: for a
    matrix with at least one row, of the dimensions its type fixes, it
    returns exactly when [mat] is square of order [n], [diag] has [n]
    entries and [subdiag] has [n - 1]; the assertions of the reduction
    it calls cannot fail then. *)
Theorem dispatcher_returns_iff (Size : CompileTimeSize)
        (mat : Matrix T) (diag subdiag : RealVector T) (extractQ : bool) :
  has_size Size mat -> 1 <= rows mat ->
  returns (ei_tridiagonalization_inplace4 Size mat diag subdiag extractQ)
  = (cols mat =? rows mat) && (rsize diag =? rows mat)
    && (rsize subdiag =? rows mat - 1).
Proof.
  intros Hty Hn. unfold ei_tridiagonalization_inplace4. cbv zeta.
  destruct ((cols mat =? rows mat) && (rsize diag =? rows mat)
            && (rsize subdiag =? rows mat - 1))%bool eqn:E; cbn [negb];
    [|reflexivity].
  index_props.
  assert (Hgen : match Size with Fixed s => 2 <= s | Dynamic => True end ->
                 returns (selector_general_run Size mat diag subdiag extractQ)
                 = true).
  { intros Hs. unfold selector_general_run.
    rewrite inplace_returns;
      [destruct (tridiag_loop _ _ _ _); reflexivity|lia|].
    destruct Size as [|s]; cbn [new_CoeffVector SizeMinusOne actual_size size].
    - lia.
    - cbn [has_size] in Hty. destruct (s >? 1) eqn:E'; index_props;
        cbn [actual_size]; lia. }
  unfold selector_run. destruct Size as [|s]; [apply Hgen; exact I|].
  cbn [has_size] in Hty.
  destruct s as [|[q|q|]|q]; try reflexivity; try (apply Hgen; lia);
    destruct q as [q|q|]; try reflexivity; try (apply Hgen; lia).
Qed.

End FacadeMore.

Section LowerTriangle.
Context {T : NumTraits} {K : Kernels T}.
Hypothesis Hlocal : kernel_local.

(** One iteration on two buffers with the same lower triangle. *)
Lemma tridiag_step_lower (m1 m2 : Matrix T) (hc1 hc2 : Vector T) (n i : Z) :
  rows m1 = n -> cols m1 = n -> rows m2 = n -> cols m2 = n ->
  size hc1 = n - 1 -> size hc2 = n - 1 -> 0 <= i <= n - 2 ->
  (forall a b, 0 <= b <= a -> a < n -> coeff m1 a b = coeff m2 a b) ->
  (forall a b, 0 <= b <= a -> a < n ->
     coeff (fst (tridiag_step n i (m1, hc1))) a b
     = coeff (fst (tridiag_step n i (m2, hc2))) a b)
  /\ (forall k, i <= k < n - 1 ->
        vcoeff (snd (tridiag_step n i (m1, hc1))) k
        = vcoeff (snd (tridiag_step n i (m2, hc2))) k).
Proof.
  intros Hr1 Hc1 Hr2 Hc2 Hs1 Hs2 Hi Hm.
  destruct (Hlocal (col_tail m1 i (n - i - 1)) (col_tail m2 i (n - i - 1)))
    as (Hh & Hbeta & Hx).
  - cbn [col_tail size]. lia.
  - reflexivity.
  - intros k Hk. cbn [col_tail size vcoeff] in *. rewrite Hr1, Hr2.
    apply Hm; lia.
  - destruct (makeHouseholderInPlace (col_tail m1 i (n - i - 1)))
      as [[x1 h1] beta1] eqn:E1.
    destruct (makeHouseholderInPlace (col_tail m2 i (n - i - 1)))
      as [[x2 h2] beta2] eqn:E2.
    cbn [fst snd col_tail size] in Hh, Hbeta, Hx. subst h2 beta2.
    destruct (@tridiag_step_agree _ _ m1 m2 hc1 hc2 n i x1 x2 h1 beta1)
      as [Hin Hv]; auto.
    { intros a b Hab Ha. apply Hm; lia. }
    split; [|exact Hv].
    intros a b Hab Ha. destruct (Z_le_dec i b) as [Hb|Hb].
    + apply Hin; lia.
    + rewrite !tridiag_step_coeff_frame by (cbn [fst]; auto; lia).
      apply Hm; lia.
Qed.

Lemma tridiag_loop_lower (n : Z) (count : nat) :
  forall (i : Z) (m1 m2 : Matrix T) (hc1 hc2 : Vector T),
  rows m1 = n -> cols m1 = n -> rows m2 = n -> cols m2 = n ->
  size hc1 = n - 1 -> size hc2 = n - 1 ->
  0 <= i -> i + Z.of_nat count <= n - 1 ->
  (forall a b, 0 <= b <= a -> a < n -> coeff m1 a b = coeff m2 a b) ->
  (forall k, 0 <= k < i -> vcoeff hc1 k = vcoeff hc2 k) ->
  (forall a b, 0 <= b <= a -> a < n ->
     coeff (fst (tridiag_loop n count i (m1, hc1))) a b
     = coeff (fst (tridiag_loop n count i (m2, hc2))) a b)
  /\ (forall k, 0 <= k < i + Z.of_nat count ->
        vcoeff (snd (tridiag_loop n count i (m1, hc1))) k
        = vcoeff (snd (tridiag_loop n count i (m2, hc2))) k).
Proof.
  induction count as [|count IH];
    intros i m1 m2 hc1 hc2 Hr1 Hc1 Hr2 Hc2 Hs1 Hs2 Hi Hn Hm Hv;
    cbn [tridiag_loop].
  - split; [exact Hm|]. intros k Hk. apply Hv. lia.
  - destruct (@tridiag_step_lower m1 m2 hc1 hc2 n i) as [Hm' Hw]; auto;
      [lia|].
    rewrite (surjective_pairing (tridiag_step n i (m1, hc1))).
    rewrite (surjective_pairing (tridiag_step n i (m2, hc2))).
    destruct (IH (i + 1)
                (fst (tridiag_step n i (m1, hc1)))
                (fst (tridiag_step n i (m2, hc2)))
                (snd (tridiag_step n i (m1, hc1)))
                (snd (tridiag_step n i (m2, hc2)))) as [Hm'' Hv''];
      rewrite ?tridiag_step_rows, ?tridiag_step_cols, ?tridiag_step_size;
      auto; try lia.
    + intros k Hk. destruct (Z_lt_dec k i) as [Hlt|Hge].
      * rewrite !tridiag_step_vcoeff_frame by (cbn [snd]; auto).
        apply Hv. lia.
      * apply Hw. lia.
    + split; [exact Hm''|]. intros k Hk. apply Hv''. lia.
Qed.

(** Only the lower triangle is referenced.  For a reflector primitive
    that reads and writes only the entries of the vector it is called
    on, two buffers of the same dimensions with the same lower triangle
    (diagonal included) fail together or give results with the same
    lower triangle and the same coefficients. *)
Theorem only_lower_triangle_referenced
        (matA matB : Matrix T) (hCoeffs : Vector T) :
  rows matA = rows matB -> cols matA = cols matB ->
  (forall a b, 0 <= b <= a -> a < rows matA ->
     coeff matA a b = coeff matB a b) ->
  same_outcome
    (fun resA resB =>
       (forall a b, 0 <= b <= a -> a < rows matA ->
          coeff (fst resA) a b = coeff (fst resB) a b)
       /\ (forall k, 0 <= k < size hCoeffs ->
             vcoeff (snd resA) k = vcoeff (snd resB) k))
    (ei_tridiagonalization_inplace matA hCoeffs)
    (ei_tridiagonalization_inplace matB hCoeffs).
Proof.
  intros Hr Hc Hm. unfold ei_tridiagonalization_inplace.
  rewrite <- Hr, <- Hc.
  destruct (rows matA =? cols matA) eqn:E1; cbn [negb]; [|exact I].
  destruct (rows matA =? size hCoeffs + 1) eqn:E2; cbn [negb]; [|exact I].
  index_props. cbn [same_outcome].
  set (n := rows matA) in *.
  destruct (Z_le_dec 1 n) as [Hn|Hn].
  - destruct (@tridiag_loop_lower n (Z.to_nat (n - 1)) 0 matA matB
                hCoeffs hCoeffs) as [Hm' Hv]; auto; try lia.
    split; [exact Hm'|]. intros k Hk. apply Hv. lia.
  - replace (Z.to_nat (n - 1)) with 0%nat by lia. cbn [tridiag_loop fst snd].
    split; [exact Hm|]. intros k Hk. lia.
Qed.

End LowerTriangle.

(** The real kernel reads and writes only the entries of its vector. *)
Lemma makeHouseholder_signed_local (s : R) :
  kernel_local (K := RealKernels s).
Proof.
  intros x y Hsize Hxy Hv.
  change (makeHouseholderInPlace (Kernels := RealKernels s))
    with (makeHouseholder_signed s).
  unfold makeHouseholder_signed.
  assert (Ht : tail_squaredNorm x = tail_squaredNorm y).
  { unfold tail_squaredNorm. rewrite <- Hxy. apply Rsum_ext.
    intros j Hj. rewrite Hv by lia. reflexivity. }
  rewrite <- Ht, <- Hxy, <- (Hv 0) by lia.
  destruct (Req_dec_T (tail_squaredNorm x) 0); cbv zeta; cbn [fst snd vcoeff].
  - repeat split. 
  - repeat split. intros k Hk. rewrite <- Hv by lia. reflexivity.
Qed.

Section Selector3.
Context {T : NumTraits}.

(** What the 3x3 path reads and writes.  Two inputs with the same six
    entries [(a, b)], [b <= a <= 2], give the same [diag], the same
    [subdiag] and, when Q is asked for, the same nine entries of Q;
    when Q is not asked for the matrix is returned as it came, and
    [diag] and [subdiag] do not depend on [extractQ]. *)
Theorem selector3_footprint (mat mat2 : Matrix T) (diag subdiag : RealVector T)
        (extractQ : bool) :
  (forall a b, 0 <= b <= a -> a <= 2 -> coeff mat a b = coeff mat2 a b) ->
  let res := selector3_run mat diag subdiag extractQ in
  let res2 := selector3_run mat2 diag subdiag extractQ in
  snd (fst res) = snd (fst res2)
  /\ snd res = snd res2
  /\ (forall a b, 0 <= a <= 2 -> 0 <= b <= 2 -> extractQ = true ->
        coeff (fst (fst res)) a b = coeff (fst (fst res2)) a b)
  /\ (extractQ = false -> fst (fst res) = mat)
  /\ snd (fst res) = snd (fst (selector3_run mat diag subdiag (negb extractQ)))
  /\ snd res = snd (selector3_run mat diag subdiag (negb extractQ)).
Proof.
  intros Hm. cbv zeta. unfold selector3_run.
  rewrite <- (Hm 0 0), <- (Hm 1 0), <- (Hm 2 0), <- (Hm 1 1), <- (Hm 2 1),
    <- (Hm 2 2) by lia.
  destruct (ei_isMuchSmallerThan (ei_abs2 (coeff mat 2 0)) r1);
    destruct extractQ; cbn [fst snd negb];
    repeat (split; [try reflexivity; try discriminate|]);
    try reflexivity; try discriminate.
  all: intros a b Ha Hb _; unfold comma_init3, setIdentity; cbn [coeff];
    index_solve.
Qed.
End Selector3.

Lemma Rsum_3 (f : Z -> R) : Rsum 3 f = (f 0%Z + f 1%Z + f 2%Z)%R.
Proof.
  unfold Rsum. cbn [sum_upto Z.of_nat Pos.of_succ_nat Pos.succ].
  change (@s0 RealTraits) with 0%R. change (@sadd RealTraits) with Rplus. lra.
Qed.

(** The 3x3 path reconstructs its input.  On real scalars, with [Q] the
    matrix it returns when Q is asked for and [T] the symmetric
    tridiagonal matrix of [diag] and [subdiag]: [Q Q^t] is the identity,
    and [Q T Q^t] is the symmetric matrix that the lower triangle of the
    input stands for, but for the entries [(2, 0)] and [(0, 2)] when
    [A(2,0)^2] tested negligible, which are then zero. *)
Theorem selector3_reconstructs_input
        (mat : Matrix RealTraits) (diag subdiag : RealVector RealTraits)
        (a b : Z) :
  0 <= a <= 2 -> 0 <= b <= 2 ->
  let res := selector3_run (T := RealTraits) mat diag subdiag true in
  let Q := coeff (fst (fst res)) in
  let T := tridiagonal_entry (snd (fst res)) (snd res) in
  let dropped :=
    much_smaller (coeff mat 2 0 * coeff mat 2 0) 1
    && ((a =? 2) && (b =? 0) || (a =? 0) && (b =? 2)) in
  Q_Qt 3 Q a b = (if a =? b then 1 else 0)%R
  /\ Q_T_Qt 3 Q T a b
     = if dropped then 0%R else symmetric_view (T := RealTraits) mat a b.
Proof.
  intros Ha Hb. cbv zeta. unfold selector3_run.
  change (ei_isMuchSmallerThan (ei_abs2 (coeff mat 2 0)) r1)
    with (much_smaller (coeff mat 2 0 * coeff mat 2 0) 1).
  assert (Hca : a = 0 \/ a = 1 \/ a = 2) by lia.
  assert (Hcb : b = 0 \/ b = 1 \/ b = 2) by lia.
  clear Ha Hb.
  destruct (much_smaller (coeff mat 2 0 * coeff mat 2 0) 1) eqn:Etest.
  - unfold Q_Qt, Q_T_Qt. repeat (rewrite Rsum_3; cbv beta).
    cbn [fst snd].
    destruct Hca as [->|[->| ->]]; destruct Hcb as [->|[->| ->]];
      unfold symmetric_view;
      cbn [setIdentity coeff tridiagonal_entry Z.max Z.min
           set_rcoeff rcoeff Z.eqb Z.leb Z.compare Pos.compare Pos.compare_cont
           Pos.eqb Z.add Pos.add Pos.succ andb orb];
      cbn [RealTraits s0 s1 ei_real Scalar];
      split; ring.
  - assert (H20 : coeff mat 2 0 <> 0%R).
    { intros H0. rewrite H0 in Etest. rewrite much_smaller_zero in Etest.
      discriminate. }
    cbn [fst snd andb].
    cbn [RealTraits ei_sqrt radd ei_abs2 ei_real ei_conj of_real smul sadd ssub
         sopp rdiv r1 r2 s0 s1 Scalar RealScalar].
    set (a10 := coeff mat 1 0 : R). set (a20 := coeff mat 2 0 : R) in *.
    set (a11 := coeff mat 1 1 : R). set (a21 := coeff mat 2 1 : R).
    set (a22 := coeff mat 2 2 : R). set (a00 := coeff mat 0 0 : R).
    assert (Hpos : (0 < a10 * a10 + a20 * a20)%R) by nra.
    set (beta := sqrt (a10 * a10 + a20 * a20)).
    assert (Hsq : (beta * beta = a10 * a10 + a20 * a20)%R)
      by (apply sqrt_sqrt; lra).
    assert (Hb0 : beta <> 0%R) by (intros H0; rewrite H0 in Hsq; lra).
    assert (Hib : (beta * (1 / beta) = 1)%R) by (field; assumption).
    set (ib := (1 / beta)%R) in *.
    unfold Q_Qt, Q_T_Qt. repeat (rewrite Rsum_3; cbv beta).
    destruct Hca as [->|[->| ->]]; destruct Hcb as [->|[->| ->]];
      unfold symmetric_view;
      cbn [comma_init3 coeff tridiagonal_entry Z.max Z.min
           set_rcoeff rcoeff Z.eqb Z.leb Z.compare Pos.compare Pos.compare_cont
           Pos.eqb Z.add Pos.add Pos.succ andb];
      fold a00 a10 a20 a11 a21 a22;
      split; nsatz.
Qed.

(** What the contract says of the reflector of a vector of two entries
    whose second entry is not zero. *)
Lemma contract_two_entries (K : Kernels RealTraits) (x : Vector RealTraits) :
  reflector_contract K -> size x = 2 -> vcoeff x 1 <> 0%R ->
  let res := makeHouseholderInPlace (Kernels := K) x in
  let h := snd (fst res) in
  let v1 := vcoeff (fst (fst res)) 1 in
  (vcoeff x 0 - h * (vcoeff x 0 + v1 * vcoeff x 1) = snd res
   /\ vcoeff x 1 - h * (vcoeff x 0 + v1 * vcoeff x 1) * v1 = 0
   /\ h * (1 + v1 * v1) = 2)%R.
Proof.
  intros HK Hsize Hx1 res h v1.
  destruct (HK x ltac:(lia)) as [Hrefl Hunit]. fold res in Hrefl, Hunit.
  pose proof (Hrefl 0 ltac:(lia)) as E0.
  pose proof (Hrefl 1 ltac:(lia)) as E1.
  clear Hrefl. unfold Rsum in Hunit. rewrite Hsize in E0, E1, Hunit.
  change (Z.to_nat 2) with 2%nat in E0, E1, Hunit.
  cbn [sum_upto Z.of_nat Pos.of_succ_nat Pos.succ] in E0, E1, Hunit.
  change (spec_v (fst (fst res)) 0) with 1%R in E0, E1, Hunit.
  change (spec_v (fst (fst res)) 1) with v1 in E0, E1, Hunit.
  cbn [Z.eqb] in E0, E1. fold h in E0, E1, Hunit.
  cbn [RealTraits s0 s1 sadd smul ssub of_real Scalar] in E0, E1, Hunit.
  assert (Hh : h <> 0%R).
  { intros H0. rewrite H0 in E1. apply Hx1. lra. }
  destruct Hunit as [Hz|Hu]; [contradiction|].
  split; [refine (eq_trans _ E0); ring|].
  split; [refine (eq_trans _ E1); ring|].
  refine (eq_trans _ Hu); ring.
Qed.


(** The rank-2 update of a 2x2 symmetric block by the reflector of
    [(a10, a20)], as the loop body computes it. *)
Lemma order3_update_algebra (a10 a20 a11 a21 a22 h v1 : R) :
  (a20 - h * (a10 + v1 * a20) * v1 = 0)%R ->
  (h * (1 + v1 * v1) = 2)%R ->
  let N := (a10 * a10 + a20 * a20)%R in
  let w := (2 * a10 * a21 + a20 * (a22 - a11))%R in
  let p0 := (h * (0 + a11 * 1 + a21 * v1))%R in
  let p1 := (h * (0 + a21 * 1 + a22 * v1))%R in
  let d := (0 + p0 * 1 + p1 * v1)%R in
  let q0 := (p0 - h * / 2 * d * 1)%R in
  let q1 := (p1 - h * / 2 * d * v1)%R in
  ((a11 + - (1) * (1 * q0 + q0 * 1)) * N = a11 * N + a20 * w
   /\ (a21 + - (1) * (v1 * q0 + q1 * 1)) * N = a21 * N - a10 * w
   /\ (a22 + - (1) * (v1 * q1 + q1 * v1)) * N = a22 * N - a20 * w)%R.
Proof.
  intros E1 Hu N w p0 p1 d q0 q1. subst N w p0 p1 d q0 q1.
  assert (Hhalf : (2 * / 2 = 1)%R) by lra.
  generalize dependent (/ 2)%R. intros half Hhalf.
  repeat split; nsatz.
Qed.

(** The first iteration on a real buffer of order 3 whose entry [(2,0)]
    is not zero, for a reflector that meets the contract: the trailing
    block becomes [H S H], written here without the division by
    [N = A(1,0)^2 + A(2,0)^2]. *)
Lemma first_iteration_order3 (K : Kernels RealTraits)
      (mat : Matrix RealTraits) (hc : Vector RealTraits) :
  reflector_contract K -> rows mat = 3 -> cols mat = 3 -> size hc = 2 ->
  coeff mat 2 0 <> 0%R ->
  let beta1 := snd (makeHouseholderInPlace (Kernels := K) (col_tail mat 0 2)) in
  let m1 := fst (tridiag_step (K := K) 3 0 (mat, hc)) in
  let a10 := coeff mat 1 0 in
  let a20 := coeff mat 2 0 in
  let a11 := coeff mat 1 1 in
  let a21 := coeff mat 2 1 in
  let a22 := coeff mat 2 2 in
  let N := (a10 * a10 + a20 * a20)%R in
  let w := (2 * a10 * a21 + a20 * (a22 - a11))%R in
  coeff m1 0 0 = coeff mat 0 0
  /\ coeff m1 1 0 = beta1
  /\ (beta1 * beta1 = N)%R
  /\ (coeff m1 1 1 * N = a11 * N + a20 * w)%R
  /\ (coeff m1 2 1 * N = a21 * N - a10 * w)%R
  /\ (coeff m1 2 2 * N = a22 * N - a20 * w)%R.
Proof.
  intros HK Hrows Hcols Hsize H20 beta1 m1 a10 a20 a11 a21 a22 N w.
  set (res := makeHouseholderInPlace (Kernels := K) (col_tail mat 0 2)).
  pose proof (triple_eta res) as Hx.
  assert (Hc0 : vcoeff (col_tail mat 0 2) 0 = a10).
  { unfold col_tail. cbn [vcoeff]. rewrite Hrows. reflexivity. }
  assert (Hc1 : vcoeff (col_tail mat 0 2) 1 = a20).
  { unfold col_tail. cbn [vcoeff]. rewrite Hrows. reflexivity. }
  destruct (@contract_two_entries K (col_tail mat 0 2) HK eq_refl)
    as (E0 & E1 & Hu).
  { rewrite Hc1. exact H20. }
  fold res in E0, E1, Hu. rewrite Hc0, Hc1 in E0, E1.
  set (h := snd (fst res) : R) in *.
  set (v1 := vcoeff (fst (fst res)) 1 : R) in *.
  fold beta1 in E0.
  assert (E0' : (a10 - h * (a10 + v1 * a20) = beta1)%R) by exact E0.
  assert (E1' : (a20 - h * (a10 + v1 * a20) * v1 = 0)%R) by exact E1.
  assert (Hu' : (h * (1 + v1 * v1) = 2)%R) by exact Hu.
  clear E0 E1 Hu. unfold N, w. clear N w.
  assert (Hblock : forall a b, 0 <= b <= a -> a < 2 ->
            coeff m1 (0 + 1 + a) (0 + 1 + b)
            = spec_S_updated (spec_S mat 0) (spec_v (fst (fst res)))
                (spec_p_corrected 2
                   (spec_p 2 (spec_S mat 0) (spec_v (fst (fst res))) h)
                   (spec_v (fst (fst res))) h) a b).
  { intros a b Hab Ha. subst m1.
    apply (@tridiag_step_block RealTraits K RTheory eq_refl
             mat hc 3 0 _ _ (snd res) a b Hrows Hcols);
      [lia|lia|exact Hx|assumption|lia]. }
  split.
  { subst m1. rewrite tridiag_step_coeff_frame by (cbn [fst]; auto; lia).
    reflexivity. }
  split.
  { subst m1.
    exact (proj1 (@tridiag_step_stores RealTraits K mat hc 3 0 _ _ _ Hx)). }
  split.
  { nsatz. }
  set (S := spec_S mat 0) in *.
  set (v := spec_v (fst (fst res))) in *.
  assert (HS00 : S 0 0 = a11) by reflexivity.
  assert (HS01 : S 0 1 = a21) by reflexivity.
  assert (HS10 : S 1 0 = a21) by reflexivity.
  assert (HS11 : S 1 1 = a22) by reflexivity.
  assert (Hv0 : v 0 = 1%R) by reflexivity.
  assert (Hv1 : v 1 = v1) by reflexivity.
  split; [|split].
  - change (coeff m1 1 1) with (coeff m1 (0 + 1 + 0) (0 + 1 + 0)).
    rewrite Hblock by lia.
    unfold spec_S_updated, spec_p_corrected, spec_p.
    change (Z.to_nat 2) with 2%nat.
    cbn [sum_upto Z.of_nat Pos.of_succ_nat Pos.succ].
    rewrite HS00, HS01, HS10, HS11, Hv0, Hv1.
    cbn [RealTraits s0 s1 sadd smul ssub sopp s_half ei_conj Scalar].
    exact (proj1 (@order3_update_algebra a10 a20 a11 a21 a22 h v1 E1' Hu')).
  - change (coeff m1 2 1) with (coeff m1 (0 + 1 + 1) (0 + 1 + 0)).
    rewrite Hblock by lia.
    unfold spec_S_updated, spec_p_corrected, spec_p.
    change (Z.to_nat 2) with 2%nat.
    cbn [sum_upto Z.of_nat Pos.of_succ_nat Pos.succ].
    rewrite HS00, HS01, HS10, HS11, Hv0, Hv1.
    cbn [RealTraits s0 s1 sadd smul ssub sopp s_half ei_conj Scalar].
    exact (proj1 (proj2 (@order3_update_algebra a10 a20 a11 a21 a22 h v1 E1' Hu'))).
  - change (coeff m1 2 2) with (coeff m1 (0 + 1 + 1) (0 + 1 + 1)).
    rewrite Hblock by lia.
    unfold spec_S_updated, spec_p_corrected, spec_p.
    change (Z.to_nat 2) with 2%nat.
    cbn [sum_upto Z.of_nat Pos.of_succ_nat Pos.succ].
    rewrite HS00, HS01, HS10, HS11, Hv0, Hv1.
    cbn [RealTraits s0 s1 sadd smul ssub sopp s_half ei_conj Scalar].
    exact (proj2 (proj2 (@order3_update_algebra a10 a20 a11 a21 a22 h v1 E1' Hu'))).
Qed.

(** The two paths on every real 3x3 input whose [A(2,0)^2] is not
    negligible, for every reflector primitive that meets the contract
    of the description: the general path (dynamic matrix type) and the
    fixed 3x3 path both return, with the same diagonal, and with
    sub-diagonal entries that are equal or opposite; those of the 3x3
    path start with a non-negative one. *)
Theorem paths_agree_order3 (K : Kernels RealTraits)
        (mat : Matrix RealTraits) (diag subdiag : RealVector RealTraits) :
  reflector_contract K ->
  rows mat = 3 -> cols mat = 3 -> rsize diag = 3 -> rsize subdiag = 2 ->
  much_smaller (coeff mat 2 0 * coeff mat 2 0) 1 = false ->
  exists matG diagG subdiagG mat3 diag3 subdiag3,
    ei_tridiagonalization_inplace4 (K := K) Dynamic mat diag subdiag false
    = Returned (matG, diagG, subdiagG)
    /\ ei_tridiagonalization_inplace4 (K := K) (Fixed 3) mat diag subdiag false
       = Returned (mat3, diag3, subdiag3)
    /\ (forall k, 0 <= k < 3 -> rcoeff diagG k = rcoeff diag3 k)
    /\ (forall k, 0 <= k < 2 ->
          rcoeff subdiagG k = rcoeff subdiag3 k
          \/ rcoeff subdiagG k = (- rcoeff subdiag3 k)%R)
    /\ (0 <= rcoeff subdiag3 0)%R.
Proof.
  intros HK Hrows Hcols Hd Hs Etest.
  assert (H20 : coeff mat 2 0 <> 0%R).
  { intros H0. rewrite H0 in Etest. rewrite much_smaller_zero in Etest.
    discriminate. }
  set (hc := new_CoeffVector (T := RealTraits) Dynamic 2).
  destruct (@first_iteration_order3 K mat hc HK Hrows Hcols eq_refl H20)
    as (H00 & H10 & Hb1 & H11 & H21 & H22).
  pose proof (tridiag_step_rows (K := K) 3 0 (mat, hc)) as Hrows1.
  pose proof (tridiag_step_cols (K := K) 3 0 (mat, hc)) as Hcols1.
  pose proof (tridiag_step_size (K := K) 3 0 (mat, hc)) as Hsize1.
  destruct (tridiag_step (K := K) 3 0 (mat, hc)) as [m1 h1] eqn:E1.
  cbn [fst snd] in H00, H10, H11, H21, H22, Hrows1, Hcols1, Hsize1.
  rewrite Hrows in Hrows1. rewrite Hcols in Hcols1.
  change (size hc) with 2 in Hsize1.
  destruct (@last_iteration_order3 K m1 h1 HK Hrows1 Hcols1 Hsize1)
    as (Hframe & _ & Hsign & Hlast).
  set (m2 := fst (tridiag_step (K := K) 3 1 (m1, h1))) in *.
  assert (HrunG : ei_tridiagonalization_inplace4 (K := K) Dynamic
                    mat diag subdiag false
                  = Returned (m2, diagonal_real m2, subdiagonal_real m2)).
  { unfold ei_tridiagonalization_inplace4, selector_run, selector_general_run.
    rewrite Hrows, Hcols, Hd, Hs. cbn [Z.eqb Pos.eqb andb negb Z.sub Z.add Z.opp Z.pos_sub Pos.pred_double].
    rewrite inplace_returns by (rewrite ?Hrows, ?Hcols; reflexivity).
    rewrite Hrows. change (Z.to_nat (3 - 1)) with 2%nat.
    cbn [tridiag_loop]. fold hc. rewrite E1. change (0 + 1) with 1.
    subst m2. destruct (tridiag_step (K := K) 3 1 (m1, h1)). reflexivity. }
  set (r3 := selector3_run (T := RealTraits) mat diag subdiag false).
  assert (Hrun3 : ei_tridiagonalization_inplace4 (K := K) (Fixed 3)
                    mat diag subdiag false
                  = Returned (fst (fst r3), snd (fst r3), snd r3)).
  { unfold ei_tridiagonalization_inplace4, selector_run.
    rewrite Hrows, Hcols, Hd, Hs. rewrite <- !surjective_pairing.
    reflexivity. }
  exists m2, (diagonal_real m2), (subdiagonal_real m2),
    (fst (fst r3)), (snd (fst r3)), (snd r3).
  split; [exact HrunG|]. split; [exact Hrun3|].
  clear HrunG Hrun3. subst r3. unfold selector3_run.
  change (ei_isMuchSmallerThan (ei_abs2 (coeff mat 2 0)) r1)
    with (much_smaller (coeff mat 2 0 * coeff mat 2 0) 1).
  rewrite Etest. cbn [fst snd].
  cbn [RealTraits ei_sqrt radd ei_abs2 ei_real ei_conj of_real smul sadd ssub
       sopp rdiv r1 r2 s0 s1 Scalar RealScalar].
  set (a00 := coeff mat 0 0 : R) in *.
  set (a10 := coeff mat 1 0 : R) in *. set (a20 := coeff mat 2 0 : R) in *.
  set (a11 := coeff mat 1 1 : R) in *. set (a21 := coeff mat 2 1 : R) in *.
  set (a22 := coeff mat 2 2 : R) in *.
  assert (Hpos : (0 < a10 * a10 + a20 * a20)%R) by nra.
  set (beta := sqrt (a10 * a10 + a20 * a20)).
  assert (Hbpos : (0 <= beta)%R) by apply sqrt_pos.
  assert (Hsq : (beta * beta = a10 * a10 + a20 * a20)%R)
    by (apply sqrt_sqrt; lra).
  assert (Hb0 : beta <> 0%R) by (intros H0; rewrite H0 in Hsq; lra).
  assert (Hib : (beta * (1 / beta) = 1)%R) by (field; assumption).
  set (ib := (1 / beta)%R) in *.
  set (beta1 := snd (makeHouseholderInPlace (Kernels := K) (col_tail mat 0 2)) : R)
    in *.
  set (t11 := coeff m1 1 1 : R) in *. set (t21 := coeff m1 2 1 : R) in *.
  set (t22 := coeff m1 2 2 : R) in *.
  assert (Hb1' : (beta1 * beta1 = a10 * a10 + a20 * a20)%R) by exact Hb1.
  assert (H11' : (t11 * (a10 * a10 + a20 * a20)
                  = a11 * (a10 * a10 + a20 * a20)
                    + a20 * (2 * a10 * a21 + a20 * (a22 - a11)))%R) by exact H11.
  assert (H21' : (t21 * (a10 * a10 + a20 * a20)
                  = a21 * (a10 * a10 + a20 * a20)
                    - a10 * (2 * a10 * a21 + a20 * (a22 - a11)))%R) by exact H21.
  assert (H22' : (t22 * (a10 * a10 + a20 * a20)
                  = a22 * (a10 * a10 + a20 * a20)
                    - a20 * (2 * a10 * a21 + a20 * (a22 - a11)))%R) by exact H22.
  clear Hb1 H11 H21 H22.
  assert (G00 : coeff m2 0 0 = a00) by (rewrite (Hframe 0 0) by lia; exact H00).
  assert (G10 : coeff m2 1 0 = beta1) by (rewrite (Hframe 1 0) by lia; exact H10).
  assert (G11 : coeff m2 1 1 = t11) by (rewrite (Hframe 1 1) by lia; reflexivity).
  split; [|split].
  - intros k Hk. cbn [diagonal_real rcoeff].
    assert (Hcases : k = 0 \/ k = 1 \/ k = 2) by lia.
    destruct Hcases as [->|[->| ->]];
      cbn [set_rcoeff rcoeff Z.eqb Pos.eqb RealTraits ei_real].
    + exact G00.
    + refine (eq_trans G11 _). nsatz.
    + refine (eq_trans Hlast _). fold t22. nsatz.
  - intros k Hk. cbn [subdiagonal_real rcoeff].
    assert (Hcases : k = 0 \/ k = 1) by lia.
    destruct Hcases as [->| ->];
      cbn [set_rcoeff rcoeff Z.eqb Pos.eqb RealTraits ei_real Z.add Pos.add].
    + change (coeff m2 1 0 = beta \/ coeff m2 1 0 = (- beta)%R).
      rewrite G10.
      assert (H : ((beta1 - beta) * (beta1 + beta) = 0)%R) by nra.
      apply Rmult_integral in H. destruct H; [left|right]; lra.
    + assert (Ht : t21 = (a21 - a10 * ib * (2 * (a10 * ib) * a21
                                             + a20 * ib * (a22 - a11)))%R)
        by nsatz.
      destruct Hsign as [Hp|Hn]; [left|right].
      * refine (eq_trans Hp _). exact Ht.
      * refine (eq_trans Hn _). fold t21. rewrite Ht. reflexivity.
  - cbn [set_rcoeff rcoeff Z.eqb]. exact Hbpos.
Qed.


Section Order1.
Context {T : NumTraits} {K : Kernels T}.

(** A 1x1 matrix of dynamic type goes through the general path: the
    reduction is called with an empty coefficient vector and runs no
    iteration.  [diag(0)] is the real part of [A(0,0)], as on the 1x1
    path, and [subdiag] stays empty; the matrix is returned as it came
    when Q is not asked for, and as the evaluation of a sequence of no
    reflector when it is (the 1x1 path writes 1 at [(0,0)]). *)
Theorem order1_general_path (mat : Matrix T) (diag subdiag : RealVector T)
        (extractQ : bool) :
  rows mat = 1 -> cols mat = 1 -> rsize diag = 1 -> rsize subdiag = 0 ->
  exists matG diagG subdiagG mat1 diag1 subdiag1,
    ei_tridiagonalization_inplace4 Dynamic mat diag subdiag extractQ
    = Returned (matG, diagG, subdiagG)
    /\ ei_tridiagonalization_inplace4 (Fixed 1) mat diag subdiag extractQ
       = Returned (mat1, diag1, subdiag1)
    /\ rsize diagG = 1 /\ rsize subdiagG = 0
    /\ rcoeff diagG 0 = ei_real (coeff mat 0 0)
    /\ rcoeff diagG 0 = rcoeff diag1 0
    /\ (if extractQ
        then matG = evalHouseholderSequence
                      (mkHouseholderSequence mat
                         (vconjugate (new_CoeffVector Dynamic 0)) false 0 1)
             /\ coeff mat1 0 0 = s1
        else matG = mat /\ mat1 = mat).
Proof.
  intros Hr Hc Hd Hs.
  unfold ei_tridiagonalization_inplace4, selector_run, selector_general_run,
    selector1_run, ei_tridiagonalization_inplace.
  rewrite Hr, Hc, Hd, Hs.
  cbn [Z.eqb Pos.eqb andb negb Z.sub Z.add Z.opp Z.pos_sub new_CoeffVector
       SizeMinusOne actual_size size Z.to_nat tridiag_loop].
  rewrite Hr.
  do 6 eexists. split; [reflexivity|]. split; [reflexivity|].
  cbn [diagonal_real subdiagonal_real rsize rcoeff set_rcoeff Z.eqb].
  rewrite Hr, Hc.
  repeat (split; [reflexivity|]).
  destruct extractQ; cbn [set_coeff coeff Z.eqb andb]; split; reflexivity.
Qed.

End Order1.

Section Similarity.
Context {T : NumTraits} {K : Kernels T}.
Hypothesis scalar_ring : ring_theory s0 s1 sadd smul ssub sopp (@eq Scalar).
Hypothesis neg_half_opp : s_neg_half = (- s_half)%S.
Hypothesis two_halves : (s_half + s_half)%S = s1.
Hypothesis conj_id : forall z : Scalar, ei_conj z = z.

Add Ring scalar_ring_sim : scalar_ring.

Lemma sum_upto_zero (k : nat) : sum_upto k (fun _ => s0) = s0.
Proof.
  induction k as [|k IH]; cbn [sum_upto]; [reflexivity|]. rewrite IH. ring.
Qed.

Lemma sum_upto_add (k : nat) (f g : Z -> Scalar) :
  sum_upto k (fun j => f j + g j)%S = (sum_upto k f + sum_upto k g)%S.
Proof.
  induction k as [|k IH]; cbn [sum_upto]; [ring|]. rewrite IH. ring.
Qed.

Lemma sum_upto_mul (k : nat) (c : Scalar) (f : Z -> Scalar) :
  sum_upto k (fun j => c * f j)%S = (c * sum_upto k f)%S.
Proof.
  induction k as [|k IH]; cbn [sum_upto]; [ring|]. rewrite IH. ring.
Qed.

(** A sum against a column of the identity picks one term. *)
Lemma sum_upto_delta (k : nat) (b : Z) (f : Z -> Scalar) :
  0 <= b < Z.of_nat k ->
  sum_upto k (fun j => f j * (if b =? j then s1 else s0))%S = f b.
Proof.
  induction k as [|k IH]; intros Hb; [lia|].
  cbn [sum_upto].
  destruct (Z.eq_dec b (Z.of_nat k)) as [->|Hne].
  - rewrite Z.eqb_refl.
    rewrite (@sum_upto_ext _ _ _ (fun _ => s0)).
    + rewrite sum_upto_zero. ring.
    + intros j Hj. destruct (Z.of_nat k =? j) eqn:E; index_props; [lia|ring].
  - rewrite IH by lia.
    destruct (b =? Z.of_nat k) eqn:E; index_props; [contradiction|ring].
Qed.

(** [H S H^t] written out, for a symmetric [S]. *)
Lemma similarity_expand (r : Z) (h : Scalar) (v : Z -> Scalar)
      (S : Z -> Z -> Scalar) (a b : Z) :
  (forall j k, S j k = S k j) ->
  0 <= a < r -> 0 <= b < r ->
  let Sv := fun j => sum_upto (Z.to_nat r) (fun k => S j k * v k)%S in
  similarity r (reflector_matrix h v) S a b
  = (S a b - h * v a * Sv b - h * Sv a * v b
     + h * h * sum_upto (Z.to_nat r) (fun j => Sv j * v j) * v a * v b)%S.
Proof.
  intros Hsym Ha Hb Sv. unfold similarity, reflector_matrix.
  rewrite (@sum_upto_ext _ _ _
             (fun j => (S j b * (if a =? j then s1 else s0)
                        + (- (h * v b)) * (Sv j * (if a =? j then s1 else s0))
                        + (- (h * v a)) * (S b j * v j)
                        + (h * h * v a * v b) * (Sv j * v j))%S)).
  - rewrite !sum_upto_add, !sum_upto_mul.
    rewrite (sum_upto_delta _ (fun j => S j b)) by lia.
    rewrite (sum_upto_delta _ Sv) by lia.
    fold (Sv b). ring.
  - intros j Hj.
    rewrite (@sum_upto_ext _ _ _
               (fun k => ((if a =? j then s1 else s0) - h * v a * v j)
                         * (S j k * (if b =? k then s1 else s0))
                         + (- ((if a =? j then s1 else s0) - h * v a * v j)
                            * (h * v b)) * (S j k * v k))%S).
    + rewrite sum_upto_add, !sum_upto_mul.
      rewrite (sum_upto_delta _ (fun k => S j k)) by lia.
      fold (Sv j). rewrite (Hsym b j). ring.
    + intros k Hk. ring.
Qed.

(** With real scalars the view of the trailing block is symmetric. *)
Lemma spec_S_symmetric (matA : Matrix T) (i j k : Z) :
  spec_S matA i j k = spec_S matA i k j.
Proof.
  unfold spec_S. rewrite !conj_id.
  destruct (k <=? j) eqn:E1; destruct (j <=? k) eqn:E2; index_props;
    try reflexivity; try lia.
  replace k with j by lia. reflexivity.
Qed.

(** The comment at lines 369-370, "A = H A H' where H = I - h v v'":
    on scalars that form a commutative ring with the identity as
    conjugation and [0.5 + 0.5 = 1], one iteration leaves [H S H^t] in
    the lower triangle of the trailing block, [S] being the symmetric
    view of that block before the iteration and [v] the reflector with
    its leading 1. *)
Theorem step_is_similarity (matA : Matrix T) (hCoeffs : Vector T) (n i : Z)
        (x : Vector T) (h : Scalar) (beta : RealScalar) (a b : Z) :
  rows matA = n -> cols matA = n -> size hCoeffs = n - 1 ->
  0 <= i <= n - 2 ->
  makeHouseholderInPlace (col_tail matA i (n - i - 1)) = (x, h, beta) ->
  0 <= b <= a -> a < n - i - 1 ->
  coeff (fst (tridiag_step n i (matA, hCoeffs))) (i + 1 + a) (i + 1 + b)
  = similarity (n - i - 1) (reflector_matrix h (spec_v x)) (spec_S matA i) a b.
Proof.
  intros Hr Hc Hs Hi Hx Hab Ha.
  rewrite (@tridiag_step_block T K scalar_ring neg_half_opp
             matA hCoeffs n i x h beta a b) by assumption.
  rewrite similarity_expand by (try apply spec_S_symmetric; lia).
  unfold spec_S_updated, spec_p_corrected, spec_p. rewrite !conj_id.
  set (S := spec_S matA i). set (v := spec_v x).
  set (Sv := fun j => sum_upto (Z.to_nat (n - i - 1)) (fun k => S j k * v k)%S).
  fold (Sv a). fold (Sv b).
  rewrite (@sum_upto_ext _ (Z.to_nat (n - i - 1))
             (fun k => (h * sum_upto (Z.to_nat (n - i - 1))
                              (fun b0 => S k b0 * v b0) * v k)%S)
             (fun k => (h * (Sv k * v k))%S))
    by (intros k Hk; unfold Sv; ring).
  rewrite sum_upto_mul.
  set (D := sum_upto (Z.to_nat (n - i - 1)) (fun j => Sv j * v j)%S).
  change (sum_upto (Z.to_nat (n - i - 1))
            (fun j => sum_upto (Z.to_nat (n - i - 1))
                        (fun k => S j k * v k) * v j))%S with D.
  replace (h * h * D * v a * v b)%S
    with ((s_half + s_half) * (h * h * D * v a * v b))%S
    by (rewrite two_halves; ring).
  ring.
Qed.

End Similarity.

(** ** The reduction as a chain of similarity transforms *)

Section Chain.
Context {T : NumTraits} {K : Kernels T}.
Hypothesis scalar_ring : ring_theory s0 s1 sadd smul ssub sopp (@eq Scalar).
Hypothesis neg_half_opp : s_neg_half = (- s_half)%S.
Hypothesis two_halves : (s_half + s_half)%S = s1.
Hypothesis conj_id : forall z : Scalar, ei_conj z = z.

Add Ring scalar_ring_chain : scalar_ring.

Lemma sum_upto_split (m r : nat) (f : Z -> Scalar) :
  sum_upto (m + r) f
  = (sum_upto m f + sum_upto r (fun k => f (Z.of_nat m + k)%Z))%S.
Proof.
  induction r as [|r IH].
  - rewrite Nat.add_0_r. cbn [sum_upto]. ring.
  - rewrite Nat.add_succ_r. cbn [sum_upto]. rewrite IH.
    rewrite Nat2Z.inj_add. ring.
Qed.

(** A sum against a vector that is zero up to index [i]. *)
Lemma sum_upto_skip (n i : Z) (g V : Z -> Scalar) :
  0 <= i -> i + 1 <= n ->
  (forall k, 0 <= k <= i -> V k = s0) ->
  sum_upto (Z.to_nat n) (fun k => g k * V k)%S
  = sum_upto (Z.to_nat (n - i - 1))
      (fun k => g (i + 1 + k)%Z * V (i + 1 + k)%Z)%S.
Proof.
  intros Hi Hn HV.
  replace (Z.to_nat n) with (Z.to_nat (i + 1) + Z.to_nat (n - i - 1))%nat
    by lia.
  rewrite sum_upto_split.
  rewrite (@sum_upto_ext _ (Z.to_nat (i + 1)) _ (fun _ => s0)).
  - rewrite (sum_upto_zero scalar_ring).
    replace (Z.of_nat (Z.to_nat (i + 1))) with (i + 1) by lia. ring.
  - intros k Hk. rewrite HV by lia. ring.
Qed.

Lemma logical_symmetric (i : Z) (m : Matrix T) (a b : Z) :
  logical i m a b = logical i m b a.
Proof.
  unfold logical. rewrite (Z.min_comm b a), (Z.max_comm b a). reflexivity.
Qed.


(** One iteration, entry by entry of the lower triangle of the trailing
    block, with the products written out. *)
Lemma block_entry_expanded (m : Matrix T) (hc : Vector T) (n i : Z)
      (x : Vector T) (h : Scalar) (beta : RealScalar) (a b : Z) :
  rows m = n -> cols m = n -> size hc = n - 1 -> 0 <= i <= n - 2 ->
  makeHouseholderInPlace (col_tail m i (n - i - 1)) = (x, h, beta) ->
  0 <= b <= a -> a < n - i - 1 ->
  let S := spec_S m i in
  let v := spec_v x in
  let Sv := fun j => sum_upto (Z.to_nat (n - i - 1)) (fun k => S j k * v k)%S in
  let D := sum_upto (Z.to_nat (n - i - 1)) (fun j => Sv j * v j)%S in
  coeff (fst (tridiag_step n i (m, hc))) (i + 1 + a) (i + 1 + b)
  = (S a b - h * v a * Sv b - h * Sv a * v b + h * h * D * v a * v b)%S.
Proof.
  intros Hr Hc Hs Hi Hx Hab Ha S v Sv D.
  rewrite (@tridiag_step_block T K scalar_ring neg_half_opp
             m hc n i x h beta a b) by assumption.
  unfold spec_S_updated, spec_p_corrected, spec_p. rewrite !conj_id.
  fold S. fold v. fold (Sv a). fold (Sv b).
  rewrite (@sum_upto_ext _ (Z.to_nat (n - i - 1))
             (fun k => (h * sum_upto (Z.to_nat (n - i - 1))
                              (fun b0 => S k b0 * v b0) * v k)%S)
             (fun k => (h * (Sv k * v k))%S))
    by (intros k Hk; unfold Sv; ring).
  rewrite (sum_upto_mul scalar_ring). fold D.
  replace (h * h * D * v a * v b)%S
    with ((s_half + s_half) * (h * h * D * v a * v b))%S
    by (rewrite two_halves; ring).
  ring.
Qed.

Section Step.
Variables (m : Matrix T) (hc : Vector T) (n i : Z).
Variables (x : Vector T) (h : Scalar) (beta : RealScalar).
Hypothesis Hr : rows m = n.
Hypothesis Hc : cols m = n.
Hypothesis Hs : size hc = n - 1.
Hypothesis Hi : 0 <= i <= n - 2.
Hypothesis Hx : makeHouseholderInPlace (col_tail m i (n - i - 1)) = (x, h, beta).
Hypothesis Hrefl : reflects (col_tail m i (n - i - 1)) x h beta.

Lemma packed_reflector_low (k : Z) : k <= i -> packed_reflector (fst (tridiag_step n i (m, hc))) i k = s0.
Proof.
  intros Hk. unfold packed_reflector.
  destruct (k <=? i) eqn:E; index_props; [reflexivity|lia].
Qed.

Lemma packed_reflector_high (k : Z) :
  0 <= k < n - i - 1 -> packed_reflector (fst (tridiag_step n i (m, hc))) i (i + 1 + k) = spec_v x k.
Proof.
  intros Hk. unfold packed_reflector, spec_v.
  destruct (i + 1 + k <=? i) eqn:E1; index_props; [lia|].
  destruct (i + 1 + k =? i + 1) eqn:E2; destruct (k =? 0) eqn:E3; index_props;
    try lia; [reflexivity|].
  rewrite (@tridiag_step_column T K m hc n i x h beta (i + 1 + k)) by
    (assumption || lia).
  f_equal. lia.
Qed.

Lemma logical_block (a b : Z) :
  0 <= a -> 0 <= b -> logical i m (i + 1 + a) (i + 1 + b) = spec_S m i a b.
Proof.
  intros Ha Hb. unfold logical, spec_S. rewrite conj_id.
  destruct (Z.min (i + 1 + a) (i + 1 + b) <? i) eqn:E; index_props; [lia|].
  cbn [andb].
  destruct (b <=? a) eqn:E'; index_props.
  - rewrite Z.max_l, Z.min_r by lia. reflexivity.
  - rewrite Z.max_r, Z.min_l by lia. reflexivity.
Qed.

Lemma logical_column (k : Z) :
  0 <= k -> logical i m i (i + 1 + k) = vcoeff (col_tail m i (n - i - 1)) k.
Proof.
  intros Hk. unfold logical, col_tail. cbn [vcoeff].
  rewrite Z.max_r, Z.min_l by lia. rewrite Z.ltb_irrefl. cbn [andb].
  rewrite Hr. f_equal. lia.
Qed.

Lemma logical_reduced (a k : Z) :
  0 <= a < i -> 0 <= k -> logical i m a (i + 1 + k) = s0.
Proof.
  intros Ha Hk. unfold logical.
  rewrite Z.max_r, Z.min_l by lia.
  destruct (a <? i) eqn:E1; destruct (a + 1 <? i + 1 + k) eqn:E2; index_props;
    try lia. reflexivity.
Qed.


(** [L v] for the logical matrix and the reflector of iteration [i]:
    only the rows from [i + 1] on contribute. *)
Lemma logical_times_reflector (a : Z) :
  sum_upto (Z.to_nat n)
    (fun k => logical i m a k
              * packed_reflector (fst (tridiag_step n i (m, hc))) i k)%S
  = sum_upto (Z.to_nat (n - i - 1))
      (fun k => logical i m a (i + 1 + k)%Z * spec_v x k)%S.
Proof.
  rewrite (@sum_upto_skip n i (fun k => logical i m a k)
             (packed_reflector (fst (tridiag_step n i (m, hc))) i))
    by (try (intros k Hk; apply packed_reflector_low); lia).
  apply sum_upto_ext. intros k Hk.
  rewrite packed_reflector_high by lia. reflexivity.
Qed.

Lemma logical_times_reflector_block (a : Z) :
  0 <= a ->
  sum_upto (Z.to_nat n)
    (fun k => logical i m (i + 1 + a) k
              * packed_reflector (fst (tridiag_step n i (m, hc))) i k)%S
  = sum_upto (Z.to_nat (n - i - 1)) (fun k => spec_S m i a k * spec_v x k)%S.
Proof.
  intros Ha. rewrite logical_times_reflector.
  apply sum_upto_ext. intros k Hk. rewrite logical_block by lia. reflexivity.
Qed.

Lemma logical_times_reflector_column :
  sum_upto (Z.to_nat n)
    (fun k => logical i m i k
              * packed_reflector (fst (tridiag_step n i (m, hc))) i k)%S
  = sum_upto (Z.to_nat (n - i - 1))
      (fun k => spec_v x k * vcoeff (col_tail m i (n - i - 1)) k)%S.
Proof.
  rewrite logical_times_reflector.
  apply sum_upto_ext. intros k Hk. rewrite logical_column by lia. ring.
Qed.

Lemma logical_times_reflector_reduced (a : Z) :
  0 <= a < i ->
  sum_upto (Z.to_nat n)
    (fun k => logical i m a k
              * packed_reflector (fst (tridiag_step n i (m, hc))) i k)%S
  = s0.
Proof.
  intros Ha. rewrite logical_times_reflector.
  rewrite (@sum_upto_ext _ _ _ (fun _ => s0)).
  - apply (sum_upto_zero scalar_ring).
  - intros k Hk. rewrite logical_reduced by lia. ring.
Qed.

(** [v^t L v]. *)
Lemma reflector_times_logical_times_reflector :
  sum_upto (Z.to_nat n)
    (fun j => sum_upto (Z.to_nat n)
                (fun k => logical i m j k
                          * packed_reflector (fst (tridiag_step n i (m, hc))) i k)
              * packed_reflector (fst (tridiag_step n i (m, hc))) i j)%S
  = sum_upto (Z.to_nat (n - i - 1))
      (fun j => sum_upto (Z.to_nat (n - i - 1))
                  (fun k => spec_S m i j k * spec_v x k)
                * spec_v x j)%S.
Proof.
  rewrite (@sum_upto_skip n i
             (fun j => sum_upto (Z.to_nat n)
                         (fun k => logical i m j k
                                   * packed_reflector
                                       (fst (tridiag_step n i (m, hc))) i k)%S)
             (packed_reflector (fst (tridiag_step n i (m, hc))) i))
    by (try (intros k Hk; apply packed_reflector_low); lia).
  apply sum_upto_ext. intros j Hj.
  rewrite logical_times_reflector_block, packed_reflector_high by lia.
  reflexivity.
Qed.

(** Rows and columns up to [i] of the logical matrix are not touched. *)
Lemma logical_frame (a b : Z) :
  a <= i -> b <= i ->
  logical (i + 1) (fst (tridiag_step n i (m, hc))) a b = logical i m a b.
Proof.
  intros Ha Hb. unfold logical.
  rewrite tridiag_step_coeff_frame by (cbn [fst]; auto; lia).
  destruct (Z.min a b <? i + 1) eqn:E1; destruct (Z.min a b <? i) eqn:E2;
    destruct (Z.min a b + 1 <? Z.max a b) eqn:E3; index_props;
    cbn [andb]; try reflexivity; lia.
Qed.


(** One iteration is a similarity transform of the logical matrix by the
    reflector it leaves in the packed format; lower triangle first. *)
Lemma tridiag_step_logical_lower (a b : Z) :
  0 <= b <= a -> a < n ->
  logical (i + 1) (fst (tridiag_step n i (m, hc))) a b
  = similarity n
      (reflector_matrix h (packed_reflector (fst (tridiag_step n i (m, hc))) i))
      (logical i m) a b.
Proof.
  intros Hab Ha.
  rewrite (similarity_expand scalar_ring h
             (packed_reflector (fst (tridiag_step n i (m, hc))) i)
             (logical i m) (a := a) (b := b))
    by (try apply logical_symmetric; lia).
  cbv zeta. rewrite reflector_times_logical_times_reflector.
  destruct (Z_le_dec a i) as [Hai|Hai].
  - rewrite (packed_reflector_low (k := a)), (packed_reflector_low (k := b))
      by lia.
    rewrite logical_frame by lia. ring.
  - replace a with (i + 1 + (a - i - 1)) by lia.
    set (a' := a - i - 1). assert (Ha' : 0 <= a' < n - i - 1) by lia.
    rewrite (packed_reflector_high (k := a')) by lia.
    destruct (Z_le_dec b i) as [Hbi|Hbi].
    + rewrite (packed_reflector_low (k := b)) by lia.
      destruct (Z.eq_dec b i) as [->|Hne].
      * rewrite logical_times_reflector_column.
        rewrite (logical_symmetric i m (i + 1 + a') i), logical_column by lia.
        pose proof (@Hrefl a' ltac:(cbn [col_tail size]; lia)) as Hk.
        cbn [col_tail size] in Hk.
        transitivity (if a' =? 0 then of_real beta else s0).
        -- unfold logical. rewrite Z.max_l, Z.min_r by lia.
           destruct (i <? i + 1) eqn:E1; index_props; [|lia]. cbn [andb].
           destruct (i + 1 <? i + 1 + a') eqn:E2; destruct (a' =? 0) eqn:E3;
             index_props; try lia; [reflexivity|].
           replace (i + 1 + a') with (i + 1) by lia.
           apply (proj1 (@tridiag_step_stores T K m hc n i x h beta Hx)).
        -- rewrite <- Hk. cbn [col_tail vcoeff]. ring.
      * rewrite logical_times_reflector_reduced by lia.
        rewrite (logical_symmetric i m (i + 1 + a') b), logical_reduced by lia.
        unfold logical. rewrite Z.max_l, Z.min_r by lia.
        destruct (b <? i + 1) eqn:E1; destruct (b + 1 <? i + 1 + a') eqn:E2;
          index_props; try lia. cbn [andb]. ring.
    + replace b with (i + 1 + (b - i - 1)) by lia.
      set (b' := b - i - 1). assert (Hb' : 0 <= b' <= a') by lia.
      rewrite (packed_reflector_high (k := b')) by lia.
      rewrite !logical_times_reflector_block, logical_block by lia.
      unfold logical. rewrite Z.max_l, Z.min_r by lia.
      destruct (i + 1 + b' <? i + 1) eqn:E1; index_props; [lia|]. cbn [andb].
      apply (@block_entry_expanded m hc n i x h beta a' b'); assumption || lia.
Qed.

Lemma tridiag_step_logical (a b : Z) :
  0 <= a < n -> 0 <= b < n ->
  logical (i + 1) (fst (tridiag_step n i (m, hc))) a b
  = similarity n
      (reflector_matrix h (packed_reflector (fst (tridiag_step n i (m, hc))) i))
      (logical i m) a b.
Proof.
  intros Ha Hb. destruct (Z_le_dec b a) as [Hle|Hgt].
  - apply tridiag_step_logical_lower; lia.
  - rewrite logical_symmetric, tridiag_step_logical_lower by lia.
    rewrite !(similarity_expand scalar_ring h
                (packed_reflector (fst (tridiag_step n i (m, hc))) i)
                (logical i m))
      by (try apply logical_symmetric; lia).
    cbv zeta. rewrite (logical_symmetric i m b a). ring.
Qed.

End Step.


Lemma similarity_ext (n : Z) (H S S' : Z -> Z -> Scalar) (a b : Z) :
  (forall j k, 0 <= j < n -> 0 <= k < n -> S j k = S' j k) ->
  similarity n H S a b = similarity n H S' a b.
Proof.
  intros HS. unfold similarity.
  apply sum_upto_ext. intros j Hj. apply sum_upto_ext. intros k Hk.
  rewrite HS by lia. reflexivity.
Qed.

(** The chain of the first [c] reflectors reads the first [c] columns
    and coefficients only. *)
Lemma reflector_chain_frame (m m' : Matrix T) (hc hc' : Vector T) (n : Z)
      (c : nat) (A : Z -> Z -> Scalar) :
  (forall j k, 0 <= j < Z.of_nat c -> coeff m' k j = coeff m k j) ->
  (forall j, 0 <= j < Z.of_nat c -> vcoeff hc' j = vcoeff hc j) ->
  reflector_chain m' hc' n c A = reflector_chain m hc n c A.
Proof.
  induction c as [|c IH]; intros Hm Hh; cbn [reflector_chain].
  - reflexivity.
  - rewrite IH by (intros; (apply Hm || apply Hh); lia).
    rewrite Hh by lia.
    assert (Hv : packed_reflector m' (Z.of_nat c)
                 = packed_reflector m (Z.of_nat c)).
    { apply functional_extensionality. intros k. unfold packed_reflector.
      rewrite Hm by lia. reflexivity. }
    rewrite Hv. reflexivity.
Qed.

Lemma reflector_chain_ext (m : Matrix T) (hc : Vector T) (n : Z) (c : nat)
      (A A' : Z -> Z -> Scalar) :
  (forall j k, 0 <= j < n -> 0 <= k < n -> A j k = A' j k) ->
  forall a b, 0 <= a < n -> 0 <= b < n ->
    reflector_chain m hc n c A a b = reflector_chain m hc n c A' a b.
Proof.
  intros HA. induction c as [|c IH]; intros a b Ha Hb; cbn [reflector_chain].
  - apply HA; assumption.
  - apply similarity_ext. intros j k Hj Hk. apply IH; assumption.
Qed.

(** After [c] iterations the logical matrix is the input conjugated by
    the first [c] reflectors. *)
Lemma tridiag_loop_logical (matA : Matrix T) (hCoeffs : Vector T) (n : Z) :
  kernel_reflects ->
  rows matA = n -> cols matA = n -> size hCoeffs = n - 1 ->
  forall c : nat, Z.of_nat c <= n - 1 ->
  forall a b, 0 <= a < n -> 0 <= b < n ->
    logical (Z.of_nat c) (fst (tridiag_loop n c 0 (matA, hCoeffs))) a b
    = reflector_chain (fst (tridiag_loop n c 0 (matA, hCoeffs)))
        (snd (tridiag_loop n c 0 (matA, hCoeffs))) n c (logical 0 matA) a b.
Proof.
  intros HK Hr Hc Hs. induction c as [|c IH]; intros Hcn a b Ha Hb.
  - reflexivity.
  - replace (S c) with (c + 1)%nat by lia.
    rewrite tridiag_loop_split. cbn [tridiag_loop].
    replace (0 + Z.of_nat c) with (Z.of_nat c) by lia.
    set (st := tridiag_loop n c 0 (matA, hCoeffs)) in *.
    assert (Hstr : rows (fst st) = n)
      by (subst st; rewrite tridiag_loop_rows; assumption).
    assert (Hstc : cols (fst st) = n)
      by (subst st; rewrite tridiag_loop_cols; assumption).
    assert (Hsts : size (snd st) = n - 1)
      by (subst st; rewrite tridiag_loop_size; assumption).
    clearbody st. destruct st as [m1 h1]. cbn [fst snd] in *.
    set (i := Z.of_nat c) in *.
    replace (Z.of_nat (c + 1)) with (i + 1) by lia.
    replace (c + 1)%nat with (S c) by lia. cbn [reflector_chain]. fold i.
    pose proof (triple_eta (makeHouseholderInPlace
                              (col_tail m1 i (n - i - 1)))) as Hx.
    pose proof (HK (col_tail m1 i (n - i - 1))
                  ltac:(cbn [col_tail size]; lia)) as Hrefl.
    set (res := makeHouseholderInPlace (col_tail m1 i (n - i - 1))) in *.
    rewrite (@tridiag_step_logical m1 h1 n i
               (fst (fst res)) (snd (fst res)) (snd res))
      by (assumption || lia).
    rewrite (proj2 (@tridiag_step_stores T K m1 h1 n i _ _ _ Hx)).
    rewrite (@reflector_chain_frame m1 (fst (tridiag_step n i (m1, h1))) h1
               (snd (tridiag_step n i (m1, h1))) n c (logical 0 matA)).
    + apply similarity_ext. intros j k Hj Hk. apply IH; lia.
    + intros j k Hj. apply tridiag_step_coeff_frame; cbn [fst]; auto. lia.
    + intros j Hj. apply tridiag_step_vcoeff_frame; cbn [snd]; auto. lia.
Qed.

(** The loop's result, read as a tridiagonal matrix, is the chain of
    similarity transforms of the input's symmetric reading. *)
Lemma tridiag_loop_is_chain (matA : Matrix T) (hCoeffs : Vector T) (a b : Z) :
  kernel_reflects ->
  rows matA = cols matA -> rows matA = size hCoeffs + 1 ->
  0 <= a < rows matA -> 0 <= b < rows matA ->
  let res := tridiag_loop (rows matA) (Z.to_nat (rows matA - 1)) 0
               (matA, hCoeffs) in
  tridiagonal_view (fst res) a b
  = reflector_chain (fst res) (snd res) (rows matA)
      (Z.to_nat (rows matA - 1)) (symmetric_view matA) a b.
Proof.
  intros HK Hsq Hsz Ha Hb. set (n := rows matA) in *. cbv zeta.
  transitivity (logical (Z.of_nat (Z.to_nat (n - 1)))
                  (fst (tridiag_loop n (Z.to_nat (n - 1)) 0 (matA, hCoeffs)))
                  a b).
  - unfold logical, tridiagonal_view.
    destruct (Z.min a b <? Z.of_nat (Z.to_nat (n - 1))) eqn:E1;
      destruct (Z.min a b + 1 <? Z.max a b) eqn:E2; index_props;
      cbn [andb]; try reflexivity. lia.
  - rewrite (@tridiag_loop_logical matA hCoeffs n) by (auto; lia).
    apply reflector_chain_ext; try assumption.
    intros j k Hj Hk. unfold logical, symmetric_view.
    destruct (Z.min j k <? 0) eqn:E; index_props; [lia|reflexivity].
Qed.

(** The reduction is a chain of reflector similarity transforms (lines
    338-347).  On scalars that form a commutative ring with the identity
    as conjugation and [0.5 + 0.5 = 1], for a reflector primitive whose
    result reflects its vector ([(I - h v v^t) x = beta e1]): the
    symmetric tridiagonal matrix [T] with the diagonal and the
    sub-diagonal of the packed result is
    [H_(n-2) (.. (H_0 A H_0^t) ..) H_(n-2)^t], where [A] is the
    symmetric matrix that the lower triangle of the input stands for and
    [H_j = I - h_j v_j v_j^t] is read from the packed result:
    [h_j = hCoeffs(j)] and
    [v_j = (0, .., 0, 1, matA(j+2, j), .., matA(n-1, j))]. *)
Theorem reduction_is_reflector_chain (matA : Matrix T) (hCoeffs : Vector T) :
  kernel_reflects ->
  rows matA = cols matA -> rows matA = size hCoeffs + 1 ->
  exists matA' hCoeffs',
    ei_tridiagonalization_inplace matA hCoeffs = Returned (matA', hCoeffs')
    /\ forall a b, 0 <= a < rows matA -> 0 <= b < rows matA ->
         tridiagonal_view matA' a b
         = reflector_chain matA' hCoeffs' (rows matA)
             (Z.to_nat (rows matA - 1)) (symmetric_view matA) a b.
Proof.
  intros HK Hsq Hsz.
  exists (fst (tridiag_loop (rows matA) (Z.to_nat (rows matA - 1)) 0
                 (matA, hCoeffs))),
    (snd (tridiag_loop (rows matA) (Z.to_nat (rows matA - 1)) 0
            (matA, hCoeffs))).
  rewrite <- surjective_pairing.
  split; [apply inplace_returns; assumption|].
  intros a b Ha Hb. apply tridiag_loop_is_chain; assumption.
Qed.

Hypothesis of_real_real : forall z : Scalar, of_real (ei_real z) = z.

(** The same for the object a constructor or [compute] call sets up. *)
Lemma set_up_is_chain (matA : Matrix T) (hCoeffs : Vector T)
      (tri : Tridiagonalization T) :
  kernel_reflects ->
  match ei_tridiagonalization_inplace matA hCoeffs with
  | AssertionFailed => AssertionFailed
  | Returned (m, h) => Returned (mkTridiagonalization m h true)
  end = Returned tri ->
  exists matT,
    matrixT tri = Returned matT
    /\ rows matT = rows matA /\ cols matT = rows matA
    /\ forall a b, 0 <= a < rows matA -> 0 <= b < rows matA ->
         coeff matT a b
         = reflector_chain (m_matrix tri) (m_hCoeffs tri) (rows matA)
             (Z.to_nat (rows matA - 1)) (symmetric_view matA) a b.
Proof.
  intros HK Hrun.
  destruct (ei_tridiagonalization_inplace matA hCoeffs) as [[m h]|] eqn:E;
    [|discriminate].
  apply inplace_returned_inv in E as (Hsq & Hsz & Hloop).
  injection Hrun as <-. cbn [m_matrix m_hCoeffs].
  assert (Hrows : rows m = rows matA).
  { replace m with (fst (m, h)) by reflexivity. rewrite Hloop.
    apply tridiag_loop_rows. }
  assert (Hcols : cols m = rows matA).
  { replace m with (fst (m, h)) by reflexivity. rewrite Hloop.
    rewrite tridiag_loop_cols. symmetry. exact Hsq. }
  exists (tridiagonal_of m).
  split; [apply matrixT_initialized; reflexivity|].
  split; [rewrite tridiagonal_of_rows; exact Hrows|].
  split; [rewrite tridiagonal_of_cols; exact Hcols|].
  intros a b Ha Hb.
  rewrite tridiagonal_of_coeff by (rewrite ?Hrows, ?Hcols; auto).
  rewrite conj_id, of_real_real.
  pose proof (@tridiag_loop_is_chain matA hCoeffs a b HK Hsq Hsz Ha Hb) as Hc.
  cbv zeta in Hc. rewrite <- Hloop in Hc. cbn [fst snd] in Hc.
  rewrite <- Hc. unfold tridiagonal_view.
  destruct (a + 1 <? b) eqn:E1; destruct (b + 1 <? a) eqn:E2;
    destruct (b =? a + 1) eqn:E3;
    destruct (Z.min a b + 1 <? Z.max a b) eqn:E4; index_props;
    cbn [orb]; try reflexivity; try lia.
  - replace (Z.max a b) with (a + 1) by lia.
    replace (Z.min a b) with a by lia. reflexivity.
  - destruct (Z.max_spec a b) as [[? ->]|[? ->]];
      destruct (Z.min_spec a b) as [[? ->]|[? ->]]; try lia; try reflexivity.
Qed.

(** [matrixT()] of a computed decomposition is the similarity transform
    of the input (lines 127-134, 153-160 and 312-328).  On scalars that
    form a commutative ring with the identity as conjugation and as
    real part and [0.5 + 0.5 = 1], for a reflector primitive whose result
    reflects its vector: after the constructor from [matrix], or after
    [compute(matrix)] on any object, [matrixT()] returns a matrix of the
    order [n] of the input whose every entry is that of
    [H_(n-2) (.. (H_0 A H_0^t) ..) H_(n-2)^t], where [A] is the symmetric
    matrix that the lower triangle of [matrix] stands for and the [H_j]
    are read from [packedMatrix()] and [householderCoefficients()]. *)
Theorem matrixT_is_reflector_chain (Size : CompileTimeSize)
        (this : Tridiagonalization T) (matrix : Matrix T)
        (tri : Tridiagonalization T) :
  kernel_reflects ->
  Tridiagonalization_of Size matrix = Returned tri
  \/ compute Size this matrix = Returned tri ->
  exists matT,
    matrixT tri = Returned matT
    /\ rows matT = rows matrix /\ cols matT = rows matrix
    /\ forall a b, 0 <= a < rows matrix -> 0 <= b < rows matrix ->
         coeff matT a b
         = reflector_chain (m_matrix tri) (m_hCoeffs tri) (rows matrix)
             (Z.to_nat (rows matrix - 1)) (symmetric_view matrix) a b.
Proof.
  intros HK [Hrun|Hrun]; eapply set_up_is_chain; eauto.
Qed.
End Chain.

Section Gram.
Context {T : NumTraits}.
Hypothesis scalar_ring : ring_theory s0 s1 sadd smul ssub sopp (@eq Scalar).

Add Ring scalar_ring_gram : scalar_ring.

(** [H H^t] written out, for [H = I - h v v^t]. *)
Lemma reflector_gram (n : Z) (h : Scalar) (v : Z -> Scalar) (a b : Z) :
  0 <= a < n -> 0 <= b < n ->
  sum_upto (Z.to_nat n)
    (fun k => reflector_matrix h v a k * reflector_matrix h v b k)%S
  = ((if a =? b then s1 else s0) - h * v a * v b - h * v a * v b
     + h * h * sum_upto (Z.to_nat n) (fun k => v k * v k) * v a * v b)%S.
Proof.
  intros Ha Hb. unfold reflector_matrix.
  rewrite (@sum_upto_ext _ _ _
             (fun k => ((if a =? k then s1 else s0)
                        * (if b =? k then s1 else s0)
                        + (- (h * v a)) * (v k * (if b =? k then s1 else s0))
                        + (- (h * v b)) * (v k * (if a =? k then s1 else s0))
                        + (h * h * v a * v b) * (v k * v k))%S))
    by (intros k Hk; ring).
  rewrite !(sum_upto_add scalar_ring), !(sum_upto_mul scalar_ring).
  rewrite (sum_upto_delta scalar_ring _ (fun k => if a =? k then s1 else s0))
    by lia.
  rewrite !(sum_upto_delta scalar_ring _ v) by lia.
  ring.
Qed.

End Gram.

(** Every reflector of the packed result is orthogonal.  On real
    scalars, for a reflector primitive that meets the contract of the
    description ([h = 0] or [h (v^t v) = 2]): with
    [H_j = I - h_j v_j v_j^t] read from the packed result as above,
    [H_j H_j^t] is the identity for every [j] in [0 .. n-2]. *)
Theorem packed_reflectors_orthogonal (K : Kernels RealTraits)
        (matA : Matrix RealTraits) (hCoeffs : Vector RealTraits) (j a b : Z) :
  reflector_contract K ->
  rows matA = cols matA -> rows matA = size hCoeffs + 1 ->
  0 <= j <= rows matA - 2 -> 0 <= a < rows matA -> 0 <= b < rows matA ->
  exists matA' hCoeffs',
    ei_tridiagonalization_inplace (K := K) matA hCoeffs
    = Returned (matA', hCoeffs')
    /\ Q_Qt (Z.to_nat (rows matA))
         (reflector_matrix (T := RealTraits) (vcoeff hCoeffs' j)
            (packed_reflector matA' j)) a b
       = (if a =? b then 1 else 0)%R.
Proof.
  intros HK Hsq Hsz Hj Ha Hb. set (n := rows matA) in *.
  set (before := tridiag_loop (K := K) n (Z.to_nat j) 0 (matA, hCoeffs)).
  set (after := tridiag_step (K := K) n j before).
  set (final := tridiag_loop (K := K) n (Z.to_nat (n - 1)) 0 (matA, hCoeffs)).
  assert (Hfinal : final = tridiag_loop n (Z.to_nat (n - 2 - j)) (j + 1) after).
  { subst final after before.
    replace (Z.to_nat (n - 1))
      with (Z.to_nat j + (1 + Z.to_nat (n - 2 - j)))%nat by lia.
    rewrite tridiag_loop_split, tridiag_loop_split. cbn [tridiag_loop].
    replace (0 + Z.of_nat (Z.to_nat j)) with j by lia.
    replace (j + Z.of_nat 1) with (j + 1) by lia. reflexivity. }
  assert (Hbr : rows (fst before) = n)
    by (subst before; rewrite tridiag_loop_rows; reflexivity).
  assert (Hbc : cols (fst before) = n)
    by (subst before; rewrite tridiag_loop_cols; symmetry; assumption).
  assert (Har : rows (fst after) = n)
    by (subst after; rewrite tridiag_step_rows; assumption).
  assert (Hac : cols (fst after) = n)
    by (subst after; rewrite tridiag_step_cols; assumption).
  assert (Has : size (snd after) = n - 1).
  { subst after before. rewrite tridiag_step_size, tridiag_loop_size.
    cbn [snd]. lia. }
  exists (fst final), (snd final). rewrite <- surjective_pairing.
  split; [subst final; apply inplace_returns; assumption|].
  set (xin := col_tail (fst before) j (n - j - 1)).
  pose proof (triple_eta (makeHouseholderInPlace (Kernels := K) xin)) as Hx.
  destruct (HK xin ltac:(cbn [xin col_tail size]; lia)) as [_ Hunit].
  set (res := makeHouseholderInPlace (Kernels := K) xin) in *.
  assert (Hh : vcoeff (snd final) j = snd (fst res)).
  { rewrite Hfinal, tridiag_loop_vcoeff_frame by (auto; lia).
    subst after. rewrite (surjective_pairing before).
    apply (proj2 (@tridiag_step_stores RealTraits K (fst before) (snd before)
                    n j _ _ _ Hx)). }
  assert (Hv : packed_reflector (fst final) j
               = packed_reflector (fst after) j).
  { apply functional_extensionality. intros k. unfold packed_reflector.
    rewrite Hfinal, tridiag_loop_coeff_frame by (auto; lia). reflexivity. }
  rewrite Hh, Hv. unfold Q_Qt, Rsum.
  rewrite (@reflector_gram RealTraits RTheory n _ _ a b) by lia.
  subst after. rewrite (surjective_pairing before).
  rewrite (@sum_upto_skip RealTraits RTheory n j
             (packed_reflector
                (fst (tridiag_step n j (fst before, snd before))) j)
             (packed_reflector
                (fst (tridiag_step n j (fst before, snd before))) j))
    by (try (intros k Hk; apply packed_reflector_low); lia).
  rewrite (@sum_upto_ext RealTraits _ _
             (fun k => spec_v (T := RealTraits) (fst (fst res)) k
                       * spec_v (T := RealTraits) (fst (fst res)) k)%R)
    by (intros k Hk;
        rewrite (@packed_reflector_high RealTraits K (fst before) (snd before)
                   n j _ _ _ Hbr Hbc Hj Hx k) by lia;
        reflexivity).
  unfold Rsum in Hunit. cbn [xin col_tail size] in Hunit.
  cbn [RealTraits s0 s1 sadd smul ssub sopp Scalar].
  set (N := sum_upto (T := RealTraits) (Z.to_nat (n - j - 1))
              (fun k => spec_v (T := RealTraits) (fst (fst res)) k
                        * spec_v (T := RealTraits) (fst (fst res)) k)%R : R)
    in *.
  set (h := snd (fst res) : R) in *.
  set (va := packed_reflector
               (fst (tridiag_step n j (fst before, snd before))) j a : R).
  set (vb := packed_reflector
               (fst (tridiag_step n j (fst before, snd before))) j b : R).
  assert (Hcases : h = 0%R \/ (h * N = 2)%R) by exact Hunit.
  change (((if a =? b then 1 else 0) - h * va * vb - h * va * vb
           + h * h * N * va * vb)%R
          = (if a =? b then 1%R else 0%R)).
  clearbody N h va vb.
  destruct Hcases as [Hz|Hu].
  - rewrite Hz. destruct (a =? b); ring.
  - destruct (a =? b); nsatz.
Qed.


(** ** The 3x3 path on complex scalars *)

Lemma Csum_3 (f : Z -> R * R) :
  sum_upto (T := ComplexTraits) 3 f
  = Cadd (Cadd (Cadd (0, 0)%R (f 0)) (f 1)) (f 2).
Proof. reflexivity. Qed.

Lemma pair_eq_iff (x y : R * R) : x = y <-> fst x = fst y /\ snd x = snd y.
Proof.
  destruct x as [x1 x2], y as [y1 y2]. cbn [fst snd]. split.
  - intros H. inversion H. split; reflexivity.
  - intros [-> ->]. reflexivity.
Qed.

(** On complex scalars the matrix Q of the 3x3 path is unitary exactly
    when [conj(A(1,0)) A(2,0)] is real: for an input whose
    [|A(2,0)|^2] is not negligible, [Q Q^*] is the identity if and only
    if the imaginary part of [conj(A(1,0)) A(2,0)] is zero. *)
Theorem selector3_complex_unitary_iff
        (mat : Matrix ComplexTraits) (diag subdiag : RealVector ComplexTraits) :
  ei_isMuchSmallerThan (ei_abs2 (coeff mat 2 0)) r1 = false ->
  let Q := coeff (fst (fst (selector3_run (T := ComplexTraits)
                              mat diag subdiag true))) in
  (forall a b, 0 <= a <= 2 -> 0 <= b <= 2 ->
     Q_Qstar 3 Q a b = if a =? b then (1, 0)%R else (0, 0)%R)
  <-> snd (Cmul (Cconj (coeff mat 1 0)) (coeff mat 2 0)) = 0%R.
Proof.
  intros Etest. cbv zeta. unfold selector3_run. rewrite Etest. cbn [fst snd].
  assert (H20 : coeff mat 2 0 <> (0, 0)%R).
  { intros H0. rewrite H0 in Etest.
    change (much_smaller (0 * 0 + 0 * 0) 1 = false) in Etest.
    replace (0 * 0 + 0 * 0)%R with (0 * 0)%R in Etest by ring.
    rewrite much_smaller_zero in Etest. discriminate. }
  destruct (coeff mat 1 0) as [x1 y1] eqn:E10.
  destruct (coeff mat 2 0) as [x2 y2] eqn:E20.
  assert (Hnz : (x2 * x2 + y2 * y2 <> 0)%R).
  { intros Hz. apply H20. assert (x2 = 0%R) by nra. assert (y2 = 0%R) by nra.
    subst. reflexivity. }
  cbn [ComplexTraits ei_sqrt radd ei_abs2 ei_real ei_conj of_real smul sadd ssub
       sopp rdiv r1 r2 s0 s1 Scalar RealScalar fst snd].
  set (N := (x1 * x1 + y1 * y1 + (x2 * x2 + y2 * y2))%R).
  assert (Hpos : (0 < N)%R) by (subst N; nra).
  set (beta := sqrt N).
  assert (Hsq : (beta * beta = N)%R) by (apply sqrt_sqrt; lra).
  assert (Hb0 : beta <> 0%R) by (intros H0; rewrite H0 in Hsq; lra).
  assert (Hib : (beta * (1 / beta) = 1)%R) by (field; assumption).
  set (ib := (1 / beta)%R) in *.
  unfold N in Hsq. clear Hpos. clearbody beta. clear N.
  split.
  - intros H. pose proof (H 1 2 ltac:(lia) ltac:(lia)) as H12.
    unfold Q_Qstar in H12. rewrite Csum_3 in H12.
    cbn [comma_init3 coeff Z.eqb Pos.eqb andb] in H12.
    apply pair_eq_iff in H12. destruct H12 as [_ Him].
    unfold Cadd, Cmul, Cconj, Copp in *. cbn [fst snd] in *.
    assert (Hib2 : (ib * ib <> 0)%R) by nra.
    assert (Hz : (ib * ib * (x1 * y2 + - y1 * x2) = 0)%R) by nra.
    apply Rmult_integral in Hz. destruct Hz; [contradiction|assumption].
  - intros Him a b Ha Hb.
    assert (Hca : a = 0 \/ a = 1 \/ a = 2) by lia.
    assert (Hcb : b = 0 \/ b = 1 \/ b = 2) by lia.
    unfold Q_Qstar. rewrite Csum_3.
    unfold Cmul, Cconj in Him. cbn [fst snd] in Him.
    destruct Hca as [->|[->| ->]]; destruct Hcb as [->|[->| ->]];
      cbn [comma_init3 coeff Z.eqb Pos.eqb andb];
      apply pair_eq_iff; unfold Cadd, Cmul, Cconj, Copp; cbn [fst snd];
      split; nsatz.
Qed.


(** * The further properties on concrete inputs *)

Lemma A3_upper_lower_triangle (a b : Z) :
  0 <= b <= a -> a <= 2 -> coeff A3 a b = coeff A3_upper a b.
Proof.
  intros Hab Ha.
  assert (Hca : a = 0 \/ a = 1 \/ a = 2) by lia.
  assert (Hcb : b = 0 \/ b = 1 \/ b = 2) by lia.
  destruct Hca as [->|[->| ->]]; destruct Hcb as [->|[->| ->]];
    try lia; reflexivity.
Qed.

Lemma real_two_halves : (/ 2 + / 2 = 1)%R.
Proof. lra. Qed.

Lemma hCoeffs_is_output_only_witness :
  exists matA1 h1 matA2 h2,
    ei_tridiagonalization_inplace (K := RealKernels (-1)) A3
      (new_CoeffVector Dynamic 2) = Returned (matA1, h1)
    /\ ei_tridiagonalization_inplace (K := RealKernels (-1)) A3 ones2
       = Returned (matA2, h2)
    /\ matA1 = matA2 /\ vcoeff h1 0 = vcoeff h2 0 /\ vcoeff h1 1 = vcoeff h2 1.
Proof.
  pose proof (@hCoeffs_is_output_only RealTraits (RealKernels (-1)) A3
                (new_CoeffVector Dynamic 2) ones2 eq_refl) as H.
  rewrite !inplace_returns in H by reflexivity.
  rewrite !inplace_returns by reflexivity.
  destruct (tridiag_loop _ _ _ (A3, new_CoeffVector Dynamic 2)) as [matA1 h1]
    eqn:E1.
  destruct (tridiag_loop _ _ _ (A3, ones2)) as [matA2 h2] eqn:E2.
  destruct H as (Hm & Hs & Hv).
  assert (Hsize : size h1 = 2).
  { change h1 with (snd (matA1, h1)). rewrite <- E1, tridiag_loop_size.
    reflexivity. }
  exists matA1, h1, matA2, h2.
  split; [reflexivity|]. split; [reflexivity|]. split; [exact Hm|].
  split; apply Hv; lia.
Defined.

Lemma constructor_agrees_with_compute_witness :
  exists t1,
    Tridiagonalization_of (K := RealKernels (-1)) Dynamic A3 = Returned t1
    /\ matrixT t1 = matrixT decomposition_A3
    /\ diagonal t1 = diagonal decomposition_A3
    /\ subDiagonal t1 = subDiagonal decomposition_A3.
Proof.
  pose proof (@constructor_agrees_with_compute RealTraits (RealKernels (-1))
                Dynamic
                (Tridiagonalization_sized Dynamic (default_size Dynamic)) A3
                ltac:(cbn; lia)) as H.
  rewrite compute_A3 in H. unfold same_outcome in H.
  destruct (Tridiagonalization_of Dynamic A3) as [t1|]; [|contradiction].
  exists t1. split; [reflexivity|]. tauto.
Defined.

Lemma packed_storage_witness :
  let res := makeHouseholder_signed (-1) (col_tail A3 0 2) in
  exists matA' hCoeffs',
    ei_tridiagonalization_inplace (K := RealKernels (-1)) A3
      (new_CoeffVector Dynamic 2) = Returned (matA', hCoeffs')
    /\ coeff matA' 1 0 = snd res
    /\ coeff matA' 2 0 = vcoeff (fst (fst res)) 1
    /\ vcoeff hCoeffs' 0 = snd (fst res)
    /\ coeff matA' 0 0 = 4%R.
Proof.
  cbv zeta.
  destruct (@packed_storage RealTraits (RealKernels (-1)) A3
              (new_CoeffVector Dynamic 2) 3 0 _ _ _
              eq_refl eq_refl eq_refl ltac:(lia)
              (triple_eta (makeHouseholder_signed (-1) (col_tail A3 0 2))))
    as (matA' & hCoeffs' & Hrun & Hbeta & Htail & Hh & H00).
  exists matA', hCoeffs'. split; [exact Hrun|]. split; [exact Hbeta|].
  split; [exact (Htail 2 ltac:(lia))|]. split; [exact Hh|exact H00].
Defined.

Lemma only_lower_triangle_referenced_witness :
  exists resA resB,
    ei_tridiagonalization_inplace (K := RealKernels (-1)) A3
      (new_CoeffVector Dynamic 2) = Returned resA
    /\ ei_tridiagonalization_inplace (K := RealKernels (-1)) A3_upper
         (new_CoeffVector Dynamic 2) = Returned resB
    /\ coeff (fst resA) 1 1 = coeff (fst resB) 1 1
    /\ coeff (fst resA) 1 0 = coeff (fst resB) 1 0
    /\ vcoeff (snd resA) 0 = vcoeff (snd resB) 0.
Proof.
  pose proof (@only_lower_triangle_referenced RealTraits (RealKernels (-1))
                (makeHouseholder_signed_local (-1))
                A3 A3_upper (new_CoeffVector Dynamic 2) eq_refl eq_refl
                (fun a b Hab Ha =>
                   A3_upper_lower_triangle Hab ltac:(cbn in Ha; lia))) as H.
  rewrite !inplace_returns in H by reflexivity.
  rewrite !inplace_returns by reflexivity.
  cbn [same_outcome] in H. destruct H as [Hm Hv].
  do 2 eexists. split; [reflexivity|]. split; [reflexivity|].
  split; [apply Hm; cbn; lia|]. split; [apply Hm; cbn; lia|].
  apply Hv. cbn. lia.
Defined.

Lemma computed_object_sizes_witness :
  exists d sd,
    diagonal decomposition_A3 = Returned d /\ rsize d = 3
    /\ subDiagonal decomposition_A3 = Returned sd /\ rsize sd = 2.
Proof.
  destruct (@computed_object_sizes RealTraits (RealKernels (-1)) Dynamic
              decomposition_A3 (@Computed_by_compute _ _ _ _ _ _ compute_A3))
    as (n & hc & packed & q & matT & d & sd
        & _ & _ & Hp & Hrows & _ & _ & _ & _ & _ & _ & _ & _ & _ & _
        & Hd & Hdn & Hsd & Hsdn).
  assert (Hn : n = 3).
  { inversion Hp as [Hpacked]. rewrite <- Hrows, <- Hpacked.
    apply decomposition_A3_rows. }
  exists d, sd. rewrite Hn in Hdn, Hsdn.
  split; [exact Hd|]. split; [exact Hdn|]. split; [exact Hsd|exact Hsdn].
Defined.

Lemma matrixT_agrees_with_accessors_witness :
  exists matT sd,
    matrixT decomposition_A3 = Returned matT
    /\ subDiagonal decomposition_A3 = Returned sd
    /\ coeff matT 1 0 = rcoeff sd 0
    /\ coeff matT 0 1 = coeff matT 1 0.
Proof.
  destruct (@matrixT_agrees_with_accessors RealTraits (RealKernels (-1))
              Dynamic decomposition_A3 (fun b => eq_refl)
              (@Computed_by_compute _ _ _ _ _ _ compute_A3))
    as (matT & d & sd & HT & _ & Hsd & _ & Hsub).
  assert (Hsize : rsize sd = 2).
  { pose proof (f_equal (fun o => match o with
                                  | Returned v => rsize v
                                  | AssertionFailed => 0
                                  end) Hsd) as Hs.
    change (rows (m_matrix decomposition_A3) - 1 = rsize sd) in Hs.
    rewrite decomposition_A3_rows in Hs. symmetry. exact Hs. }
  destruct (Hsub 0 ltac:(lia)) as (H10 & _ & H01).
  exists matT, sd. split; [exact HT|]. split; [exact Hsd|].
  split; [exact H10|exact H01].
Defined.

Lemma general_selector_matches_class_witness :
  exists mat' diag' subdiag' tri,
    selector_general_run (K := RealKernels (-1)) Dynamic A3 (zeros 3) (zeros 2)
      false = Returned (mat', diag', subdiag')
    /\ Tridiagonalization_of (K := RealKernels (-1)) Dynamic A3 = Returned tri
    /\ diagonal tri = Returned diag'
    /\ packedMatrix tri = Returned mat'.
Proof.
  pose proof (@general_selector_matches_class RealTraits (RealKernels (-1))
                Dynamic A3 (zeros 3) (zeros 2) false ltac:(cbn; lia)) as H.
  destruct (selector_general_run Dynamic A3 (zeros 3) (zeros 2) false)
    as [[[mat' diag'] subdiag']|] eqn:E.
  - destruct (Tridiagonalization_of Dynamic A3) as [tri|]; [|contradiction].
    destruct H as (Hd & _ & Hp).
    exists mat', diag', subdiag', tri.
    split; [reflexivity|]. split; [reflexivity|]. split; assumption.
  - exfalso. unfold selector_general_run in E.
    rewrite inplace_returns in E by reflexivity.
    destruct (tridiag_loop _ _ _ _) in E. discriminate E.
Defined.

Lemma decomposition_returns_iff_witness :
  returns (Tridiagonalization_of (K := RealKernels (-1)) Dynamic A3) = true
  /\ returns (compute (K := RealKernels (-1)) Dynamic
                (Tridiagonalization_sized Dynamic (default_size Dynamic)) A3)
     = true
  /\ returns (Tridiagonalization_of (K := RealKernels (-1)) Dynamic A23) = false
  /\ returns (Tridiagonalization_of (K := RealKernels (-1)) Dynamic A1_seven)
     = false.
Proof.
  destruct (@decomposition_returns_iff RealTraits (RealKernels (-1)) Dynamic
              (Tridiagonalization_sized Dynamic (default_size Dynamic)) A3
              I ltac:(cbn; lia)) as [H1 H2].
  destruct (@decomposition_returns_iff RealTraits (RealKernels (-1)) Dynamic
              (Tridiagonalization_sized Dynamic (default_size Dynamic)) A23
              I ltac:(cbn; lia)) as [H3 _].
  destruct (@decomposition_returns_iff RealTraits (RealKernels (-1)) Dynamic
              (Tridiagonalization_sized Dynamic (default_size Dynamic)) A1_seven
              I ltac:(cbn; lia)) as [H4 _].
  split; [exact H1|]. split; [exact H2|]. split; [exact H3|exact H4].
Defined.

Lemma dispatcher_returns_iff_witness :
  returns (ei_tridiagonalization_inplace4 (K := RealKernels (-1)) Dynamic
             A3 (zeros 3) (zeros 2) true) = true
  /\ returns (ei_tridiagonalization_inplace4 (K := RealKernels (-1)) Dynamic
                A3 (zeros 3) (zeros 3) true) = false.
Proof.
  split.
  - exact (@dispatcher_returns_iff RealTraits (RealKernels (-1)) Dynamic
             A3 (zeros 3) (zeros 2) true I ltac:(cbn; lia)).
  - exact (@dispatcher_returns_iff RealTraits (RealKernels (-1)) Dynamic
             A3 (zeros 3) (zeros 3) true I ltac:(cbn; lia)).
Defined.

Lemma selector3_footprint_witness :
  snd (fst (selector3_run (T := RealTraits) A3 (zeros 3) (zeros 2) false))
  = snd (fst (selector3_run (T := RealTraits) A3_upper (zeros 3) (zeros 2) false))
  /\ snd (selector3_run (T := RealTraits) A3 (zeros 3) (zeros 2) false)
     = snd (selector3_run (T := RealTraits) A3_upper (zeros 3) (zeros 2) false)
  /\ fst (fst (selector3_run (T := RealTraits) A3 (zeros 3) (zeros 2) false))
     = A3.
Proof.
  destruct (@selector3_footprint RealTraits A3 A3_upper (zeros 3) (zeros 2)
              false (@A3_upper_lower_triangle))
    as (Hd & Hs & _ & Hm & _).
  split; [exact Hd|]. split; [exact Hs|exact (Hm eq_refl)].
Defined.

Lemma selector3_reconstructs_input_witness :
  let res := selector3_run (T := RealTraits) A3 (zeros 3) (zeros 2) true in
  Q_Qt 3 (coeff (fst (fst res))) 2 0 = 0%R
  /\ Q_T_Qt 3 (coeff (fst (fst res)))
       (tridiagonal_entry (snd (fst res)) (snd res)) 2 0 = (-2)%R.
Proof.
  cbv zeta.
  destruct (@selector3_reconstructs_input A3 (zeros 3) (zeros 2) 2 0
              ltac:(lia) ltac:(lia)) as [HQ HT].
  split; [exact HQ|].
  change (coeff A3 2 0) with (-2)%R in HT. rewrite much_smaller_four in HT.
  exact HT.
Defined.

Lemma paths_agree_order3_witness :
  exists diagG subdiagG diag3 subdiag3 : RealVector RealTraits,
    rcoeff diagG 1 = rcoeff diag3 1
    /\ (rcoeff subdiagG 1 = rcoeff subdiag3 1
        \/ rcoeff subdiagG 1 = (- rcoeff subdiag3 1)%R)
    /\ (0 <= rcoeff subdiag3 0)%R.
Proof.
  destruct (@paths_agree_order3 (RealKernels (-1)) A3 (zeros 3) (zeros 2)
              (@RealKernels_contract (-1) (or_intror eq_refl))
              eq_refl eq_refl eq_refl eq_refl much_smaller_four)
    as (matG & diagG & subdiagG & mat3 & diag3 & subdiag3
        & _ & _ & Hd & Hs & Hpos).
  exists diagG, subdiagG, diag3, subdiag3.
  split; [exact (Hd 1 ltac:(lia))|]. split; [exact (Hs 1 ltac:(lia))|exact Hpos].
Defined.

Lemma order1_general_path_witness :
  exists diagG subdiagG,
    ei_tridiagonalization_inplace4 (K := RealKernels (-1)) Dynamic
      A1_seven (zeros 1) (zeros 0) false
    = Returned (A1_seven, diagG, subdiagG)
    /\ rcoeff diagG 0 = 7%R.
Proof.
  destruct (@order1_general_path RealTraits (RealKernels (-1))
              A1_seven (zeros 1) (zeros 0) false
              eq_refl eq_refl eq_refl eq_refl)
    as (matG & diagG & subdiagG & mat1 & diag1 & subdiag1
        & Hrun & _ & _ & _ & Hd & _ & Hm & _).
  exists diagG, subdiagG. rewrite Hm in Hrun. split; [exact Hrun|exact Hd].
Defined.

Lemma step_is_similarity_witness :
  let res := makeHouseholder_signed (-1) (col_tail A3 0 2) in
  coeff (fst (tridiag_step (K := RealKernels (-1)) 3 0
                (A3, new_CoeffVector Dynamic 2))) 1 1
  = similarity (T := RealTraits) 2
      (reflector_matrix (T := RealTraits) (snd (fst res))
         (spec_v (fst (fst res))))
      (spec_S A3 0) 0 0.
Proof.
  cbv zeta.
  exact (@step_is_similarity RealTraits (RealKernels (-1)) RTheory eq_refl
           real_two_halves (fun z => eq_refl)
           A3 (new_CoeffVector Dynamic 2) 3 0 _ _ _ 0 0
           eq_refl eq_refl eq_refl ltac:(lia)
           (triple_eta (makeHouseholder_signed (-1) (col_tail A3 0 2)))
           ltac:(lia) ltac:(lia)).
Defined.

(** One is not negligible against 1. *)
Lemma much_smaller_one (c : R) : (1 <= c)%R -> much_smaller c 1 = false.
Proof.
  intros Hc. unfold much_smaller.
  destruct (Rle_dec (Rabs c) (Rabs 1 * dummy_precision)) as [Hle|_];
    [|reflexivity].
  exfalso. rewrite Rabs_R1 in Hle. rewrite Rabs_pos_eq in Hle by lra.
  unfold dummy_precision in Hle. lra.
Qed.

Lemma RealKernels_reflects (s : R) :
  s = 1%R \/ s = (-1)%R -> kernel_reflects (K := RealKernels s).
Proof.
  intros Hs x Hsize.
  exact (proj1 (@makeHouseholder_signed_reflects s x Hs Hsize)).
Qed.

Lemma selector3_complex_unitary_iff_witness :
  Q_Qstar 3
    (coeff (fst (fst (selector3_run (T := ComplexTraits) A3_complex
                        (czeros 3) (czeros 2) true)))) 1 2 = (0, 0)%R
  /\ ~ (forall a b, 0 <= a <= 2 -> 0 <= b <= 2 ->
          Q_Qstar 3
            (coeff (fst (fst (selector3_run (T := ComplexTraits) A3_hermitian
                                (czeros 3) (czeros 2) true)))) a b
          = if a =? b then (1, 0)%R else (0, 0)%R).
Proof.
  split.
  - apply (proj2 (@selector3_complex_unitary_iff A3_complex (czeros 3)
                    (czeros 2)
                    (much_smaller_one (c := (-2 * -2 + 0 * 0)%R) ltac:(lra))));
      [|lia|lia].
    change (snd (Cmul (Cconj (1, 0)%R) (-2, 0)%R) = 0%R).
    unfold Cmul, Cconj. cbn [fst snd]. lra.
  - intros H.
    apply (proj1 (@selector3_complex_unitary_iff A3_hermitian (czeros 3)
                    (czeros 2)
                    (much_smaller_one (c := (0 * 0 + 1 * 1)%R) ltac:(lra))))
      in H.
    change (snd (Cmul (Cconj (1, 0)%R) (0, 1)%R) = 0%R) in H.
    unfold Cmul, Cconj in H. cbn [fst snd] in H. lra.
Defined.

Lemma reduction_is_reflector_chain_witness :
  exists matA' hCoeffs',
    ei_tridiagonalization_inplace (K := RealKernels (-1)) A3
      (new_CoeffVector Dynamic 2) = Returned (matA', hCoeffs')
    /\ reflector_chain matA' hCoeffs' 3 2 (symmetric_view A3) 2 0 = 0%R
    /\ reflector_chain matA' hCoeffs' 3 2 (symmetric_view A3) 1 1
       = coeff matA' 1 1.
Proof.
  destruct (@reduction_is_reflector_chain RealTraits (RealKernels (-1))
              RTheory eq_refl real_two_halves (fun z => eq_refl)
              A3 (new_CoeffVector Dynamic 2)
              (@RealKernels_reflects (-1) (or_intror eq_refl))
              eq_refl eq_refl)
    as (matA' & hCoeffs' & Hrun & Hchain).
  exists matA', hCoeffs'. split; [exact Hrun|].
  split; symmetry.
  - exact (Hchain 2 0 ltac:(cbn; lia) ltac:(cbn; lia)).
  - exact (Hchain 1 1 ltac:(cbn; lia) ltac:(cbn; lia)).
Defined.

Lemma packed_reflectors_orthogonal_witness :
  exists matA' hCoeffs',
    ei_tridiagonalization_inplace (K := RealKernels (-1)) A3
      (new_CoeffVector Dynamic 2) = Returned (matA', hCoeffs')
    /\ Q_Qt 3 (reflector_matrix (T := RealTraits) (vcoeff hCoeffs' 0)
                 (packed_reflector matA' 0)) 1 2 = 0%R.
Proof.
  exact (@packed_reflectors_orthogonal (RealKernels (-1)) A3
           (new_CoeffVector Dynamic 2) 0 1 2
           (@RealKernels_contract (-1) (or_intror eq_refl))
           eq_refl eq_refl ltac:(cbn; lia) ltac:(cbn; lia) ltac:(cbn; lia)).
Defined.

Lemma matrixT_is_reflector_chain_witness :
  exists matT,
    matrixT decomposition_A3 = Returned matT
    /\ coeff matT 2 0
       = reflector_chain (m_matrix decomposition_A3)
           (m_hCoeffs decomposition_A3) 3 2 (symmetric_view A3) 2 0.
Proof.
  destruct (@matrixT_is_reflector_chain RealTraits (RealKernels (-1))
              RTheory eq_refl real_two_halves (fun z => eq_refl)
              (fun z => eq_refl) Dynamic
              (Tridiagonalization_sized Dynamic (default_size Dynamic))
              A3 decomposition_A3
              (@RealKernels_reflects (-1) (or_intror eq_refl))
              (or_intror compute_A3))
    as (matT & Hrun & _ & _ & Hchain).
  exists matT. split; [exact Hrun|].
  exact (Hchain 2 0 ltac:(cbn; lia) ltac:(cbn; lia)).
Defined.
